(** * bulletc: the C bridge between Bullet and the game's entity model

    A shallow embedding of [physics/bulletc-sys/bulletc]: [common.hpp],
    [dynworld.cpp] and [entity_collider.cpp], with the declarations of
    [bulletc.hpp], [dynworld.hpp] and [debug.hpp].  The entities of the
    first version of the bridge, [bulletc.cpp], are in the module [Legacy]
    at the end of the definitions.

    Conventions of the embedding.
    - [btScalar] is the single-precision [float] of the build: a finite
      value (a rational), an infinity or a NaN.  Every sum, difference and
      product is rounded to the nearest value of its format, ties to even,
      in the format C++ evaluates it in: [float] between floats, [double]
      where an operand is a [double] literal.  The two zeros are not told
      apart, nor are the payloads of NaNs.
    - The C++ free store is a finite map from addresses to cells; a pointer
      is an [option] of an address, [None] being [nullptr].  Dereferencing
      [nullptr] or a freed cell is a [Fault].  An allocation always finds
      memory: [new] does not throw and [new(std::nothrow)] does not return
      [nullptr].
    - Bullet itself is not part of the sources.  What the bridge needs from
      it (trigonometry, contact tests, the debug traversal, box margins) is
      the interface [Bullet]; its bookkeeping (the object array of the
      world, the transform composition, the overlap list of a ghost) is
      written out.
    - Every call that leaves the bridge (into Bullet or into the host's
      draw callback) is appended to a trace, oldest first. *)

From stdpp Require Import base gmap list.
From Stdlib Require Import ZArith QArith Qabs Qround Qpower Lia Lqa.

Open Scope Q_scope.

(** ** Floating point ([float], [double])

    A value of a binary floating-point format.  A finite one is kept as
    the rational it stands for. *)

Inductive ieee :=
| Fin (q : Q)
| Inf (negative : bool)
| NaN.

Coercion Fin : Q >-> ieee.

(** [btScalar] is [float]; Bullet is built in single precision. *)
Abbreviation btScalar := ieee (only parsing).

(** A format: the number of bits of its significand and the exponent of
    the first power of two it cannot hold. *)
Record format := mkFormat { precision : Z; emax : Z }.

Definition binary32 : format := mkFormat 24 128.
Definition binary64 : format := mkFormat 53 1024.

(** The exponent of the last place of the smallest (subnormal) values. *)
Definition emin (f : format) : Z := (3 - emax f - precision f)%Z.

Definition pow2 (k : Z) : Q := 2 ^ k.

(** For [0 < a], the exponent [k] with [2^k <= a < 2^(k+1)]. *)
Definition ilog2 (a : Q) : Z :=
  let k := (Z.log2 (Qnum a) - Z.log2 (Zpos (Qden a)))%Z in
  if Qle_bool (pow2 k) a then k else (k - 1)%Z.

(** The nearest integer, a tie going to the even one. *)
Definition rne (q : Q) : Z :=
  let fl := Qfloor q in
  match Qcompare (q - inject_Z fl) (1 # 2) with
  | Lt => fl
  | Gt => (fl + 1)%Z
  | Eq => if Z.even fl then fl else (fl + 1)%Z
  end.

(** The value of format [f] nearest to [a], for [0 < a], with the sign
    [negative]: [a] is cut to [precision f] bits, or to the last place of
    the subnormal values if it is that small, and what reaches
    [2^(emax f)] is an infinity. *)
Definition round_abs (f : format) (negative : bool) (a : Q) : ieee :=
  let ex := Z.max (ilog2 a - precision f + 1) (emin f) in
  let m := rne (a * pow2 (- ex)) in
  let r := Qred (inject_Z m * pow2 ex) in
  if Qle_bool (pow2 (emax f)) r then Inf negative
  else Fin (if negative then - r else r).

Definition round (f : format) (q : Q) : ieee :=
  let q := Qred q in
  match Qcompare q 0 with
  | Eq => Fin 0
  | Gt => round_abs f false q
  | Lt => round_abs f true (- q)
  end.

(** A conversion to format [f]. *)
Definition convert (f : format) (x : ieee) : ieee :=
  match x with
  | Fin q => round f q
  | _ => x
  end.

Definition fneg (x : ieee) : ieee :=
  match x with
  | Fin q => Fin (- q)
  | Inf s => Inf (negb s)
  | NaN => NaN
  end.

Definition negative (q : Q) : bool := negb (Qle_bool 0 q).

(** [x + y], [x * y] and [x - y] evaluated in format [f]. *)
Definition add_in (f : format) (x y : ieee) : ieee :=
  match x, y with
  | NaN, _ | _, NaN => NaN
  | Inf s, Inf t => if Bool.eqb s t then Inf s else NaN
  | Inf s, Fin _ | Fin _, Inf s => Inf s
  | Fin a, Fin b => round f (a + b)
  end.

Definition mul_in (f : format) (x y : ieee) : ieee :=
  match x, y with
  | NaN, _ | _, NaN => NaN
  | Inf s, Inf t => Inf (xorb s t)
  | Inf s, Fin b | Fin b, Inf s => if Qeq_bool b 0 then NaN else Inf (xorb s (negative b))
  | Fin a, Fin b => round f (a * b)
  end.

Definition sub_in (f : format) (x y : ieee) : ieee := add_in f x (fneg y).

(** The conversions [(float) x] and [(double) x], and the operators
    between two floats and between two doubles. *)
Definition to_float : ieee -> btScalar := convert binary32.
Definition to_double : ieee -> ieee := convert binary64.

Definition fadd : btScalar -> btScalar -> btScalar := add_in binary32.
Definition fsub : btScalar -> btScalar -> btScalar := sub_in binary32.
Definition fmul : btScalar -> btScalar -> btScalar := mul_in binary32.

Definition dsub : ieee -> ieee -> ieee := sub_in binary64.
Definition dmul : ieee -> ieee -> ieee := mul_in binary64.

(** The [double] a decimal literal of the sources denotes, and the [float]
    it becomes where a [btScalar] is expected. *)
Definition double (q : Q) : ieee := round binary64 q.
Definition single (q : Q) : btScalar := to_float (double q).

(** [x *= c] for a float [x] and a [double] literal [c]: the product is
    taken in double precision and converted back on assignment. *)
Definition times_literal (x : btScalar) (c : Q) : btScalar :=
  to_float (dmul (to_double x) (double c)).

(** [x - c] for a float [x] and a [double] literal [c], passed on as a
    [btScalar]. *)
Definition minus_literal (x : btScalar) (c : Q) : btScalar :=
  to_float (dsub (to_double x) (double c)).

(** Not an infinity and not a NaN. *)
Definition finite (x : ieee) : Prop :=
  match x with
  | Fin _ => True
  | _ => False
  end.

(** The same value.  (This is not the [==] of C++, for which a NaN differs
    from itself.) *)
Definition feq (x y : ieee) : Prop :=
  match x, y with
  | Fin a, Fin b => a == b
  | Inf s, Inf t => s = t
  | NaN, NaN => True
  | _, _ => False
  end.

(** A finite value of single precision: a conversion to [float] leaves it
    as it is. *)
Definition is_float (x : ieee) : Prop := finite x /\ feq (to_float x) x.

(** ** Linear algebra ([btVector3], [btMatrix3x3], [btTransform]) *)

Record btVector3 := mkVec { vx : btScalar; vy : btScalar; vz : btScalar }.

Record btMatrix3x3 := mkMat { row0 : btVector3; row1 : btVector3; row2 : btVector3 }.

Record btTransform := mkTransform { basis : btMatrix3x3; origin : btVector3 }.

(** [v[i]]; index 3 is the unused padding float. *)
Definition vget (v : btVector3) (i : nat) : btScalar :=
  match i with
  | O => vx v
  | 1%nat => vy v
  | 2%nat => vz v
  | _ => 0
  end.

(** [v[i] = x] *)
Definition vset (v : btVector3) (i : nat) (x : btScalar) : btVector3 :=
  match i with
  | O => mkVec x (vy v) (vz v)
  | 1%nat => mkVec (vx v) x (vz v)
  | 2%nat => mkVec (vx v) (vy v) x
  | _ => v
  end.

(** [a + b] *)
Definition vadd (a b : btVector3) : btVector3 :=
  mkVec (fadd (vx a) (vx b)) (fadd (vy a) (vy b)) (fadd (vz a) (vz b)).

(** [a - b] *)
Definition vsub (a b : btVector3) : btVector3 :=
  mkVec (fsub (vx a) (vx b)) (fsub (vy a) (vy b)) (fsub (vz a) (vz b)).

(** [v * s] *)
Definition vscale (v : btVector3) (s : btScalar) : btVector3 :=
  mkVec (fmul (vx v) s) (fmul (vy v) s) (fmul (vz v) s).

(** [a.dot(b)]: the three products, summed from the left. *)
Definition vdot (a b : btVector3) : btScalar :=
  fadd (fadd (fmul (vx a) (vx b)) (fmul (vy a) (vy b))) (fmul (vz a) (vz b)).

(** Componentwise, the same values. *)
Definition veq (a b : btVector3) : Prop :=
  feq (vx a) (vx b) /\ feq (vy a) (vy b) /\ feq (vz a) (vz b).

(** A vector and a matrix of finite floats. *)
Definition float_vector (v : btVector3) : Prop :=
  is_float (vx v) /\ is_float (vy v) /\ is_float (vz v).

Definition float_matrix (m : btMatrix3x3) : Prop :=
  float_vector (row0 m) /\ float_vector (row1 m) /\ float_vector (row2 m).

Definition vzero : btVector3 := mkVec 0 0 0.

Definition mat_identity : btMatrix3x3 :=
  mkMat (mkVec 1 0 0) (mkVec 0 1 0) (mkVec 0 0 1).

Definition mat_col (m : btMatrix3x3) (i : nat) : btVector3 :=
  mkVec (vget (row0 m) i) (vget (row1 m) i) (vget (row2 m) i).

(** [m * v] *)
Definition mat_vec (m : btMatrix3x3) (v : btVector3) : btVector3 :=
  mkVec (vdot (row0 m) v) (vdot (row1 m) v) (vdot (row2 m) v).

(** [a * b] *)
Definition mat_mul (a b : btMatrix3x3) : btMatrix3x3 :=
  let row r := mkVec (vdot r (mat_col b 0)) (vdot r (mat_col b 1)) (vdot r (mat_col b 2)) in
  mkMat (row (row0 a)) (row (row1 a)) (row (row2 a)).

(** [btTransform::getIdentity()] *)
Definition transform_identity : btTransform := mkTransform mat_identity vzero.

(** [a * b]: [btTransform(a.basis * b.basis, a(b.origin))] *)
Definition transform_mul (a b : btTransform) : btTransform :=
  mkTransform (mat_mul (basis a) (basis b))
              (vadd (mat_vec (basis a) (origin b)) (origin a)).

Definition setOrigin (t : btTransform) (o : btVector3) : btTransform :=
  mkTransform (basis t) o.

Definition setBasis (t : btTransform) (b : btMatrix3x3) : btTransform :=
  mkTransform b (origin t).

(** ** common.hpp *)

(** z axis *)
Definition UP : btVector3 := mkVec 0.0 0.0 1.0.
Definition UP_DIM : nat := 2.

(** y axis *)
Definition FWD : btVector3 := mkVec 0.0 1.0 0.0.
Definition FWD_DIM : nat := 1.

(** x axis *)
Definition SIDE_DIM : nat := 0.

(** collision groups *)
Definition COL_NONE : Z := 0.
Definition COL_WORLD : Z := Z.shiftl 1 10.
Definition COL_ENTITIES : Z := Z.shiftl 1 11.
Definition COL_ENTITY_JUMP_SENSOR : Z := Z.shiftl 1 12.

(** what each collides with *)
Definition COLMASK_WORLD : Z := Z.lor COL_ENTITIES COL_ENTITY_JUMP_SENSOR.
Definition COLMASK_ENTITY : Z := COL_WORLD.
Definition COLMASK_ENTITY_JUMP_SENSOR : Z := COL_WORLD.

(** ** The objects the bridge allocates

    A pointer is an optional address; [None] is [nullptr]. *)

Definition addr := nat.
Bind Scope nat_scope with addr.
Definition ptr := option addr.

(** A [btCollisionObject *] as the world registers it.  The slab's body is
    a heap object of its own; an entity's body and a sensor's ghost are
    fields of the structure that owns them. *)
Inductive objref :=
| RigidBodyAt (a : addr)
| EntityBodyOf (a : addr)
| SensorBodyOf (a : addr).

#[global] Instance objref_eq_dec : EqDecision objref.
Proof. solve_decision. Defined.

(** One entry of the world's object array: the object with the collision
    filter group and mask it was added with. *)
Record registration := mkReg { reg_obj : objref; reg_group : Z; reg_mask : Z }.

Record btRigidBody := mkRigidBody {
  rb_mass : btScalar;
  rb_collisionShape : ptr;
  rb_friction : btScalar;
  rb_linearDamping : btScalar;
  rb_worldTransform : btTransform;
  rb_interpolationWorldTransform : btTransform;
  rb_angularFactor : btVector3;
  rb_totalForce : btVector3;
  rb_userPointer : Z
}.

(** [btRigidBody::btRigidBodyConstructionInfo desc(mass, nullptr, shape)]
    with the fields the bridge overwrites. *)
Record btRigidBodyConstructionInfo := mkInfo {
  m_mass : btScalar;
  m_collisionShape : ptr;
  m_friction : btScalar;
  m_linearDamping : btScalar;
  m_startWorldTransform : btTransform
}.

Definition constructionInfo (mass : btScalar) (shape : ptr) : btRigidBodyConstructionInfo :=
  mkInfo mass shape 0.5 0 transform_identity.

Definition new_btRigidBody (desc : btRigidBodyConstructionInfo) : btRigidBody :=
  mkRigidBody (m_mass desc) (m_collisionShape desc) (m_friction desc) (m_linearDamping desc)
              (m_startWorldTransform desc) (m_startWorldTransform desc)
              (mkVec 1 1 1) vzero 0.

Definition set_rb_worldTransform (r : btRigidBody) (t : btTransform) : btRigidBody :=
  mkRigidBody (rb_mass r) (rb_collisionShape r) (rb_friction r) (rb_linearDamping r)
              t (rb_interpolationWorldTransform r) (rb_angularFactor r) (rb_totalForce r)
              (rb_userPointer r).

Definition set_rb_angularFactor (r : btRigidBody) (f : btVector3) : btRigidBody :=
  mkRigidBody (rb_mass r) (rb_collisionShape r) (rb_friction r) (rb_linearDamping r)
              (rb_worldTransform r) (rb_interpolationWorldTransform r) f (rb_totalForce r)
              (rb_userPointer r).

Definition set_rb_totalForce (r : btRigidBody) (f : btVector3) : btRigidBody :=
  mkRigidBody (rb_mass r) (rb_collisionShape r) (rb_friction r) (rb_linearDamping r)
              (rb_worldTransform r) (rb_interpolationWorldTransform r) (rb_angularFactor r) f
              (rb_userPointer r).

Definition set_rb_userPointer (r : btRigidBody) (p : Z) : btRigidBody :=
  mkRigidBody (rb_mass r) (rb_collisionShape r) (rb_friction r) (rb_linearDamping r)
              (rb_worldTransform r) (rb_interpolationWorldTransform r) (rb_angularFactor r)
              (rb_totalForce r) p.

(** [btCollisionObject::CollisionFlags] *)
Definition CF_STATIC_OBJECT : Z := 1.
Definition CF_KINEMATIC_OBJECT : Z := 2.
Definition CF_NO_CONTACT_RESPONSE : Z := 4.

Record btGhostObject := mkGhost {
  gh_worldTransform : btTransform;
  gh_collisionFlags : Z;
  gh_overlappingObjects : list objref
}.

Definition new_btGhostObject : btGhostObject :=
  mkGhost transform_identity CF_STATIC_OBJECT [].

(** A box shape, by the half extents its constructor was given. *)
Record btBoxShape := mkBox { box_halfExtents : btVector3 }.

(** [struct entity_jump_sensor].  The ghost's user pointer is [&occluded];
    it is not stored, the callback writes the field. *)
Record entity_jump_sensor := mkSensor {
  occluded : Z;
  sensor_body : btGhostObject;
  sensor_shape : btBoxShape
}.

(** [struct entity_collider] *)
Record entity_collider := mkEntity {
  collider_body : btRigidBody;
  body_shape : ptr;
  half_dims : btVector3;
  jump_sensor : ptr
}.

(** [struct slab_collider] *)
Record slab_collider := mkSlab {
  slab_body : ptr;
  mesh : ptr;
  shape : ptr;
  vertices : ptr;
  indices : ptr
}.

Record btIndexedMesh := mkIndexedMesh {
  m_numTriangles : Z;
  m_triangleIndexBase : ptr;
  m_triangleIndexStride : Z;
  m_numVertices : Z;
  m_vertexBase : ptr;
  m_vertexStride : Z
}.

(** [fn_draw_line]: the host's callback, by identity. *)
Definition fn_draw_line := option nat.

(** [class DebugRenderer] *)
Record DebugRenderer := mkRenderer {
  frame_blob : ptr;
  draw_line : fn_draw_line;
  mode : Z
}.

(** The part of [btDiscreteDynamicsWorld] the bridge talks to: the object
    array, gravity and the installed debug drawer. *)
Record btDiscreteDynamicsWorld := mkDynamics {
  collisionObjects : list registration;
  gravity : btVector3;
  m_debugDrawer : ptr
}.

(** The objects of Bullet a [dynworld] allocates for itself.  The bridge
    never reads them; each is kept by what its constructor was given. *)
Inductive bullet_object :=
| BtDefaultCollisionConfiguration
| BtCollisionDispatcher (collisionConfiguration : ptr)
| BtDbvtBroadphase
| BtSequentialImpulseConstraintSolver
| BtDiscreteDynamicsWorld (dispatcher pairCache constraintSolver collisionConfiguration : ptr)
| BtGhostPairCallback.

(** [struct dynworld].  [dynamicsWorld_at] is the pointer the field
    [dynamicsWorld] of the structure holds; the object behind it is reached
    through this structure alone and is kept here, as [dynamicsWorld]. *)
Record dynworld := mkWorld {
  collisionConfiguration : ptr;
  dispatcher : ptr;
  overlappingPairCache : ptr;
  solver : ptr;
  dynamicsWorld_at : ptr;
  dynamicsWorld : btDiscreteDynamicsWorld;
  ghostCallback : ptr;
  debugRenderer : ptr
}.

Inductive cell :=
| CWorld (w : dynworld)
| CBullet (o : bullet_object)
| CDebugRenderer (r : DebugRenderer)
| CSlab (s : slab_collider)
| CFloats (l : list btScalar)
| CIndices (l : list Z)
| CMesh (m : list btIndexedMesh)
| CMeshShape (m : ptr)
| CRigidBody (b : btRigidBody)
| CBoxShape (b : btBoxShape)
| CEntity (e : entity_collider)
| CSensor (s : entity_jump_sensor).

(** Calls that leave the bridge. *)
Inductive event :=
| EvAddObject (o : objref) (group mask : Z)
| EvRemoveObject (o : objref)
| EvNew (a : addr)
| EvDelete (a : addr)
| EvSetWorldTransform (o : objref) (t : btTransform)
| EvApplyCentralForce (o : objref) (f : btVector3)
| EvContactPairTest (sensor other : objref)
| EvDebugDrawWorld
| EvDrawLine (callback : fn_draw_line) (blob : ptr) (from to color : btVector3).

Record state := mkState {
  heap : gmap addr cell;
  next : addr;
  trace : list event
}.

(** ** What the bridge uses of Bullet *)

Class Bullet := {
  (** [btQuaternion(axis, angle)] turned into a basis by [setRotation] *)
  axisAngleBasis : btVector3 -> btScalar -> btMatrix3x3;
  (** [quatRotate(t.getRotation(), v)] *)
  quatRotateBasis : btMatrix3x3 -> btVector3 -> btVector3;
  (** [btBoxShape::getHalfExtentsWithoutMargin] *)
  getHalfExtentsWithoutMargin : btBoxShape -> btVector3;
  (** the number of manifold points [contactPairTest] hands to the result
      callback for a pair, in the given store *)
  contactPoints : gmap addr cell -> objref -> objref -> nat;
  (** the lines one [debugDrawWorld] traversal draws *)
  debugLines : gmap addr cell -> list registration -> list (btVector3 * btVector3 * btVector3);
  (** Bullet never reads what a user pointer points to: the contacts of a
      pair do not depend on the [occluded] word of a sensor *)
  contactPoints_user_data : forall h a s z o1 o2,
    h !! a = Some (CSensor s) ->
    contactPoints (<[a := CSensor (mkSensor z (sensor_body s) (sensor_shape s))]> h) o1 o2
    = contactPoints h o1 o2
}.

(** ** A state-and-fault monad for the bridge's functions *)

Inductive fault :=
| NullPointer
| InvalidPointer
| OutOfBounds.

Inductive result (A : Type) :=
| Ok (a : A)
| Fault (f : fault).
Arguments Ok {A} a.
Arguments Fault {A} f.

Definition M (A : Type) : Type := state -> result (A * state).

#[global] Instance M_ret : MRet M := fun A a s => Ok (a, s).

#[global] Instance M_bind : MBind M := fun A B f m s =>
  match m s with
  | Ok (a, s') => f a s'
  | Fault e => Fault e
  end.

Definition fail {A} (e : fault) : M A := fun _ => Fault e.

Definition get_heap : M (gmap addr cell) := fun s => Ok (heap s, s).

Definition log (e : event) : M unit :=
  fun s => Ok (tt, mkState (heap s) (next s) (trace s ++ [e])).

(** [new T(...)]: the next unused address. *)
Definition new (c : cell) : M addr :=
  fun s => Ok (next s, mkState (<[next s := c]> (heap s)) (S (next s)) (trace s ++ [EvNew (next s)])).

(** The cell behind a pointer. *)
Definition load (p : ptr) : M cell :=
  fun s => match p with
           | None => Fault NullPointer
           | Some a => match heap s !! a with
                       | Some c => Ok (c, s)
                       | None => Fault InvalidPointer
                       end
           end.

Definition store (a : addr) (c : cell) : M unit :=
  fun s => match heap s !! a with
           | Some _ => Ok (tt, mkState (<[a := c]> (heap s)) (next s) (trace s))
           | None => Fault InvalidPointer
           end.

(** Releasing the storage of a live object. *)
Definition free (a : addr) : M unit :=
  fun s => match heap s !! a with
           | Some _ => Ok (tt, mkState (delete a (heap s)) (next s) (trace s ++ [EvDelete a]))
           | None => Fault InvalidPointer
           end.

(** [delete p] of an object without a destructor of the bridge's own;
    deleting [nullptr] does nothing. *)
Definition delete_ptr (p : ptr) : M unit :=
  match p with
  | None => mret tt
  | Some a => free a
  end.

Definition load_world (p : ptr) : M dynworld :=
  c ← load p; match c with CWorld w => mret w | _ => fail InvalidPointer end.

Definition load_renderer (p : ptr) : M DebugRenderer :=
  c ← load p; match c with CDebugRenderer r => mret r | _ => fail InvalidPointer end.

Definition load_slab (p : ptr) : M slab_collider :=
  c ← load p; match c with CSlab x => mret x | _ => fail InvalidPointer end.

Definition load_entity (p : ptr) : M entity_collider :=
  c ← load p; match c with CEntity x => mret x | _ => fail InvalidPointer end.

Definition load_sensor (p : ptr) : M entity_jump_sensor :=
  c ← load p; match c with CSensor x => mret x | _ => fail InvalidPointer end.

Definition store_ptr (p : ptr) (c : cell) : M unit :=
  match p with
  | None => fail NullPointer
  | Some a => store a c
  end.

Fixpoint for_each {A} (f : A -> M unit) (l : list A) : M unit :=
  match l with
  | [] => mret tt
  | x :: l' => f x;; for_each f l'
  end.

Fixpoint repeat_call (n : nat) (f : M unit) : M unit :=
  match n with
  | O => mret tt
  | S n' => f;; repeat_call n' f
  end.

(** [std::copy(src, src + n, dst)]: reads [n] elements of the caller's
    buffer. *)
Definition copy_n {A} (src : list A) (n : nat) : M (list A) :=
  if (n <=? length src)%nat then mret (take n src) else fail OutOfBounds.

(** Conversion of a [size_t] to [int]. *)
Definition to_int (n : nat) : Z :=
  ((Z.of_nat n + 2 ^ 31) mod 2 ^ 32 - 2 ^ 31)%Z.

(** ** Bullet's bookkeeping, as far as the bridge drives it *)

Definition set_dynamicsWorld (w : dynworld) (d : btDiscreteDynamicsWorld) : dynworld :=
  mkWorld (collisionConfiguration w) (dispatcher w) (overlappingPairCache w) (solver w)
          (dynamicsWorld_at w) d (ghostCallback w) (debugRenderer w).

Definition set_collisionObjects (w : dynworld) (l : list registration) : dynworld :=
  set_dynamicsWorld w
    (mkDynamics l (gravity (dynamicsWorld w)) (m_debugDrawer (dynamicsWorld w))).

Definition set_m_debugDrawer (w : dynworld) (p : ptr) : dynworld :=
  set_dynamicsWorld w
    (mkDynamics (collisionObjects (dynamicsWorld w)) (gravity (dynamicsWorld w)) p).

Definition set_debugRenderer (w : dynworld) (p : ptr) : dynworld :=
  mkWorld (collisionConfiguration w) (dispatcher w) (overlappingPairCache w) (solver w)
          (dynamicsWorld_at w) (dynamicsWorld w) (ghostCallback w) p.

(** [world->dynamicsWorld->addRigidBody(o, group, mask)] and
    [addCollisionObject(o, group, mask)]. *)
Definition addCollisionObject (world : ptr) (o : objref) (group mask : Z) : M unit :=
  w ← load_world world;
  store_ptr world (CWorld (set_collisionObjects w
     (collisionObjects (dynamicsWorld w) ++ [mkReg o group mask])));;
  log (EvAddObject o group mask).

(** [world->dynamicsWorld->removeRigidBody(body)] *)
Definition removeRigidBody (world : ptr) (body : ptr) : M unit :=
  w ← load_world world;
  match body with
  | None => fail NullPointer
  | Some b =>
      load body;;
      store_ptr world (CWorld (set_collisionObjects w
         (filter (fun r => reg_obj r ≠ RigidBodyAt b) (collisionObjects (dynamicsWorld w)))));;
      log (EvRemoveObject (RigidBodyAt b))
  end.

(** Bullet's default broadphase filter: a pair is considered when each
    object's group meets the other's mask. *)
Definition needsCollision (a b : registration) : bool :=
  negb (Z.land (reg_group a) (reg_mask b) =? 0)%Z &&
  negb (Z.land (reg_group b) (reg_mask a) =? 0)%Z.

Section Bridge.
Context `{B : Bullet}.

(** ** debug.cpp *)

Definition setFrameBlob (this : ptr) (blob : ptr) : M unit :=
  r ← load_renderer this;
  store_ptr this (CDebugRenderer (mkRenderer blob (draw_line r) (mode r))).

Definition setDebugMode (this : ptr) (debugMode : Z) : M unit :=
  r ← load_renderer this;
  store_ptr this (CDebugRenderer (mkRenderer (frame_blob r) (draw_line r) debugMode)).

(** calls back into the host *)
Definition drawLine (this : ptr) (from to color : btVector3) : M unit :=
  r ← load_renderer this;
  log (EvDrawLine (draw_line r) (frame_blob r) from to color).

(** [btIDebugDraw::DBG_DrawWireframe] *)
Definition DBG_DrawWireframe : Z := 1.

(** [dynamicsWorld->debugDrawWorld()]: Bullet draws nothing without a
    drawer of its own, and otherwise sends every line to it. *)
Definition debugDrawWorld (world : ptr) : M unit :=
  w ← load_world world;
  log EvDebugDrawWorld;;
  match m_debugDrawer (dynamicsWorld w) with
  | None => mret tt
  | Some d =>
      h ← get_heap;
      for_each (fun l => drawLine (Some d) l.1.1 l.1.2 l.2)
               (debugLines h (collisionObjects (dynamicsWorld w)))
  end.

(** ** dynworld.cpp *)

(** [dynworld::dynworld(gravity)], run on the storage [world] that
    [new(std::nothrow)] has found. *)
Definition dynworld_ctor (world : addr) (g : btScalar) : M unit :=
  collisionConfiguration ← new (CBullet BtDefaultCollisionConfiguration);
  dispatcher ← new (CBullet (BtCollisionDispatcher (Some collisionConfiguration)));
  overlappingPairCache ← new (CBullet BtDbvtBroadphase);
  solver ← new (CBullet BtSequentialImpulseConstraintSolver);
  dynamicsWorld ← new (CBullet (BtDiscreteDynamicsWorld (Some dispatcher)
                                  (Some overlappingPairCache) (Some solver)
                                  (Some collisionConfiguration)));
  (* debugRenderer = nullptr; gravity *)
  ghostCallback ← new (CBullet BtGhostPairCallback);
  store world (CWorld (mkWorld (Some collisionConfiguration) (Some dispatcher)
                               (Some overlappingPairCache) (Some solver)
                               (Some dynamicsWorld) (mkDynamics [] (mkVec 0 0 g) None)
                               (Some ghostCallback) None)).

(** The fields of a [dynworld] before its constructor has run. *)
Definition dynworld_raw : dynworld :=
  mkWorld None None None None None (mkDynamics [] vzero None) None None.

(** The world the constructor makes of the storage at [a], when the
    allocator stands right behind it: its objects of Bullet are at the six
    addresses that follow. *)
Definition world_at (a : addr) (g : btScalar) : dynworld :=
  mkWorld (Some (1 + a)%nat) (Some (2 + a)%nat) (Some (3 + a)%nat) (Some (4 + a)%nat)
          (Some (5 + a)%nat) (mkDynamics [] (mkVec 0 0 g) None) (Some (6 + a)%nat) None.

Definition dynworld_create (g : btScalar) : M ptr :=
  world ← new (CWorld dynworld_raw);
  dynworld_ctor world g;;
  mret (Some world).

Definition dynworld_set_debug_drawer (world : ptr) (draw_line : fn_draw_line) : M unit :=
  w ← load_world world;
  (* delete existing if necessary *)
  delete_ptr (debugRenderer w);;
  match draw_line with
  | Some _ =>
      renderer ← new (CDebugRenderer (mkRenderer None draw_line 0));
      setDebugMode (Some renderer) DBG_DrawWireframe;;
      store_ptr world (CWorld (set_debugRenderer w (Some renderer)));;
      store_ptr world (CWorld (set_m_debugDrawer (set_debugRenderer w (Some renderer))
                                                 (Some renderer)))
  | None => mret tt
  end.

Definition dynworld_debug_draw (world : ptr) (blob : ptr) : M unit :=
  w ← load_world world;
  setFrameBlob (debugRenderer w) blob;;
  debugDrawWorld world;;
  setFrameBlob (debugRenderer w) None.

(** [~slab_collider] followed by the release of the structure.  Deleting
    [nullptr] does nothing. *)
Definition delete_slab (p : ptr) : M unit :=
  match p with
  | None => mret tt
  | Some a =>
      s ← load_slab p;
      delete_ptr (indices s);;
      delete_ptr (vertices s);;
      delete_ptr (shape s);;
      delete_ptr (mesh s);;
      delete_ptr (slab_body s);;
      free a
  end.

Definition slab_collider_update (world prev : ptr) (slab_pos : btVector3)
    (vertices_in : list btScalar) (vertices_count : nat)
    (indices_in : list Z) (indices_count : nat) : M ptr :=
  (* copy vertices and indices *)
  vs ← copy_n vertices_in (vertices_count * 3);
  ixs ← copy_n indices_in indices_count;
  vertices_copy ← new (CFloats vs);
  indices_copy ← new (CIndices ixs);
  (* clean up previous if necessary and allocate new *)
  match prev with
  | Some _ => p ← load_slab prev; removeRigidBody world (slab_body p)
  | None => mret tt
  end;;
  delete_slab prev;;
  collider ← new (CSlab (mkSlab None None None None None));
  store collider (CSlab (mkSlab None None None (Some vertices_copy) (Some indices_copy)));;
  (* create new mesh *)
  let indexed := mkIndexedMesh (Z.quot (to_int indices_count) 3) (Some indices_copy) 12
                               (to_int vertices_count) (Some vertices_copy) 12 in
  m ← new (CMesh []);
  store m (CMesh [indexed]);;
  store collider (CSlab (mkSlab None (Some m) None (Some vertices_copy) (Some indices_copy)));;
  (* create rigid body *)
  sh ← new (CMeshShape (Some m));
  store collider (CSlab (mkSlab None (Some m) (Some sh) (Some vertices_copy) (Some indices_copy)));;
  let desc := constructionInfo 0.0 (Some sh) in
  let desc := mkInfo (m_mass desc) (m_collisionShape desc) 0.5 (m_linearDamping desc)
                (setOrigin (m_startWorldTransform desc)
                   (mkVec (vx slab_pos) (vy slab_pos) (minus_literal (vz slab_pos) 0.5))) in
  b ← new (CRigidBody (new_btRigidBody desc));
  store collider (CSlab (mkSlab (Some b) (Some m) (Some sh) (Some vertices_copy) (Some indices_copy)));;
  (* add to world *)
  addCollisionObject world (RigidBodyAt b) COL_WORLD COLMASK_WORLD;;
  store b (CRigidBody (set_rb_userPointer (new_btRigidBody desc) 500));;
  mret (Some collider).


(** ** entity_collider.cpp *)

(** [jump_sensor_callback::addSingleResult]: the user pointer of the
    sensor's ghost is its [occluded] field.  Bullet hands the callback the
    sensor as object 0, as the callback takes for granted. *)
Definition addSingleResult (sensor : addr) : M unit :=
  s ← load_sensor (Some sensor);
  (* set persistently *)
  store sensor (CSensor (mkSensor (Z.lor (occluded s) 1) (sensor_body s) (sensor_shape s))).

(** [world->dynamicsWorld->contactPairTest(&body, other, contact_callback)] *)
Definition contactPairTest (world : ptr) (sensor : addr) (other : objref) : M unit :=
  load_world world;;
  log (EvContactPairTest (SensorBodyOf sensor) other);;
  h ← get_heap;
  repeat_call (contactPoints h (SensorBodyOf sensor) other) (addSingleResult sensor).

(** [entity_jump_sensor::entity_jump_sensor(half_dims)] *)
Definition new_entity_jump_sensor (half_dims : btVector3) : entity_jump_sensor :=
  let sensor_dims := half_dims in
  let sensor_dims := vset sensor_dims SIDE_DIM (times_literal (vget sensor_dims SIDE_DIM) 0.8) in
  let sensor_dims := vset sensor_dims FWD_DIM (times_literal (vget sensor_dims FWD_DIM) 0.8) in
  let sensor_dims := vset sensor_dims UP_DIM (times_literal (vget sensor_dims UP_DIM) 0.25) in
  let body := new_btGhostObject in
  let body := mkGhost (gh_worldTransform body)
                      (Z.lor (Z.lor (gh_collisionFlags body) CF_KINEMATIC_OBJECT)
                             CF_NO_CONTACT_RESPONSE)
                      (gh_overlappingObjects body) in
  mkSensor 0 body (mkBox sensor_dims).

(** [(2.0 - shape.getHalfExtentsWithoutMargin()[FWD_DIM])]: a difference
    of doubles, made a [btScalar] where the vector is scaled by it. *)
Definition jump_sensor_forward_factor (sensor_shape : btBoxShape) : btScalar :=
  to_float (dsub (double 2.0)
                 (to_double (vget (getHalfExtentsWithoutMargin sensor_shape) FWD_DIM))).

(** The local transform [entity_jump_sensor::update_jump_sensor_transform]
    builds before composing it with the body's. *)
Definition jump_sensor_offset (sensor_shape : btBoxShape) (half_dims : btVector3) : btTransform :=
  let transform := transform_identity in
  let translation := origin transform in
  let translation :=
    vadd translation
         (vscale (vscale FWD (vget half_dims FWD_DIM))
                 (jump_sensor_forward_factor sensor_shape)) in
  let translation :=
    vadd translation (vscale (vscale UP (vget half_dims UP_DIM)) (single (-0.5))) in
  setOrigin transform translation.

(** [body.setWorldTransform(t)] on the sensor's ghost *)
Definition set_sensor_worldTransform (s : entity_jump_sensor) (t : btTransform)
  : entity_jump_sensor :=
  mkSensor (occluded s)
           (mkGhost t (gh_collisionFlags (sensor_body s)) (gh_overlappingObjects (sensor_body s)))
           (sensor_shape s).

(** keep sensor in front of body *)
Definition sensor_update_jump_sensor_transform (this : ptr) (half_dims : btVector3)
    (body_transform : btTransform) : M unit :=
  s ← load_sensor this;
  let t := transform_mul body_transform (jump_sensor_offset (sensor_shape s) half_dims) in
  store_ptr this (CSensor (set_sensor_worldTransform s t));;
  match this with
  | Some a => log (EvSetWorldTransform (SensorBodyOf a) t)
  | None => mret tt
  end.

(** sensor should already be in place *)
Definition poll (this : ptr) (world : ptr) : M bool :=
  s ← load_sensor this;
  let pairs := gh_overlappingObjects (sensor_body s) in
  match this with
  | Some a => for_each (contactPairTest world a) pairs
  | None => mret tt
  end;;
  s ← load_sensor this;
  let ret := (occluded s =? 1)%Z in
  (* reset for next time *)
  store_ptr this (CSensor (mkSensor 0 (sensor_body s) (sensor_shape s)));;
  mret ret.

Definition has_jump_sensor (c : entity_collider) : bool :=
  match jump_sensor c with Some _ => true | None => false end.

(** [entity_collider::update_jump_sensor_transform]; only call if
    [has_jump_sensor] *)
Definition update_jump_sensor_transform (this : ptr) : M unit :=
  c ← load_entity this;
  sensor_update_jump_sensor_transform (jump_sensor c) (half_dims c)
                                      (rb_worldTransform (collider_body c)).

Definition poll_jump_sensor (this : ptr) (world : ptr) : M bool :=
  c ← load_entity this;
  poll (jump_sensor c) world.

Definition entity_collider_create (world : ptr) (center half_extents : btVector3)
    (friction linear_damping : btScalar) (add_jump_sensor : bool) : M ptr :=
  let dims := mkVec (vx half_extents) (vy half_extents) (vz half_extents) in
  let pos := mkVec (vx center) (vy center) (vz center) in
  shape ← new (CBoxShape (mkBox dims));
  let desc := constructionInfo 2.0 (Some shape) in
  let desc := mkInfo (m_mass desc) (m_collisionShape desc) friction linear_damping
                     (setOrigin (m_startWorldTransform desc) pos) in
  (* new entity_collider(shape, desc, dims, jump_sensor) *)
  let body := new_btRigidBody desc in
  collider ← new (CEntity (mkEntity body (Some shape) dims None));
  (* only rotate around up axis *)
  let body := set_rb_angularFactor body UP in
  store collider (CEntity (mkEntity body (Some shape) dims None));;
  (if add_jump_sensor then
     sensor ← new (CSensor (new_entity_jump_sensor dims));
     store collider (CEntity (mkEntity body (Some shape) dims (Some sensor)));;
     update_jump_sensor_transform (Some collider)
   else mret tt);;
  (* add to world *)
  addCollisionObject world (EntityBodyOf collider) COL_ENTITIES COLMASK_ENTITY;;
  c ← load_entity (Some collider);
  store collider (CEntity (mkEntity (set_rb_userPointer (collider_body c) 600)
                                    (body_shape c) (half_dims c) (jump_sensor c)));;
  (if add_jump_sensor then
     match jump_sensor c with
     | Some sensor =>
         addCollisionObject world (SensorBodyOf sensor)
                            COL_ENTITY_JUMP_SENSOR COLMASK_ENTITY_JUMP_SENSOR
     | None => fail NullPointer
     end
   else mret tt);;
  mret (Some collider).

(** The caller's output buffers of [entity_collider_get]. *)
Record get_outputs := mkOutputs {
  out_pos : btVector3;
  out_rot : btScalar * btScalar;
  out_jump_sensor_occluded : bool
}.

Definition entity_collider_get (world collider : ptr) (outs : get_outputs)
  : M (Z * get_outputs) :=
  match collider with
  | Some _ =>
      c ← load_entity collider;
      let transform := rb_interpolationWorldTransform (collider_body c) in
      let position := origin transform in
      let rotation := quatRotateBasis (basis transform) FWD in
      let outs := mkOutputs (mkVec (vx position) (vy position) (vz position))
                            (out_rot outs) (out_jump_sensor_occluded outs) in
      let outs := mkOutputs (out_pos outs) (vx rotation, vy rotation)
                            (out_jump_sensor_occluded outs) in
      if has_jump_sensor c then
        b ← poll_jump_sensor collider world;
        mret (0%Z, mkOutputs (out_pos outs) (out_rot outs) b)
      else mret (0%Z, outs)
  | None => mret ((-1)%Z, outs)
  end.

Definition entity_collider_get_pos (collider : ptr) (pos : btVector3) : M (Z * btVector3) :=
  match collider with
  | Some _ =>
      c ← load_entity collider;
      let transform := rb_interpolationWorldTransform (collider_body c) in
      let position := origin transform in
      mret (0%Z, mkVec (vx position) (vy position) (vz position))
  | None => mret ((-1)%Z, pos)
  end.

Definition entity_collider_set (collider : ptr) (pos : btVector3) (rot : btScalar)
    (vel : btVector3) (jump_force : btScalar) : M Z :=
  match collider with
  | Some a =>
      c ← load_entity collider;
      let transform := rb_worldTransform (collider_body c) in
      let new_pos := mkVec (vx pos) (vy pos) (vz pos) in
      let transform := setOrigin transform new_pos in
      let transform := setBasis transform (axisAngleBasis UP rot) in
      store a (CEntity (mkEntity (set_rb_worldTransform (collider_body c) transform)
                                 (body_shape c) (half_dims c) (jump_sensor c)));;
      log (EvSetWorldTransform (EntityBodyOf a) transform);;
      (if has_jump_sensor c then update_jump_sensor_transform collider else mret tt);;
      let new_vel := mkVec (vx vel) (vy vel) (vz vel) in
      (* TODO jump only if touching the ground *)
      let new_vel := vset new_vel UP_DIM (fadd (vget new_vel UP_DIM) jump_force) in
      (* applyCentralForce: the force is added to the body's total force
         (the linear factor is never changed from (1, 1, 1)) *)
      c ← load_entity collider;
      store a (CEntity (mkEntity
         (set_rb_totalForce (collider_body c) (vadd (rb_totalForce (collider_body c)) new_vel))
         (body_shape c) (half_dims c) (jump_sensor c)));;
      log (EvApplyCentralForce (EntityBodyOf a) new_vel);;
      mret 0%Z
  | None => mret (-1)%Z
  end.


(** ** stepSimulation

    The solver is outside the sources.  What one step does to the objects
    of the bridge is given with the call: the broadphase rewrites the
    overlap list of a ghost through the ghost-pair callback, and the
    integration moves an entity's body and clears its forces. *)

Inductive engine_effect :=
| GhostOverlaps (sensor : addr) (l : list objref)
| EntityMoved (e : addr) (world_transform interpolated : btTransform).

Definition apply_effect (e : engine_effect) : M unit :=
  match e with
  | GhostOverlaps a l =>
      s ← load_sensor (Some a);
      store a (CSensor (mkSensor (occluded s)
        (mkGhost (gh_worldTransform (sensor_body s)) (gh_collisionFlags (sensor_body s)) l)
        (sensor_shape s)))
  | EntityMoved a wt it =>
      c ← load_entity (Some a);
      let b := collider_body c in
      store a (CEntity (mkEntity
        (mkRigidBody (rb_mass b) (rb_collisionShape b) (rb_friction b) (rb_linearDamping b)
                     wt it (rb_angularFactor b) vzero (rb_userPointer b))
        (body_shape c) (half_dims c) (jump_sensor c)))
  end.

Definition dynworld_step (world : ptr) (elapsed_seconds fixed_rate : btScalar)
    (effects : list engine_effect) : M unit :=
  load_world world;;
  for_each apply_effect effects.

Definition dynworld_step_render_only (world : ptr) (elapsed_seconds : btScalar)
    (effects : list engine_effect) : M unit :=
  load_world world;;
  for_each apply_effect effects.

(** What [~dynworld] deletes, in its order: Bullet's world and subsystems,
    then the renderer. *)
Definition owned (w : dynworld) : list ptr :=
  [ dynamicsWorld_at w; solver w; overlappingPairCache w; dispatcher w;
    collisionConfiguration w; ghostCallback w; debugRenderer w ].

(** [delete world]: [~dynworld], then the storage of the world. *)
Definition dynworld_destroy (world : ptr) : M unit :=
  match world with
  | None => mret tt
  | Some a => w ← load_world world; for_each delete_ptr (owned w);; free a
  end.

(** ** The entry points of bulletc.hpp, as the host calls them *)

Inductive call :=
| Call_dynworld_create (g : btScalar)
| Call_dynworld_destroy (world : ptr)
| Call_dynworld_step (world : ptr) (elapsed_seconds fixed_rate : btScalar)
                     (effects : list engine_effect)
| Call_dynworld_step_render_only (world : ptr) (elapsed_seconds : btScalar)
                                 (effects : list engine_effect)
| Call_dynworld_set_debug_drawer (world : ptr) (f : fn_draw_line)
| Call_dynworld_debug_draw (world : ptr) (blob : ptr)
| Call_slab_collider_update (world prev : ptr) (slab_pos : btVector3)
    (vertices_in : list btScalar) (vertices_count : nat)
    (indices_in : list Z) (indices_count : nat)
| Call_entity_collider_create (world : ptr) (center half_extents : btVector3)
    (friction linear_damping : btScalar) (add_jump_sensor : bool)
| Call_entity_collider_get (world collider : ptr) (outs : get_outputs)
| Call_entity_collider_get_pos (collider : ptr) (pos : btVector3)
| Call_entity_collider_set (collider : ptr) (pos : btVector3) (rot : btScalar)
    (vel : btVector3) (jump_force : btScalar).

Definition exec (c : call) : M unit :=
  match c with
  | Call_dynworld_create g => dynworld_create g;; mret tt
  | Call_dynworld_destroy w => dynworld_destroy w
  | Call_dynworld_step w e f effects => dynworld_step w e f effects
  | Call_dynworld_step_render_only w e effects => dynworld_step_render_only w e effects
  | Call_dynworld_set_debug_drawer w f => dynworld_set_debug_drawer w f
  | Call_dynworld_debug_draw w b => dynworld_debug_draw w b
  | Call_slab_collider_update w p pos vs vn ixs ixn =>
      slab_collider_update w p pos vs vn ixs ixn;; mret tt
  | Call_entity_collider_create w c h f d j => entity_collider_create w c h f d j;; mret tt
  | Call_entity_collider_get w c o => entity_collider_get w c o;; mret tt
  | Call_entity_collider_get_pos c p => entity_collider_get_pos c p;; mret tt
  | Call_entity_collider_set c p r v j => entity_collider_set c p r v j;; mret tt
  end.

(** The empty store a process starts with. *)
Definition initial_state : state := mkState ∅ 0%nat [].

(** A history: the calls the host made so far, none of which faulted. *)
Definition run (calls : list call) : M unit := for_each exec calls.

Definition reachable (s : state) : Prop :=
  exists calls, run calls initial_state = Ok (tt, s).

End Bridge.

(** ** The jump action of the later interface ([bulletc.hpp] of the game
    crate): declared there, with no implementation in these sources. *)

Inductive entity_jump_action :=
| NOPE                 (** jumping is out of the question *)
| UNCONDITIONAL        (** jump right now *)
| IF_SENSOR_OCCLUDED.  (** jump only if the jump sensor is occluded *)

(** The gate in the words of the specification: the impulse is added for
    the unconditional action, and for the conditional one when the most
    recent poll reported no occlusion. *)
Definition spec_jump_gate (a : entity_jump_action) (last_poll_occluded : bool) : bool :=
  match a with
  | NOPE => false
  | UNCONDITIONAL => true
  | IF_SENSOR_OCCLUDED => negb last_poll_occluded
  end.

(** The force of the last [applyCentralForce] of a trace. *)
Definition submitted_force (tr : list event) : option btVector3 :=
  match last tr with
  | Some (EvApplyCentralForce _ f) => Some f
  | _ => None
  end.

(** ** A Bullet to run the bridge against

    Rotations are left at the identity, a box keeps Bullet's default margin
    of 0.04, every slab body overlapping a sensor touches it in one point,
    and the debug traversal draws one line per registered object. *)

#[program] Definition flat_world : Bullet := {|
  axisAngleBasis := fun _ _ => mat_identity;
  quatRotateBasis := mat_vec;
  getHalfExtentsWithoutMargin := fun b => vsub (box_halfExtents b) (mkVec (single 0.04) (single 0.04) (single 0.04));
  contactPoints := fun _ _ o => match o with RigidBodyAt _ => 1%nat | _ => 0%nat end;
  debugLines := fun _ l => map (fun _ => (vzero, UP, FWD)) l
|}.


(** A sensor with its occlusion word replaced. *)
Definition with_occluded (s : entity_jump_sensor) (z : Z) : entity_jump_sensor :=
  mkSensor z (sensor_body s) (sensor_shape s).

(** Whether a contact test of the sensor against [o] reports a point. *)
Definition touches `{B : Bullet} (h : gmap addr cell) (sensor : addr) (o : objref) : bool :=
  (0 <? contactPoints h (SensorBodyOf sensor) o)%nat.

(** The collider behind a handle is live, and so is its sensor if it has
    one. *)
Definition live_collider (s : state) (collider : ptr) : Prop :=
  exists a c, collider = Some a /\ heap s !! a = Some (CEntity c) /\
    match jump_sensor c with
    | Some sa => exists sn, heap s !! sa = Some (CSensor sn)
    | None => True
    end.

Definition live_world (s : state) (world : ptr) : Prop :=
  exists a w, world = Some a /\ heap s !! a = Some (CWorld w).

(** The transform [entity_collider_set] writes to the body, and the force
    it hands to [applyCentralForce]. *)
Definition set_transform `{B : Bullet} (c : entity_collider) (pos : btVector3) (rot : btScalar)
  : btTransform :=
  setBasis (setOrigin (rb_worldTransform (collider_body c)) (mkVec (vx pos) (vy pos) (vz pos)))
           (axisAngleBasis UP rot).

Definition set_force (vel : btVector3) (jump_force : btScalar) : btVector3 :=
  mkVec (vx vel) (vy vel) (fadd (vz vel) jump_force).

(** The entity after [body.setWorldTransform] and after
    [body.applyCentralForce]. *)
Definition entity_moved (c : entity_collider) (t : btTransform) : entity_collider :=
  mkEntity (set_rb_worldTransform (collider_body c) t) (body_shape c) (half_dims c)
           (jump_sensor c).

Definition entity_pushed (c : entity_collider) (f : btVector3) : entity_collider :=
  mkEntity (set_rb_totalForce (collider_body c) (vadd (rb_totalForce (collider_body c)) f))
           (body_shape c) (half_dims c) (jump_sensor c).

(** Where the sensor of [c], if it has a live one, is put for a body at
    [t]. *)
Definition sensor_target `{B : Bullet} (h : gmap addr cell) (c : entity_collider)
    (t : btTransform) : option (addr * btTransform) :=
  match jump_sensor c with
  | Some sa =>
      match h !! sa with
      | Some (CSensor sn) =>
          Some (sa, transform_mul t (jump_sensor_offset (sensor_shape sn) (half_dims c)))
      | _ => None
      end
  | None => None
  end.

(** The height of a sensor's box: twice its vertical half extent. *)
Definition sensor_height (s : entity_jump_sensor) : btScalar :=
  fmul 2 (vget (box_halfExtents (sensor_shape s)) UP_DIM).

(** ** A small scene

    A world with one quad slab, an entity with a jump sensor and one
    without; a step has reported the slab as overlapping the sensor.
    Addresses: the world at 0 and its objects of Bullet at 1 to 6, the slab
    at 9 with its body at 12, the first entity at 14 with its sensor at 15,
    the second entity at 17. *)

Definition quad_vertices : list btScalar :=
  map Fin [0; 0; 0; 1; 0; 0; 1; 1; 0; 0; 1; 0].
Definition quad_indices : list Z := [0; 1; 2; 0; 2; 3]%Z.

Definition scene_calls : list call :=
  [ Call_dynworld_create (single (-9.8));
    Call_slab_collider_update (Some 0%nat) None vzero quad_vertices 4%nat quad_indices 6%nat;
    Call_entity_collider_create (Some 0%nat) (mkVec 0 0 10) (mkVec 0.5 0.5 1)
                                (single 0.2) (single 0.8) true;
    Call_entity_collider_create (Some 0%nat) (mkVec 5 0 10) (mkVec 0.5 0.5 1)
                                (single 0.2) (single 0.8) false ].

Definition scene_step : call :=
  Call_dynworld_step (Some 0%nat) (single (1 # 60)) (single (1 # 60))
                     [GhostOverlaps 15%nat [RigidBodyAt 12%nat]].

Definition state_after `{B : Bullet} (calls : list call) : state :=
  match run calls initial_state with
  | Ok (_, s) => s
  | Fault _ => initial_state
  end.

(** The scene before and after the step, in [flat_world]. *)
Definition scene_clear : state :=
  Eval vm_compute in state_after (B := flat_world) scene_calls.

Definition scene_occluded : state :=
  Eval vm_compute in state_after (B := flat_world) (scene_calls ++ [scene_step]).

(** The first entity of the scene. *)
Definition scene_entity : entity_collider :=
  Eval vm_compute in
  match heap scene_clear !! 14%nat with
  | Some (CEntity c) => c
  | _ => mkEntity (new_btRigidBody (constructionInfo 0 None)) None vzero None
  end.

(** The buffers a caller hands to [entity_collider_get]. *)
Definition blank_outputs : get_outputs := mkOutputs vzero (Fin 0, Fin 0) false.

(** C1 in the words of the specification, read on the interface of the
    sources, where the caller passes a [jump_force]: some value [enc a] of
    that argument stands for each jump action [a], and after a poll that
    reported [occ] a call with [enc a] adds the fixed impulse [J] to the up
    component of the submitted force exactly when the gate is open, and
    submits the up component as it is otherwise. *)
Definition jump_gated_as_claimed `{B : Bullet}
    (enc : entity_jump_action -> btScalar) (J : btScalar) : Prop :=
  forall (s s1 s2 : state) (world : ptr) (ca : addr) (c : entity_collider)
         (outs outs' : get_outputs) (pos : btVector3) (rot : btScalar)
         (vel f : btVector3) (a : entity_jump_action),
    heap s !! ca = Some (CEntity c) -> has_jump_sensor c = true ->
    entity_collider_get world (Some ca) outs s = Ok ((0%Z, outs'), s1) ->
    entity_collider_set (Some ca) pos rot vel (enc a) s1 = Ok (0%Z, s2) ->
    submitted_force (trace s2) = Some f ->
    feq (vz f)
        (if spec_jump_gate a (out_jump_sensor_occluded outs') then fadd (vz vel) J
         else vz vel).

(** The sensor of the scene's first entity. *)
Definition scene_sensor : entity_jump_sensor :=
  Eval vm_compute in
  match heap scene_clear !! 15%nat with
  | Some (CSensor sn) => sn
  | _ => new_entity_jump_sensor vzero
  end.

(** ** Invariants of the store *)

(** A registration is filed as the bridge files it: slab bodies in the
    world group, entity bodies in the entity group, sensors in the sensor
    group, each with the mask of [common.hpp]. *)
Definition filed_by_kind (r : registration) : Prop :=
  match reg_obj r with
  | RigidBodyAt _ => reg_group r = COL_WORLD /\ reg_mask r = COLMASK_WORLD
  | EntityBodyOf _ => reg_group r = COL_ENTITIES /\ reg_mask r = COLMASK_ENTITY
  | SensorBodyOf _ =>
      reg_group r = COL_ENTITY_JUMP_SENSOR /\ reg_mask r = COLMASK_ENTITY_JUMP_SENSOR
  end.

(** What holds of every cell between two calls: the objects of a world are
    filed by kind, and the occlusion word of a sensor is zero. *)
Definition good_cell (c : cell) : Prop :=
  match c with
  | CWorld w => Forall filed_by_kind (collisionObjects (dynamicsWorld w))
  | CSensor s => occluded s = 0%Z
  | _ => True
  end.

Definition cellwise (good : cell -> Prop) (s : state) : Prop :=
  forall a c, heap s !! a = Some c -> good c.

(** Partial correctness of a computation of the bridge. *)
Definition hoare {A} (P : state -> Prop) (m : M A) (Q : A -> state -> Prop) : Prop :=
  forall s, P s -> match m s with Ok (a, s') => Q a s' | Fault _ => True end.

(** [m] keeps every cell good, and its result satisfies [phi]. *)
Definition keeps {A} (m : M A) (phi : A -> Prop) : Prop :=
  hoare (cellwise good_cell) m (fun a s => cellwise good_cell s /\ phi a).

(** The world cell of the scene, and the sensor after the step. *)
Definition scene_world : dynworld :=
  Eval vm_compute in
  match heap scene_clear !! 0%nat with
  | Some (CWorld w) => w
  | _ => dynworld_raw
  end.

Definition scene_sensor_overlapping : entity_jump_sensor :=
  Eval vm_compute in
  match heap scene_occluded !! 15%nat with
  | Some (CSensor sn) => sn
  | _ => new_entity_jump_sensor vzero
  end.

(** ** Slabs in a world *)

(** The slab bodies registered in a world: its registrations in the world
    group. *)
Definition slab_bodies (w : dynworld) : list registration :=
  filter (fun r => reg_group r = COL_WORLD) (collisionObjects (dynamicsWorld w)).

Definition registered_slabs (s : state) (world : addr) : nat :=
  match heap s !! world with
  | Some (CWorld w) => length (slab_bodies w)
  | _ => 0%nat
  end.

(** The arguments of one [slab_collider_update] besides the handles. *)
Record mesh_input := mkMeshInput {
  in_slab_pos : btVector3;
  in_vertices : list btScalar;
  in_vertices_count : nat;
  in_indices : list Z;
  in_indices_count : nat
}.

(** The buffers hold what the counts announce. *)
Definition mesh_ok (x : mesh_input) : Prop :=
  (in_vertices_count x * 3 <= length (in_vertices x))%nat /\
  (in_indices_count x <= length (in_indices x))%nat.

Definition slab_update (world prev : ptr) (x : mesh_input) : M ptr :=
  slab_collider_update world prev (in_slab_pos x) (in_vertices x) (in_vertices_count x)
                       (in_indices x) (in_indices_count x).

(** The host replacing the slab of a world again and again: each call is
    given the handle the previous one returned. *)
Fixpoint slab_chain (world prev : ptr) (inputs : list mesh_input) : M ptr :=
  match inputs with
  | [] => mret prev
  | x :: rest => p ← slab_update world prev x; slab_chain world p rest
  end.

(** The pieces a slab handle owns. *)
Record slab_parts := mkParts {
  part_body : addr;
  part_mesh : addr;
  part_shape : addr;
  part_vertices : addr;
  part_indices : addr
}.

(** [p] is a slab of the world at [wa]: the structure and the five objects
    it owns are live, and its body is registered in the world, once, as a
    world body. *)
Definition live_slab (s : state) (wa p : addr) (q : slab_parts) : Prop :=
  exists rb ms msh vs ixs w,
    heap s !! p = Some (CSlab (mkSlab (Some (part_body q)) (Some (part_mesh q))
                                      (Some (part_shape q)) (Some (part_vertices q))
                                      (Some (part_indices q)))) /\
    heap s !! part_body q = Some (CRigidBody rb) /\
    heap s !! part_mesh q = Some (CMesh ms) /\
    heap s !! part_shape q = Some (CMeshShape msh) /\
    heap s !! part_vertices q = Some (CFloats vs) /\
    heap s !! part_indices q = Some (CIndices ixs) /\
    heap s !! wa = Some (CWorld w) /\
    filter (fun r => reg_obj r = RigidBodyAt (part_body q)) (collisionObjects (dynamicsWorld w))
    = [mkReg (RigidBodyAt (part_body q)) COL_WORLD COLMASK_WORLD].

(** Nothing of a slab is left in the store or in the world. *)
Definition slab_gone (s : state) (wa p : addr) (q : slab_parts) : Prop :=
  heap s !! p = None /\ heap s !! part_body q = None /\ heap s !! part_mesh q = None /\
  heap s !! part_shape q = None /\ heap s !! part_vertices q = None /\
  heap s !! part_indices q = None /\
  forall w, heap s !! wa = Some (CWorld w) ->
            forall r, r ∈ collisionObjects (dynamicsWorld w) ->
                      reg_obj r <> RigidBodyAt (part_body q).

(** Every live address is below [k]. *)
Definition heap_below (h : gmap addr cell) (k : addr) : Prop :=
  forall a c, h !! a = Some c -> (a < k)%nat.

(** The allocator has handed out every live address and every address a
    world knows of, and [wa] is a world. *)
Definition world_ok (s : state) (wa : addr) : Prop :=
  heap_below (heap s) (next s) /\
  exists w, heap s !! wa = Some (CWorld w) /\
    forall r b, r ∈ collisionObjects (dynamicsWorld w) -> reg_obj r = RigidBodyAt b ->
                (b < next s)%nat.

(** The slab bodies a world cell knows of lie below [k]. *)
Definition regs_below (k : addr) (c : cell) : Prop :=
  match c with
  | CWorld w =>
      forall r b, r ∈ collisionObjects (dynamicsWorld w) -> reg_obj r = RigidBodyAt b ->
                  (b < k)%nat
  | _ => True
  end.

(** The allocator is ahead of the store and of every world in it. *)
Definition store_ok (s : state) : Prop :=
  heap_below (heap s) (next s) /\
  forall a c, heap s !! a = Some c -> regs_below (next s) c.

(** [m], started with the allocator at [k] or beyond, keeps the store in
    order and only moves the allocator forward; [phi] holds of its result
    and of where the allocator then stands. *)
Definition tracks {A} (k : addr) (m : M A) (phi : A -> addr -> Prop) : Prop :=
  forall s, store_ok s -> (k <= next s)%nat ->
    match m s with
    | Ok (a, s') => store_ok s' /\ (next s <= next s')%nat /\ phi a (next s')
    | Fault _ => True
    end.

(** C5 in the words of the specification: whatever slab updates the host
    makes on a world, with whatever previous handles, at most one slab body
    is registered afterwards. *)
Definition at_most_one_slab_always `{B : Bullet} : Prop :=
  forall (g : btScalar) (updates : list (ptr * mesh_input)) (s : state),
    run (Call_dynworld_create g
         :: map (fun u => Call_slab_collider_update (Some 0%nat) (fst u)
                            (in_slab_pos (snd u)) (in_vertices (snd u))
                            (in_vertices_count (snd u)) (in_indices (snd u))
                            (in_indices_count (snd u)))
                updates)
        initial_state = Ok (tt, s) ->
    (registered_slabs s 0 <= 1)%nat.

(** The quad of the scene as an update. *)
Definition quad : mesh_input := mkMeshInput vzero quad_vertices 4%nat quad_indices 6%nat.

(** The pieces of the scene's slab. *)
Definition scene_slab_parts : slab_parts := mkParts 12 10 11 7 8.

(** ** Further vocabulary for the debug drawer *)

(** The renderer of a world is either absent or live (not a pointer left
    behind by a removal). *)
Definition renderer_sound (s : state) (w : dynworld) : Prop :=
  match debugRenderer w with
  | None => True
  | Some d => exists r, heap s !! d = Some (CDebugRenderer r)
  end.

(** The store after the deletion of the objects at [l]. *)
Definition without (l : list addr) (h : gmap addr cell) : gmap addr cell :=
  foldl (fun h a => delete a h) h l.

(** The objects a world owns are live, and no two of them, nor one of them
    and the world, are the same object. *)
Definition owns_live (s : state) (wa : addr) (w : dynworld) : Prop :=
  NoDup (wa :: omap id (owned w)) /\
  forall a, a ∈ omap id (owned w) -> is_Some (heap s !! a).

(** What a call that adds objects to a Bullet world, removes them from it
    or deletes the world leaves of a cell: the cell as it was, but for a
    sensor, whose list of overlapping objects the broadphase may rewrite on
    such calls. *)
Definition kept (c c' : cell) : Prop :=
  match c with
  | CSensor sn =>
      exists overlapping,
        c' = CSensor (mkSensor (occluded sn)
                               (mkGhost (gh_worldTransform (sensor_body sn))
                                        (gh_collisionFlags (sensor_body sn)) overlapping)
                               (sensor_shape sn))
  | _ => c' = c
  end.

(** The call into the host for one line of the traversal. *)
Definition line_event (f : fn_draw_line) (blob : ptr)
    (l : btVector3 * btVector3 * btVector3) : event :=
  EvDrawLine f blob l.1.1 l.1.2 l.2.

(** ** Further vocabulary for entities *)

(** The sensor of [c], if it has one, is live. *)
Definition sensor_live (h : gmap addr cell) (c : entity_collider) : Prop :=
  forall sa, jump_sensor c = Some sa -> exists sn, h !! sa = Some (CSensor sn).

(** The objects the broadphase lists as overlapping the sensor of [c]. *)
Definition sensor_overlaps (h : gmap addr cell) (c : entity_collider) : list objref :=
  match jump_sensor c with
  | Some sa =>
      match h !! sa with
      | Some (CSensor sn) => gh_overlappingObjects (sensor_body sn)
      | _ => []
      end
  | None => []
  end.

(** The contact tests a poll of the sensor of [c] runs. *)
Definition sensor_tests (h : gmap addr cell) (c : entity_collider) : list event :=
  match jump_sensor c with
  | Some sa => map (EvContactPairTest (SensorBodyOf sa)) (sensor_overlaps h c)
  | None => []
  end.

(** The position [entity_collider_get] and [entity_collider_get_pos] read,
    and the heading [entity_collider_get] reads. *)
Definition read_position (c : entity_collider) : btVector3 :=
  origin (rb_interpolationWorldTransform (collider_body c)).

Definition read_heading `{B : Bullet} (c : entity_collider) : btScalar * btScalar :=
  let rotation := quatRotateBasis (basis (rb_interpolationWorldTransform (collider_body c))) FWD in
  (vx rotation, vy rotation).

(** ** Further vocabulary for slabs *)

(** The addresses a slab handle owns, the structure itself first. *)
Definition slab_cells (p : addr) (q : slab_parts) : list addr :=
  [p; part_body q; part_mesh q; part_shape q; part_vertices q; part_indices q].

(** The body [slab_collider_update] creates for a slab at [slab_pos], with
    the collision shape at [sh]. *)
Definition slab_rigid_body (slab_pos : btVector3) (sh : addr) : btRigidBody :=
  let desc := constructionInfo 0.0 (Some sh) in
  let desc := mkInfo (m_mass desc) (m_collisionShape desc) 0.5 (m_linearDamping desc)
                (setOrigin (m_startWorldTransform desc)
                   (mkVec (vx slab_pos) (vy slab_pos) (minus_literal (vz slab_pos) 0.5))) in
  set_rb_userPointer (new_btRigidBody desc) 500.

(** ** Further vocabulary for the collision filter *)

(** A registration of a slab body. *)
Definition is_world_body (r : registration) : bool :=
  match reg_obj r with RigidBodyAt _ => true | _ => false end.

(** ** The scene with a drawer installed: the renderer is at 18 *)

Definition scene_drawer : state :=
  Eval vm_compute in
  state_after (B := flat_world)
    (scene_calls ++ [Call_dynworld_set_debug_drawer (Some 0%nat) (Some 7%nat)]).

Definition scene_drawer_world : dynworld :=
  Eval vm_compute in
  match heap scene_drawer !! 0%nat with
  | Some (CWorld w) => w
  | _ => dynworld_raw
  end.

Definition scene_renderer : DebugRenderer :=
  Eval vm_compute in
  match heap scene_drawer !! 18%nat with
  | Some (CDebugRenderer r) => r
  | _ => mkRenderer None None 0
  end.

(** * bulletc.cpp: the bridge before it was split up

    The first version of the bridge is one file.  Its worlds, slabs and
    debug drawer are those of dynworld.cpp above, but for the two collision
    groups and their masks; its entities differ: a collider is a pointer to
    a body of its own allocation, without a sensor, and
    [entity_collider_get] and [entity_collider_set] look at that pointer as
    well as at the handle. *)

Module Legacy.

Definition COL_WORLD : Z := Z.shiftl 1 0.
Definition COL_ENTITIES : Z := Z.shiftl 1 1.

(** [struct entity_collider] *)
Record entity_collider := mkCollider { body : ptr }.

Inductive cell :=
| CWorld (w : dynworld)
| CBoxShape (s : btBoxShape)
| CRigidBody (b : btRigidBody)
| CCollider (c : entity_collider).

Record state := mkState { heap : gmap addr cell; next : addr }.

Definition M (A : Type) : Type := state -> result (A * state).

(** [v * m]: the vector of the dot products of [v] with the columns of
    [m]. *)
Definition vec_mat (v : btVector3) (m : btMatrix3x3) : btVector3 :=
  mkVec (vdot (mat_col m 0) v) (vdot (mat_col m 1) v) (vdot (mat_col m 2) v).

(** [btRigidBody::setCenterOfMassTransform] on a body that is not
    kinematic (no body of this file is): the interpolation transform
    follows the world transform. *)
Definition setCenterOfMassTransform (r : btRigidBody) (t : btTransform) : btRigidBody :=
  mkRigidBody (rb_mass r) (rb_collisionShape r) (rb_friction r) (rb_linearDamping r)
              t t (rb_angularFactor r) (rb_totalForce r) (rb_userPointer r).

Definition entity_collider_create (world : ptr) (center half_extents : btVector3)
  : M ptr :=
  fun s =>
    let dims := mkVec (vx half_extents) (vy half_extents) (vz half_extents) in
    let pos := mkVec (vx center) (vy center) (vz center) in
    let shape := next s in
    let h := <[shape := CBoxShape (mkBox dims)]> (heap s) in
    let desc := constructionInfo 2.0 (Some shape) in
    let desc := mkInfo (m_mass desc) (m_collisionShape desc) (single 0.2) (single 0.8)
                       (setOrigin (m_startWorldTransform desc) pos) in
    let rb := S shape in
    (* only rotate in z axis *)
    let h := <[rb := CRigidBody (set_rb_angularFactor (new_btRigidBody desc)
                                                      (mkVec 0.0 0.0 1.0))]> h in
    (* add to world *)
    match world with
    | None => Fault NullPointer
    | Some wa =>
        match h !! wa with
        | Some (CWorld w) =>
            let h := <[wa := CWorld (set_collisionObjects w
                        (collisionObjects (dynamicsWorld w)
                         ++ [mkReg (RigidBodyAt rb) COL_ENTITIES COL_WORLD]))]> h in
            let collider := S rb in
            Ok (Some collider,
                mkState (<[collider := CCollider (mkCollider (Some rb))]> h) (S collider))
        | _ => Fault InvalidPointer
        end
    end.

Definition entity_collider_get (collider : ptr) (pos rot : btVector3)
  : M (Z * btVector3 * btVector3) :=
  fun s =>
    match collider with
    | None => Ok (((-1)%Z, pos, rot), s)
    | Some a =>
        match heap s !! a with
        | Some (CCollider c) =>
            match body c with
            | None => Ok (((-1)%Z, pos, rot), s)
            | Some b =>
                match heap s !! b with
                | Some (CRigidBody rb) =>
                    let transform := rb_interpolationWorldTransform rb in
                    let position := origin transform in
                    let fwd := mkVec 0.0 1.0 0.0 in (* y = forwards *)
                    let rotation := vec_mat fwd (basis transform) in
                    Ok ((0%Z, mkVec (vx position) (vy position) (vz position),
                         mkVec (vx rotation) (vy rotation) (vz rotation)), s)
                | _ => Fault InvalidPointer
                end
            end
        | _ => Fault InvalidPointer
        end
    end.

(** The quaternion the function computes from [rot] is not used: the call
    that would set it is commented out. *)
Definition entity_collider_set (collider : ptr) (pos rot vel : btVector3) : M Z :=
  fun s =>
    match collider with
    | None => Ok ((-1)%Z, s)
    | Some a =>
        match heap s !! a with
        | Some (CCollider c) =>
            match body c with
            | None => Ok ((-1)%Z, s)
            | Some b =>
                match heap s !! b with
                | Some (CRigidBody rb) =>
                    let transform := rb_worldTransform rb in
                    let new_pos := mkVec (vx pos) (vy pos) (vz pos) in
                    let transform := setOrigin transform new_pos in
                    (* transform.setRotation(new_rot) *)
                    let rb := setCenterOfMassTransform rb transform in
                    let new_vel := mkVec (vx vel) (vy vel) (vz vel) in
                    let rb := set_rb_totalForce rb (vadd (rb_totalForce rb) new_vel) in
                    Ok (0%Z, mkState (<[b := CRigidBody rb]> (heap s)) (next s))
                | _ => Fault InvalidPointer
                end
            end
        | _ => Fault InvalidPointer
        end
    end.

(** A collider whose handle and body are both live. *)
Definition live (s : state) (a b : addr) (rb : btRigidBody) : Prop :=
  heap s !! a = Some (CCollider (mkCollider (Some b))) /\
  heap s !! b = Some (CRigidBody rb).

(** A new world, and the world with one collider in it: the box at 6, the
    body at 7, the collider at 8.  The world of this version has no
    ghost-pair callback.  Its objects of Bullet, at 1 to 5, are not read by
    the functions of this module and are not in its store. *)
Definition new_world : dynworld :=
  mkWorld (Some 1%nat) (Some 2%nat) (Some 3%nat) (Some 4%nat) (Some 5%nat)
          (mkDynamics [] (mkVec 0 0 (single (-9.8))) None) None None.

Definition world_only : state := mkState {[ 0%nat := CWorld new_world ]} 6%nat.

Definition scene : state :=
  match entity_collider_create (Some 0%nat) (mkVec 0 0 10) (mkVec 0.5 0.5 1) world_only with
  | Ok (_, s) => s
  | Fault _ => world_only
  end.

Definition scene_body : btRigidBody :=
  match heap scene !! 7%nat with
  | Some (CRigidBody rb) => rb
  | _ => new_btRigidBody (constructionInfo 0 None)
  end.

End Legacy.
(** * Rounding

    The facts about [round] the bridge's arithmetic is reasoned with. *)


Lemma pow2_pos k : 0 < pow2 k.
Proof. apply Qpower_0_lt. reflexivity. Qed.

Lemma pow2_add a b : pow2 (a + b) == pow2 a * pow2 b.
Proof. apply Qpower_plus. discriminate. Qed.

Lemma pow2_le a b : (a <= b)%Z -> pow2 a <= pow2 b.
Proof. intros H. apply Qpower_le_compat_l; [exact H|discriminate]. Qed.

Lemma pow2_lt a b : (a < b)%Z -> pow2 a < pow2 b.
Proof. intros H. apply Qpower_lt_compat_l; [exact H|reflexivity]. Qed.

Lemma pow2_Z a : (0 <= a)%Z -> pow2 a == inject_Z (2 ^ a).
Proof. intros H. unfold pow2. rewrite Zpower_Qpower by exact H. reflexivity. Qed.

Lemma pow2_cancel a : pow2 a * pow2 (- a) == 1.
Proof. rewrite <- pow2_add. replace (a + - a)%Z with 0%Z by lia. reflexivity. Qed.

(** The binary exponent of a positive rational. *)
Lemma ilog2_spec a : 0 < a -> pow2 (ilog2 a) <= a /\ a < pow2 (ilog2 a + 1).
Proof.
  intros Ha. destruct a as [n d]. unfold ilog2. cbn [Qnum Qden].
  assert (Hn : (0 < n)%Z) by (unfold Qlt in Ha; cbn in Ha; lia).
  set (ln := Z.log2 n). set (ld := Z.log2 (Z.pos d)).
  destruct (Z.log2_spec n Hn) as [Hn1 Hn2]. fold ln in Hn1, Hn2.
  destruct (Z.log2_spec (Z.pos d) eq_refl) as [Hd1 Hd2]. fold ld in Hd1, Hd2.
  assert (Hln : (0 <= ln)%Z) by apply Z.log2_nonneg.
  assert (Hld : (0 <= ld)%Z) by apply Z.log2_nonneg.
  clearbody ln ld. rewrite <- Z.add_1_r in Hn2, Hd2.
  assert (Hup : n # d < pow2 (ln - ld + 1)).
  { apply (Qmult_lt_r _ _ (pow2 ld) (pow2_pos ld)).
    rewrite <- pow2_add. replace (ln - ld + 1 + ld)%Z with (ln + 1)%Z by lia.
    apply Qle_lt_trans with (inject_Z n).
    - rewrite pow2_Z by exact Hld. unfold Qle, Qmult, inject_Z. cbn [Qnum Qden].
      rewrite !Z.mul_1_r, Pos.mul_1_r. apply Z.mul_le_mono_nonneg_l; lia.
    - rewrite pow2_Z by lia. rewrite <- Zlt_Qlt. exact Hn2. }
  assert (Hlow : pow2 (ln - ld - 1) < n # d).
  { apply (Qmult_lt_r _ _ (pow2 (ld + 1)) (pow2_pos _)).
    rewrite <- pow2_add. replace (ln - ld - 1 + (ld + 1))%Z with ln by lia.
    apply Qle_lt_trans with (inject_Z n).
    - rewrite pow2_Z by exact Hln. rewrite <- Zle_Qle. exact Hn1.
    - rewrite pow2_Z by lia. unfold Qlt, Qmult, inject_Z. cbn [Qnum Qden].
      rewrite !Z.mul_1_r, Pos.mul_1_r. apply Z.mul_lt_mono_pos_l; lia. }
  destruct (Qle_bool (pow2 (ln - ld)) (n # d)) eqn:E.
  - split; [apply Qle_bool_iff, E|exact Hup].
  - split.
    + apply Qlt_le_weak. exact Hlow.
    + replace (ln - ld - 1 + 1)%Z with (ln - ld)%Z by lia.
      apply Qnot_le_lt. intros H. apply Qle_bool_iff in H. congruence.
Qed.

Lemma ilog2_unique a k : pow2 k <= a -> a < pow2 (k + 1) -> ilog2 a = k.
Proof.
  intros H1 H2.
  assert (Ha : 0 < a) by (eapply Qlt_le_trans; [apply pow2_pos|exact H1]).
  destruct (ilog2_spec a Ha) as [H3 H4].
  destruct (Z.lt_trichotomy (ilog2 a) k) as [H|[H|H]]; [|exact H|]; exfalso.
  - assert (pow2 (ilog2 a + 1) <= pow2 k) by (apply pow2_le; lia).
    apply (Qlt_irrefl a). eapply Qlt_le_trans; [exact H4|]. eapply Qle_trans; eassumption.
  - assert (pow2 (k + 1) <= pow2 (ilog2 a)) by (apply pow2_le; lia).
    apply (Qlt_irrefl a). eapply Qlt_le_trans; [exact H2|]. eapply Qle_trans; eassumption.
Qed.

Lemma ilog2_proper a b : 0 < a -> a == b -> ilog2 a = ilog2 b.
Proof.
  intros Ha Hab. symmetry. destruct (ilog2_spec a Ha) as [H1 H2].
  apply ilog2_unique; rewrite <- Hab; assumption.
Qed.

(** Rounding to the nearest integer, ties to even. *)
Lemma rne_proper a b : a == b -> rne a = rne b.
Proof.
  intros H. unfold rne. rewrite (Qfloor_comp a b H).
  assert (E : a - inject_Z (Qfloor b) == b - inject_Z (Qfloor b)) by (rewrite H; reflexivity).
  rewrite (Qcompare_comp _ _ E (1 # 2) (1 # 2) (Qeq_refl _)). reflexivity.
Qed.

Lemma rne_Z m : rne (inject_Z m) = m.
Proof.
  unfold rne. rewrite Qfloor_Z.
  assert (E : inject_Z m - inject_Z m == 0) by ring.
  rewrite (Qcompare_comp _ _ E (1 # 2) (1 # 2) (Qeq_refl _)). reflexivity.
Qed.

Lemma rne_nonneg a : 0 <= a -> (0 <= rne a)%Z.
Proof.
  intros H. assert (0 <= Qfloor a)%Z by (apply (Qfloor_resp_le 0 a H)).
  unfold rne. destruct (Qcompare _ _); [destruct (Z.even _)| |]; lia.
Qed.

Lemma rne_below a N : a < inject_Z N -> (rne a <= N)%Z.
Proof.
  intros H.
  assert (Qfloor a < N)%Z.
  { rewrite Zlt_Qlt. eapply Qle_lt_trans; [apply Qfloor_le|exact H]. }
  unfold rne. destruct (Qcompare _ _); [destruct (Z.even _)| |]; lia.
Qed.

(** ** Rounding *)

Lemma Qred_idem q : Qred (Qred q) = Qred q.
Proof. apply Qred_complete, Qred_correct. Qed.

Lemma round_proper f a b : a == b -> round f a = round f b.
Proof. intros H. unfold round. rewrite (Qred_complete a b H). reflexivity. Qed.

Lemma round_abs_proper f s a b : 0 < a -> a == b -> round_abs f s a = round_abs f s b.
Proof.
  intros Ha H. unfold round_abs. rewrite (ilog2_proper a b Ha H).
  set (ex := Z.max _ _).
  rewrite (rne_proper (a * pow2 (- ex)) (b * pow2 (- ex))) by (rewrite H; reflexivity).
  reflexivity.
Qed.

(** What [round_abs] returns: an integer of at most [precision] bits times
    a power of two not below the least exponent. *)
Lemma round_abs_shape f s a :
  (0 < precision f)%Z -> 0 < a ->
  exists m ex,
    (0 <= m <= 2 ^ precision f)%Z /\ (emin f <= ex)%Z /\
    round_abs f s a
    = if Qle_bool (pow2 (emax f)) (Qred (inject_Z m * pow2 ex)) then Inf s
      else Fin (if s then - Qred (inject_Z m * pow2 ex) else Qred (inject_Z m * pow2 ex)).
Proof.
  intros Hp Ha. unfold round_abs.
  set (ex := Z.max (ilog2 a - precision f + 1) (emin f)).
  exists (rne (a * pow2 (- ex))), ex.
  destruct (ilog2_spec a Ha) as [_ Hup].
  assert (Hpos : 0 <= a * pow2 (- ex)).
  { apply Qmult_le_0_compat; apply Qlt_le_weak; [exact Ha|apply pow2_pos]. }
  split; [split|split; [unfold ex; lia|reflexivity]].
  - apply rne_nonneg, Hpos.
  - apply rne_below. rewrite <- pow2_Z by lia.
    apply Qlt_le_trans with (pow2 (ilog2 a + 1) * pow2 (- ex)).
    + apply Qmult_lt_compat_r; [apply pow2_pos|exact Hup].
    + rewrite <- pow2_add. apply pow2_le. unfold ex. lia.
Qed.

(** Such a number is rounded to itself. *)
Lemma round_abs_fixed f s m ex :
  (0 < precision f)%Z -> (0 < m <= 2 ^ precision f)%Z -> (emin f <= ex)%Z ->
  round_abs f s (Qred (inject_Z m * pow2 ex))
  = if Qle_bool (pow2 (emax f)) (Qred (inject_Z m * pow2 ex)) then Inf s
    else Fin (if s then - Qred (inject_Z m * pow2 ex) else Qred (inject_Z m * pow2 ex)).
Proof.
  intros Hp [Hm1 Hm2] Hex.
  set (r := Qred (inject_Z m * pow2 ex)).
  assert (Hr : r == inject_Z m * pow2 ex) by apply Qred_correct.
  set (k := Z.log2 m).
  destruct (Z.log2_spec m Hm1) as [Hk1 Hk2]. fold k in Hk1, Hk2.
  assert (Hk : (0 <= k)%Z) by apply Z.log2_nonneg.
  clearbody k. rewrite <- Z.add_1_r in Hk2.
  assert (Hkp : (k <= precision f)%Z).
  { destruct (Z_le_gt_dec k (precision f)) as [H|H]; [exact H|exfalso].
    assert (2 ^ (precision f + 1) <= 2 ^ k)%Z by (apply Z.pow_le_mono_r; lia).
    assert (2 ^ precision f < 2 ^ (precision f + 1))%Z by (apply Z.pow_lt_mono_r; lia).
    lia. }
  assert (Hlog : ilog2 r = (k + ex)%Z).
  { apply ilog2_unique; rewrite Hr.
    - rewrite pow2_add. apply Qmult_le_compat_r; [|apply Qlt_le_weak, pow2_pos].
      rewrite pow2_Z by exact Hk. rewrite <- Zle_Qle. exact Hk1.
    - replace (k + ex + 1)%Z with (k + 1 + ex)%Z by lia. rewrite pow2_add.
      apply Qmult_lt_compat_r; [apply pow2_pos|].
      rewrite pow2_Z by lia. rewrite <- Zlt_Qlt. exact Hk2. }
  unfold round_abs. rewrite Hlog.
  set (ex' := Z.max (k + ex - precision f + 1) (emin f)).
  assert (Hint : exists M, r * pow2 (- ex') == inject_Z M).
  { destruct (Z_le_gt_dec ex' ex) as [Hle|Hgt].
    - exists (m * 2 ^ (ex - ex'))%Z. rewrite Hr, inject_Z_mult, <- pow2_Z by lia.
      rewrite <- Qmult_assoc, <- pow2_add. replace (ex + - ex')%Z with (ex - ex')%Z by lia.
      reflexivity.
    - assert (k = precision f) by (unfold ex' in Hgt; lia). subst k.
      assert (ex' = ex + 1)%Z by (unfold ex'; lia).
      assert (m = 2 ^ precision f)%Z by lia. subst m.
      exists (2 ^ (precision f - 1))%Z. rewrite Hr, <- !pow2_Z by lia.
      rewrite <- Qmult_assoc, <- !pow2_add. apply Qpower_comp; [reflexivity|lia]. }
  destruct Hint as [M HM].
  rewrite (rne_proper _ _ HM), rne_Z.
  assert (E : Qred (inject_Z M * pow2 ex') = r).
  { unfold r. apply Qred_complete. rewrite <- HM, Hr.
    rewrite <- !Qmult_assoc, (Qmult_comm (pow2 (- ex'))), pow2_cancel. ring. }
  rewrite E. reflexivity.
Qed.

(** Rounding is idempotent: the values it returns are those it leaves
    alone. *)
Lemma round_idempotent f q r :
  (0 < precision f)%Z -> round f q = Fin r -> round f r = Fin r.
Proof.
  intros Hp. unfold round at 1.
  assert (Hzero : forall x, x == 0 -> Qred x = 0) by (intros x Hx; apply (Qred_complete x 0 Hx)).
  assert (Hfix : forall s m ex, (0 <= m <= 2 ^ precision f)%Z -> (emin f <= ex)%Z ->
            (if Qle_bool (pow2 (emax f)) (Qred (inject_Z m * pow2 ex)) then Inf s
             else Fin (if s then - Qred (inject_Z m * pow2 ex)
                       else Qred (inject_Z m * pow2 ex))) = Fin r ->
            round f r = Fin r).
  { intros s m ex Hm Hex Heq.
    destruct (Qle_bool _ _) eqn:Hov; [discriminate|]. injection Heq as Heq.
    destruct (Z.eq_dec m 0) as [->|Hm0].
    - assert (Hr0 : Qred (inject_Z 0 * pow2 ex) = 0) by (apply Hzero; ring).
      rewrite Hr0 in Heq. destruct s; subst r; reflexivity.
    - assert (Hm' : (0 < m <= 2 ^ precision f)%Z) by lia.
      pose proof (round_abs_fixed f s m ex Hp Hm' Hex) as Hf. rewrite Hov in Hf.
      set (r0 := Qred (inject_Z m * pow2 ex)) in *.
      assert (Hr0 : 0 < r0).
      { unfold r0. rewrite Qred_correct. apply Qmult_lt_0_compat; [|apply pow2_pos].
        unfold Qlt, inject_Z. cbn. lia. }
      assert (Hred : Qred r0 = r0) by apply Qred_idem.
      unfold round. destruct s; subst r.
      + rewrite Qred_opp, Hred.
        assert (Hlt : - r0 < 0).
        { apply (Qplus_lt_l _ _ r0). ring_simplify. exact Hr0. }
        destruct (Qcompare_spec (- r0) 0) as [E|E|E].
        * exfalso. rewrite E in Hlt. exact (Qlt_irrefl _ Hlt).
        * rewrite <- Hf. apply round_abs_proper; [|ring].
          apply (Qplus_lt_l _ _ (- r0)). ring_simplify. exact Hlt.
        * exfalso. exact (Qlt_irrefl _ (Qlt_trans _ _ _ E Hlt)).
      + rewrite Hred. destruct (Qcompare_spec r0 0) as [E|E|E].
        * exfalso. rewrite E in Hr0. exact (Qlt_irrefl _ Hr0).
        * exfalso. exact (Qlt_irrefl _ (Qlt_trans _ _ _ E Hr0)).
        * exact Hf. }
  destruct (Qcompare_spec (Qred q) 0) as [E|E|E].
  - intros [= <-]. reflexivity.
  - assert (Ha : 0 < - Qred q).
    { apply (Qplus_lt_l _ _ (Qred q)). ring_simplify. exact E. }
    destruct (round_abs_shape f true (- Qred q) Hp Ha) as (m & ex & Hm & Hex & ->).
    apply Hfix; assumption.
  - destruct (round_abs_shape f false (Qred q) Hp E) as (m & ex & Hm & Hex & ->).
    apply Hfix; assumption.
Qed.

(** ** Rounding is to a nearest value *)

Lemma rne_near x : - (1 # 2) <= inject_Z (rne x) - x /\ inject_Z (rne x) - x <= 1 # 2.
Proof.
  unfold rne.
  pose proof (Qfloor_le x) as Hlo. pose proof (Qlt_floor x) as Hhi.
  set (fl := Qfloor x) in *.
  assert (Hhi' : x < inject_Z fl + 1).
  { rewrite inject_Z_plus in Hhi. exact Hhi. }
  destruct (Qcompare_spec (x - inject_Z fl) (1 # 2)) as [E|E|E].
  - destruct (Z.even fl).
    + split; lra.
    + rewrite inject_Z_plus. change (inject_Z 1) with 1. split; lra.
  - split; lra.
  - rewrite inject_Z_plus. change (inject_Z 1) with 1. split; lra.
Qed.

Lemma pow2_half k : pow2 (k - 1) == pow2 k * (1 # 2).
Proof.
  replace (k - 1)%Z with (k + -1)%Z by lia. rewrite pow2_add. reflexivity.
Qed.

(** The finite value [round_abs] returns is within half a unit of the last
    place it keeps. *)
Lemma round_abs_near f s a r :
  0 < a -> round_abs f s a = Fin r ->
  Qabs ((if s then - r else r) - a)
  <= pow2 (Z.max (ilog2 a - precision f + 1) (emin f) - 1).
Proof.
  intros Ha. unfold round_abs.
  set (ex := Z.max (ilog2 a - precision f + 1) (emin f)).
  set (m := rne (a * pow2 (- ex))).
  destruct (Qle_bool _ _); [discriminate|]. intros [= <-].
  assert (Hv : (if s then - (if s then - Qred (inject_Z m * pow2 ex)
                             else Qred (inject_Z m * pow2 ex))
                else (if s then - Qred (inject_Z m * pow2 ex)
                      else Qred (inject_Z m * pow2 ex)))
               == inject_Z m * pow2 ex).
  { destruct s; rewrite ?Qopp_involutive; apply Qred_correct. }
  rewrite Hv. clear Hv.
  destruct (rne_near (a * pow2 (- ex))) as [Hlo Hhi]. fold m in Hlo, Hhi.
  pose proof (pow2_pos ex) as Hp.
  assert (Ha' : a == a * pow2 (- ex) * pow2 ex).
  { rewrite <- Qmult_assoc, (Qmult_comm (pow2 (- ex))), pow2_cancel. ring. }
  rewrite pow2_half.
  set (x := a * pow2 (- ex)) in *. set (p := pow2 ex) in *. clearbody x p m.
  rewrite Ha'.
  assert (E : inject_Z m * p - x * p == (inject_Z m - x) * p) by ring.
  rewrite E. clear E.
  apply Qabs_Qle_condition. split.
  - assert (E : - (p * (1 # 2)) == - (1 # 2) * p) by ring. rewrite E.
    apply Qmult_le_compat_r; [exact Hlo|apply Qlt_le_weak, Hp].
  - rewrite (Qmult_comm p).
    apply Qmult_le_compat_r; [exact Hhi|apply Qlt_le_weak, Hp].
Qed.

(** So is the finite value [round] returns: no value of the format, which
    are the multiples of that unit, is nearer. *)
Lemma round_near f q r :
  round f q = Fin r -> ~ q == 0 ->
  Qabs (r - q) <= pow2 (Z.max (ilog2 (Qabs q) - precision f + 1) (emin f) - 1).
Proof.
  unfold round. intros H Hq.
  assert (Hred : Qred q == q) by apply Qred_correct.
  destruct (Qcompare_spec (Qred q) 0) as [E|E|E].
  - exfalso. apply Hq. rewrite <- Hred. exact E.
  - assert (Ha : 0 < - Qred q) by lra.
    pose proof (round_abs_near f true (- Qred q) r Ha H) as Hn. cbv iota in Hn.
    assert (Habs : Qabs q == - Qred q).
    { rewrite Qabs_neg by (rewrite <- Hred; apply Qlt_le_weak, E).
      rewrite Hred. reflexivity. }
    rewrite <- (ilog2_proper (- Qred q) (Qabs q) Ha) by (symmetry; exact Habs).
    assert (E' : r - q == - (- r - - Qred q)) by (rewrite Hred; ring).
    rewrite E', Qabs_opp. exact Hn.
  - pose proof (round_abs_near f false (Qred q) r E H) as Hn. cbv iota in Hn.
    assert (Habs : Qabs q == Qred q).
    { rewrite Qabs_pos by (rewrite <- Hred; apply Qlt_le_weak, E).
      rewrite Hred. reflexivity. }
    rewrite <- (ilog2_proper (Qred q) (Qabs q) E) by (symmetry; exact Habs).
    assert (E' : r - q == r - Qred q) by (rewrite Hred; ring).
    rewrite E'. exact Hn.
Qed.

(** Some values: a tenth in single and in double precision; ties go to the
    even neighbour; the largest float, the midpoint beyond it and what lies
    above; the least subnormal float and half of it. *)
Lemma round_examples :
  feq (round binary32 (1 # 10)) (13421773 # 134217728) /\
  feq (round binary64 (1 # 10)) (3602879701896397 # 36028797018963968) /\
  feq (round binary32 16777217) 16777216 /\
  feq (round binary32 16777219) 16777220 /\
  feq (round binary32 (2 ^ 128 - 2 ^ 103 - 1)) (2 ^ 128 - 2 ^ 104) /\
  round binary32 (2 ^ 128 - 2 ^ 103) = Inf false /\
  round binary32 (- 2 ^ 128) = Inf true /\
  feq (round binary32 (pow2 (-149))) (pow2 (-149)) /\
  feq (round binary32 (pow2 (-150))) 0 /\
  feq (round binary32 (3 * pow2 (-150))) (pow2 (-148)).
Proof. repeat (split; [vm_compute; reflexivity|]). vm_compute. reflexivity. Qed.

(** ** The operators *)

Lemma round_zero f : round f 0 = Fin 0.
Proof. reflexivity. Qed.

Lemma feq_refl x : feq x x.
Proof. destruct x; cbn; reflexivity. Qed.

Lemma feq_sym x y : feq x y -> feq y x.
Proof. destruct x, y; cbn; try tauto; intros H; symmetry; exact H. Qed.

Lemma feq_trans x y z : feq x y -> feq y z -> feq x z.
Proof.
  destruct x, y, z; cbn; try tauto; intros H1 H2.
  - rewrite H1. exact H2.
  - congruence.
Qed.

(** Conversion depends on the value only. *)
Lemma convert_proper f x y : feq x y -> convert f x = convert f y.
Proof.
  destruct x, y; cbn; try tauto.
  - apply round_proper.
  - intros ->. reflexivity.
Qed.

(** A conversion to a format leaves the values of that format alone. *)
Lemma convert_idempotent f x :
  (0 < precision f)%Z -> convert f (convert f x) = convert f x.
Proof.
  intros Hp. destruct x as [q| |]; cbn; try reflexivity.
  destruct (round f q) as [r| |] eqn:E; cbn; try reflexivity.
  exact (round_idempotent f q r Hp E).
Qed.

(** Adding zero is a conversion, and so is multiplying by one. *)
Lemma add_in_0_l f x : add_in f (Fin 0) x = convert f x.
Proof.
  destruct x as [q| |]; cbn; try reflexivity.
  apply round_proper. ring.
Qed.

Lemma add_in_0_r f x : add_in f x (Fin 0) = convert f x.
Proof.
  destruct x as [q| |]; cbn; try reflexivity.
  apply round_proper. ring.
Qed.

Lemma mul_in_1_l f x : mul_in f (Fin 1) x = convert f x.
Proof.
  destruct x as [q|[]|]; try reflexivity.
  cbn. apply round_proper. ring.
Qed.

Lemma mul_in_1_r f x : mul_in f x (Fin 1) = convert f x.
Proof.
  destruct x as [q|[]|]; try reflexivity.
  cbn. apply round_proper. ring.
Qed.

(** Zero times a finite value is zero. *)
Lemma mul_in_0_l f x : finite x -> mul_in f (Fin 0) x = Fin 0.
Proof.
  destruct x as [q| |]; [intros _|intros []|intros []].
  exact (round_proper f (0 * q) 0 ltac:(ring)).
Qed.

Lemma mul_in_0_r f x : finite x -> mul_in f x (Fin 0) = Fin 0.
Proof.
  destruct x as [q| |]; [intros _|intros []|intros []].
  exact (round_proper f (q * 0) 0 ltac:(ring)).
Qed.

(** What an operator returns is a value of its format. *)
Lemma convert_add_in f x y :
  (0 < precision f)%Z -> convert f (add_in f x y) = add_in f x y.
Proof.
  intros Hp. destruct x as [a|s|], y as [b|t|]; cbn; try reflexivity.
  - exact (convert_idempotent f (Fin (a + b)) Hp).
  - destruct (Bool.eqb s t); reflexivity.
Qed.

Lemma convert_mul_in f x y :
  (0 < precision f)%Z -> convert f (mul_in f x y) = mul_in f x y.
Proof.
  intros Hp. destruct x as [a|s|], y as [b|t|]; cbn; try reflexivity.
  - exact (convert_idempotent f (Fin (a * b)) Hp).
  - destruct (Qeq_bool a 0); reflexivity.
  - destruct (Qeq_bool b 0); reflexivity.
Qed.

(** The same for a zero and a one however they are written. *)
Lemma mul_in_zero_l f z x : z == 0 -> finite x -> mul_in f (Fin z) x = Fin 0.
Proof.
  intros Hz. destruct x as [q| |]; [intros _|intros []|intros []].
  apply (round_proper f (z * q) 0). rewrite Hz. ring.
Qed.

Lemma mul_in_zero_r f z x : z == 0 -> finite x -> mul_in f x (Fin z) = Fin 0.
Proof.
  intros Hz. destruct x as [q| |]; [intros _|intros []|intros []].
  apply (round_proper f (q * z) 0). rewrite Hz. ring.
Qed.

Lemma mul_in_one_l f z x : z == 1 -> mul_in f (Fin z) x = convert f x.
Proof.
  intros Hz. destruct x as [q|s|]; [| |reflexivity].
  - apply (round_proper f (z * q) q). rewrite Hz. ring.
  - cbn [mul_in convert].
    assert (H0 : Qeq_bool z 0 = false).
    { destruct (Qeq_bool z 0) eqn:E; [|reflexivity].
      apply Qeq_bool_eq in E. rewrite Hz in E. discriminate E. }
    assert (Hn : negative z = false).
    { unfold negative. rewrite (proj2 (Qle_bool_iff 0 z)); [reflexivity|].
      rewrite Hz. discriminate. }
    rewrite H0, Hn. destruct s; reflexivity.
Qed.

Lemma mul_in_one_r f z x : z == 1 -> mul_in f x (Fin z) = convert f x.
Proof.
  intros Hz. destruct x as [q|s|]; [| |reflexivity].
  - apply (round_proper f (q * z) q). rewrite Hz. ring.
  - cbn [mul_in convert].
    assert (H0 : Qeq_bool z 0 = false).
    { destruct (Qeq_bool z 0) eqn:E; [|reflexivity].
      apply Qeq_bool_eq in E. rewrite Hz in E. discriminate E. }
    assert (Hn : negative z = false).
    { unfold negative. rewrite (proj2 (Qle_bool_iff 0 z)); [reflexivity|].
      rewrite Hz. discriminate. }
    rewrite H0, Hn. destruct s; reflexivity.
Qed.

Lemma binary32_precision : (0 < precision binary32)%Z.
Proof. reflexivity. Qed.

(** * Reasoning about the monad *)

Lemma bind_run {A B} (m : M A) (f : A -> M B) s :
  (m ≫= f) s = match m s with Ok (a, s') => f a s' | Fault e => Fault e end.
Proof. reflexivity. Qed.

Lemma bind_Ok {A B} (m : M A) (f : A -> M B) s a s' :
  m s = Ok (a, s') -> (m ≫= f) s = f a s'.
Proof. intros H. rewrite bind_run, H. reflexivity. Qed.

Lemma bind_assoc_run {X Y Z} (m : M X) (f : X -> M Y) (g : Y -> M Z) s :
  ((m ≫= f) ≫= g) s = (m ≫= (fun a => f a ≫= g)) s.
Proof. rewrite !bind_run. destruct (m s) as [[a s1]|]; reflexivity. Qed.

Lemma ret_run {X} (x : X) (s : state) : (mret x : M X) s = Ok (x, s).
Proof. reflexivity. Qed.

Lemma bind_inv {A B} (m : M A) (f : A -> M B) s b s2 :
  (m ≫= f) s = Ok (b, s2) -> exists a s1, m s = Ok (a, s1) /\ f a s1 = Ok (b, s2).
Proof.
  rewrite bind_run. destruct (m s) as [[a s1]|e]; [|discriminate].
  intros H. exists a, s1. split; [reflexivity|exact H].
Qed.

Lemma load_run a c s : heap s !! a = Some c -> load (Some a) s = Ok (c, s).
Proof. intros H. unfold load. rewrite H. reflexivity. Qed.

Lemma load_inv p c s s' : load p s = Ok (c, s') -> exists a, p = Some a /\ heap s !! a = Some c /\ s' = s.
Proof.
  unfold load. destruct p as [a|]; [|discriminate].
  destruct (heap s !! a) as [c'|] eqn:E; [|discriminate].
  intros [= <- <-]. eauto.
Qed.

Lemma load_world_run a w s : heap s !! a = Some (CWorld w) -> load_world (Some a) s = Ok (w, s).
Proof. intros H. unfold load_world. rewrite (bind_Ok _ _ _ _ _ (load_run _ _ _ H)). reflexivity. Qed.

Lemma load_renderer_run a r s :
  heap s !! a = Some (CDebugRenderer r) -> load_renderer (Some a) s = Ok (r, s).
Proof. intros H. unfold load_renderer. rewrite (bind_Ok _ _ _ _ _ (load_run _ _ _ H)). reflexivity. Qed.

Lemma load_slab_run a x s : heap s !! a = Some (CSlab x) -> load_slab (Some a) s = Ok (x, s).
Proof. intros H. unfold load_slab. rewrite (bind_Ok _ _ _ _ _ (load_run _ _ _ H)). reflexivity. Qed.

Lemma load_entity_run a x s : heap s !! a = Some (CEntity x) -> load_entity (Some a) s = Ok (x, s).
Proof. intros H. unfold load_entity. rewrite (bind_Ok _ _ _ _ _ (load_run _ _ _ H)). reflexivity. Qed.

Lemma load_sensor_run a x s : heap s !! a = Some (CSensor x) -> load_sensor (Some a) s = Ok (x, s).
Proof. intros H. unfold load_sensor. rewrite (bind_Ok _ _ _ _ _ (load_run _ _ _ H)). reflexivity. Qed.

Lemma load_world_inv p w s s' :
  load_world p s = Ok (w, s') -> exists a, p = Some a /\ heap s !! a = Some (CWorld w) /\ s' = s.
Proof.
  unfold load_world. intros H. apply bind_inv in H as (c & s1 & H1 & H2).
  apply load_inv in H1 as (a & -> & Ha & ->).
  destruct c; try discriminate. injection H2 as <- <-. eauto.
Qed.

Lemma load_entity_inv p x s s' :
  load_entity p s = Ok (x, s') -> exists a, p = Some a /\ heap s !! a = Some (CEntity x) /\ s' = s.
Proof.
  unfold load_entity. intros H. apply bind_inv in H as (c & s1 & H1 & H2).
  apply load_inv in H1 as (a & -> & Ha & ->).
  destruct c; try discriminate. injection H2 as <- <-. eauto.
Qed.

Lemma load_sensor_inv p x s s' :
  load_sensor p s = Ok (x, s') -> exists a, p = Some a /\ heap s !! a = Some (CSensor x) /\ s' = s.
Proof.
  unfold load_sensor. intros H. apply bind_inv in H as (c & s1 & H1 & H2).
  apply load_inv in H1 as (a & -> & Ha & ->).
  destruct c; try discriminate. injection H2 as <- <-. eauto.
Qed.

Lemma load_slab_inv p x s s' :
  load_slab p s = Ok (x, s') -> exists a, p = Some a /\ heap s !! a = Some (CSlab x) /\ s' = s.
Proof.
  unfold load_slab. intros H. apply bind_inv in H as (c & s1 & H1 & H2).
  apply load_inv in H1 as (a & -> & Ha & ->).
  destruct c; try discriminate. injection H2 as <- <-. eauto.
Qed.

Lemma load_renderer_inv p x s s' :
  load_renderer p s = Ok (x, s') ->
  exists a, p = Some a /\ heap s !! a = Some (CDebugRenderer x) /\ s' = s.
Proof.
  unfold load_renderer. intros H. apply bind_inv in H as (c & s1 & H1 & H2).
  apply load_inv in H1 as (a & -> & Ha & ->).
  destruct c; try discriminate. injection H2 as <- <-. eauto.
Qed.

Lemma store_run a c c0 s :
  heap s !! a = Some c0 ->
  store a c s = Ok (tt, mkState (<[a := c]> (heap s)) (next s) (trace s)).
Proof. intros H. unfold store. rewrite H. reflexivity. Qed.

Lemma free_run a c0 s :
  heap s !! a = Some c0 ->
  free a s = Ok (tt, mkState (delete a (heap s)) (next s) (trace s ++ [EvDelete a])).
Proof. intros H. unfold free. rewrite H. reflexivity. Qed.

Lemma with_occluded_id s : with_occluded s (occluded s) = s.
Proof. destruct s; reflexivity. Qed.

Section Proofs.
Context `{B : Bullet}.

(** ** The sensor's contact loop *)

Lemma addSingleResult_run h n t sa s z :
  addSingleResult sa (mkState (<[sa := CSensor (with_occluded s z)]> h) n t)
  = Ok (tt, mkState (<[sa := CSensor (with_occluded s (Z.lor z 1))]> h) n t).
Proof.
  unfold addSingleResult.
  erewrite bind_Ok by (apply load_sensor_run; apply lookup_insert_eq).
  erewrite store_run by apply lookup_insert_eq.
  cbn. rewrite insert_insert_eq. reflexivity.
Qed.

Lemma repeat_addSingleResult_run k h n t sa s z :
  repeat_call k (addSingleResult sa) (mkState (<[sa := CSensor (with_occluded s z)]> h) n t)
  = Ok (tt, mkState (<[sa := CSensor (with_occluded s
                        (match k with O => z | S _ => Z.lor z 1 end))]> h) n t).
Proof.
  revert z. induction k as [|k IH]; intros z; [reflexivity|].
  cbn [repeat_call]. erewrite bind_Ok by apply addSingleResult_run.
  rewrite IH. destruct k; [reflexivity|].
  rewrite <- Z.lor_assoc, Z.lor_diag. reflexivity.
Qed.

Lemma contactPairTest_run h n t wa w sa s z o :
  h !! wa = Some (CWorld w) -> h !! sa = Some (CSensor s) ->
  contactPairTest (Some wa) sa o (mkState (<[sa := CSensor (with_occluded s z)]> h) n t)
  = Ok (tt, mkState (<[sa := CSensor (with_occluded s
                        (if touches h sa o then Z.lor z 1 else z))]> h) n
                    (t ++ [EvContactPairTest (SensorBodyOf sa) o])).
Proof.
  intros Hw Hs. assert (wa <> sa) by congruence.
  unfold contactPairTest.
  erewrite bind_Ok
    by (apply load_world_run; cbn; rewrite lookup_insert_ne by congruence; exact Hw).
  rewrite bind_run. cbn [log].
  rewrite bind_run. cbn [get_heap heap next trace].
  rewrite repeat_addSingleResult_run.
  unfold touches.
  change (with_occluded s z) with (mkSensor z (sensor_body s) (sensor_shape s)).
  rewrite (contactPoints_user_data h sa s z _ _ Hs).
  destruct (contactPoints h (SensorBodyOf sa) o); reflexivity.
Qed.

Lemma contact_loop_run h n t wa w sa s pairs z :
  h !! wa = Some (CWorld w) -> h !! sa = Some (CSensor s) ->
  for_each (contactPairTest (Some wa) sa) pairs
           (mkState (<[sa := CSensor (with_occluded s z)]> h) n t)
  = Ok (tt, mkState (<[sa := CSensor (with_occluded s
                        (if existsb (touches h sa) pairs then Z.lor z 1 else z))]> h) n
                    (t ++ map (EvContactPairTest (SensorBodyOf sa)) pairs)).
Proof.
  intros Hw Hs. revert z t. induction pairs as [|o pairs IH]; intros z t.
  - cbn. rewrite app_nil_r. reflexivity.
  - cbn [for_each]. erewrite bind_Ok by (eapply contactPairTest_run; eassumption).
    rewrite IH. cbn [existsb map]. rewrite <- app_assoc. cbn [app].
    destruct (touches h sa o); cbn [orb]; [|reflexivity].
    rewrite <- Z.lor_assoc, Z.lor_diag.
    destruct (existsb (touches h sa) pairs); reflexivity.
Qed.


Lemma poll_run h n t wa w sa s :
  h !! wa = Some (CWorld w) -> h !! sa = Some (CSensor s) ->
  poll (Some sa) (Some wa) (mkState h n t)
  = Ok (((if existsb (touches h sa) (gh_overlappingObjects (sensor_body s))
          then Z.lor (occluded s) 1 else occluded s) =? 1)%Z,
        mkState (<[sa := CSensor (with_occluded s 0)]> h) n
                (t ++ map (EvContactPairTest (SensorBodyOf sa))
                          (gh_overlappingObjects (sensor_body s)))).
Proof.
  intros Hw Hs. unfold poll.
  erewrite bind_Ok by (apply load_sensor_run; exact Hs).
  rewrite bind_run.
  pose proof (contact_loop_run h n t wa w sa s (gh_overlappingObjects (sensor_body s))
                               (occluded s) Hw Hs) as Hloop.
  rewrite with_occluded_id, (insert_id h sa (CSensor s) Hs) in Hloop.
  rewrite Hloop.
  erewrite bind_Ok by (apply load_sensor_run; apply lookup_insert_eq).
  cbn [with_occluded occluded sensor_body sensor_shape store_ptr].
  erewrite bind_Ok by (eapply store_run; apply lookup_insert_eq).
  cbn. rewrite insert_insert_eq. reflexivity.
Qed.

Lemma poll_run_no_overlap h n t world sa s :
  h !! sa = Some (CSensor s) -> gh_overlappingObjects (sensor_body s) = [] ->
  poll (Some sa) world (mkState h n t)
  = Ok ((occluded s =? 1)%Z, mkState (<[sa := CSensor (with_occluded s 0)]> h) n t).
Proof.
  intros Hs Hnil. unfold poll.
  erewrite bind_Ok by (apply load_sensor_run; exact Hs).
  rewrite Hnil. cbn [for_each]. rewrite bind_run. cbn [mret M_ret].
  erewrite bind_Ok by (apply load_sensor_run; exact Hs).
  cbn [store_ptr]. erewrite bind_Ok by (eapply store_run; exact Hs).
  reflexivity.
Qed.

Lemma contact_loop_needs_world world sa o pairs s u s' :
  for_each (contactPairTest world sa) (o :: pairs) s = Ok (u, s') -> live_world s world.
Proof.
  cbn [for_each]. intros H.
  apply bind_inv in H as (? & s1 & H & _).
  unfold contactPairTest in H. apply bind_inv in H as (w & s2 & H & _).
  apply load_world_inv in H as (a & -> & Ha & ->). exists a, w. auto.
Qed.

(** Whatever a successful poll found, it leaves the store as it was, but
    for the occlusion word of the polled sensor, which is zero. *)
Lemma poll_inv p world s b s' :
  poll p world s = Ok (b, s') ->
  exists sa sn, p = Some sa /\ heap s !! sa = Some (CSensor sn) /\
    heap s' = (<[sa := CSensor (with_occluded sn 0)]> (heap s)) /\ next s' = next s.
Proof.
  intros H. pose proof H as H0. unfold poll in H0.
  apply bind_inv in H0 as (sn & s1 & H1 & H2).
  apply load_sensor_inv in H1 as (sa & -> & Hs & ->).
  exists sa, sn. split; [reflexivity|]. split; [exact Hs|].
  destruct s as [h n t]. cbn [heap next] in *.
  destruct (gh_overlappingObjects (sensor_body sn)) as [|o pairs] eqn:Epairs.
  - rewrite (poll_run_no_overlap h n t world sa sn Hs Epairs) in H.
    injection H as <- <-. auto.
  - apply bind_inv in H2 as (? & s2 & H2 & _).
    apply contact_loop_needs_world in H2 as (wa & w & -> & Hw). cbn [heap] in Hw.
    rewrite (poll_run h n t wa w sa sn Hw Hs) in H.
    injection H as <- <-. auto.
Qed.


(** ** Running [entity_collider_set] *)

Lemma sensor_update_run h n t sa sn hd bt :
  h !! sa = Some (CSensor sn) ->
  sensor_update_jump_sensor_transform (Some sa) hd bt (mkState h n t)
  = Ok (tt, mkState
              (<[sa := CSensor (set_sensor_worldTransform sn
                          (transform_mul bt (jump_sensor_offset (sensor_shape sn) hd)))]> h)
              n
              (t ++ [EvSetWorldTransform (SensorBodyOf sa)
                       (transform_mul bt (jump_sensor_offset (sensor_shape sn) hd))])).
Proof.
  intros Hs. unfold sensor_update_jump_sensor_transform.
  erewrite bind_Ok by (apply load_sensor_run; exact Hs).
  cbn [store_ptr]. erewrite bind_Ok by (eapply store_run; exact Hs).
  reflexivity.
Qed.

Lemma entity_collider_set_run_plain h n t a c pos rot vel jf :
  h !! a = Some (CEntity c) -> jump_sensor c = None ->
  entity_collider_set (Some a) pos rot vel jf (mkState h n t)
  = Ok (0%Z, mkState
         (<[a := CEntity (entity_pushed (entity_moved c (set_transform c pos rot))
                                        (set_force vel jf))]> h)
         n
         (t ++ [EvSetWorldTransform (EntityBodyOf a) (set_transform c pos rot);
                EvApplyCentralForce (EntityBodyOf a) (set_force vel jf)])).
Proof.
  intros Hc Hno. unfold entity_collider_set.
  erewrite bind_Ok by (apply load_entity_run; exact Hc).
  erewrite bind_Ok by (eapply store_run; exact Hc).
  rewrite bind_run. cbn [log heap next trace].
  unfold has_jump_sensor. rewrite Hno. rewrite bind_run. cbn [mret M_ret].
  erewrite bind_Ok by (apply load_entity_run; apply lookup_insert_eq).
  erewrite bind_Ok by (eapply store_run; apply lookup_insert_eq).
  rewrite bind_run. cbn [log heap next trace mret M_ret].
  rewrite insert_insert_eq, <- app_assoc.
  unfold entity_pushed, entity_moved, set_transform, set_force. cbn. rewrite Hno. reflexivity.
Qed.

Lemma entity_collider_set_run_sensor h n t a c sa sn pos rot vel jf :
  h !! a = Some (CEntity c) -> jump_sensor c = Some sa -> h !! sa = Some (CSensor sn) ->
  entity_collider_set (Some a) pos rot vel jf (mkState h n t)
  = Ok (0%Z, mkState
         (<[a := CEntity (entity_pushed (entity_moved c (set_transform c pos rot))
                                        (set_force vel jf))]>
            (<[sa := CSensor (set_sensor_worldTransform sn
                       (transform_mul (set_transform c pos rot)
                                      (jump_sensor_offset (sensor_shape sn) (half_dims c))))]> h))
         n
         (t ++ [EvSetWorldTransform (EntityBodyOf a) (set_transform c pos rot);
                EvSetWorldTransform (SensorBodyOf sa)
                  (transform_mul (set_transform c pos rot)
                                 (jump_sensor_offset (sensor_shape sn) (half_dims c)));
                EvApplyCentralForce (EntityBodyOf a) (set_force vel jf)])).
Proof.
  intros Hc Hsa Hs. assert (a <> sa) by congruence.
  unfold entity_collider_set.
  erewrite bind_Ok by (apply load_entity_run; exact Hc).
  erewrite bind_Ok by (eapply store_run; exact Hc).
  rewrite bind_run. cbn [log heap next trace].
  unfold has_jump_sensor. rewrite Hsa.
  unfold update_jump_sensor_transform.
  rewrite bind_run.
  erewrite bind_Ok by (apply load_entity_run; apply lookup_insert_eq).
  cbn [jump_sensor half_dims collider_body rb_worldTransform set_rb_worldTransform].
  erewrite sensor_update_run by (rewrite lookup_insert_ne by congruence; exact Hs).
  erewrite bind_Ok
    by (apply load_entity_run; cbn; rewrite lookup_insert_ne by congruence;
        apply lookup_insert_eq).
  erewrite bind_Ok
    by (eapply store_run; cbn; rewrite lookup_insert_ne by congruence;
        apply lookup_insert_eq).
  rewrite bind_run. cbn [log heap next trace mret M_ret].
  rewrite <- !app_assoc. cbn [app].
  rewrite (insert_insert_ne _ sa a) by congruence.
  rewrite insert_insert_eq.
  unfold entity_pushed, entity_moved, set_transform, set_force. cbn. rewrite Hsa. reflexivity.
Qed.


(** ** entity_collider_set: order of effects (C7) and the force (C1) *)

(** C7.  Within every successful [entity_collider_set] the body's world
    transform is written first, then the sensor (if there is one) is
    re-placed relative to that new transform, then the force is applied:
    the trace grows by exactly these calls in this order, and the sensor
    ends at the new transform composed with its offset. *)
Theorem entity_collider_set_order (s : state) (a : addr) (c : entity_collider)
    (pos : btVector3) (rot : btScalar) (vel : btVector3) (jump_force : btScalar) :
  heap s !! a = Some (CEntity c) ->
  (forall sa, jump_sensor c = Some sa -> exists sn, heap s !! sa = Some (CSensor sn)) ->
  exists s',
    entity_collider_set (Some a) pos rot vel jump_force s = Ok (0%Z, s') /\
    trace s' = trace s
      ++ [EvSetWorldTransform (EntityBodyOf a) (set_transform c pos rot)]
      ++ match sensor_target (heap s) c (set_transform c pos rot) with
         | Some (sa, t) => [EvSetWorldTransform (SensorBodyOf sa) t]
         | None => []
         end
      ++ [EvApplyCentralForce (EntityBodyOf a) (set_force vel jump_force)] /\
    (exists c', heap s' !! a = Some (CEntity c') /\
                rb_worldTransform (collider_body c') = set_transform c pos rot) /\
    (forall sa sn, jump_sensor c = Some sa -> heap s !! sa = Some (CSensor sn) ->
       exists sn', heap s' !! sa = Some (CSensor sn') /\
         gh_worldTransform (sensor_body sn')
         = transform_mul (set_transform c pos rot)
                         (jump_sensor_offset (sensor_shape sn) (half_dims c))).
Proof.
  intros Hc Hsensor. destruct s as [h n t]. cbn [heap trace] in *.
  destruct (jump_sensor c) as [sa|] eqn:Hsa.
  - destruct (Hsensor sa eq_refl) as [sn Hs]. assert (a <> sa) by congruence.
    eexists. split; [eapply entity_collider_set_run_sensor; eassumption|].
    cbn [heap trace]. unfold sensor_target. rewrite Hsa, Hs.
    split; [reflexivity|]. split.
    + eexists. split; [apply lookup_insert_eq|reflexivity].
    + intros sa' sn' [= <-] Hs'. rewrite Hs in Hs'. injection Hs' as <-.
      eexists. split.
      * rewrite lookup_insert_ne by congruence. apply lookup_insert_eq.
      * reflexivity.
  - eexists. split; [eapply entity_collider_set_run_plain; eassumption|].
    cbn [heap trace]. unfold sensor_target. rewrite Hsa.
    split; [reflexivity|]. split.
    + eexists. split; [apply lookup_insert_eq|reflexivity].
    + intros sa sn [=].
Qed.

(** C1, as the code has it.  Every successful [entity_collider_set] adds
    the [jump_force] it was called with to the up component of the
    velocity, in single precision, and submits the velocity with that
    rounded sum for its up component as the force; neither a jump action
    nor the sensor is consulted. *)
Theorem entity_collider_set_adds_jump_force (s : state) (a : addr) (c : entity_collider)
    (pos : btVector3) (rot : btScalar) (vel : btVector3) (jump_force : btScalar) :
  heap s !! a = Some (CEntity c) ->
  (forall sa, jump_sensor c = Some sa -> exists sn, heap s !! sa = Some (CSensor sn)) ->
  exists s',
    entity_collider_set (Some a) pos rot vel jump_force s = Ok (0%Z, s') /\
    submitted_force (trace s')
    = Some (mkVec (vx vel) (vy vel) (fadd (vz vel) jump_force)).
Proof.
  intros Hc Hsensor. destruct s as [h n t]. cbn [heap] in *.
  destruct (jump_sensor c) as [sa|] eqn:Hsa.
  - destruct (Hsensor sa eq_refl) as [sn Hs].
    eexists. split; [eapply entity_collider_set_run_sensor; eassumption|].
    cbn [trace]. unfold submitted_force.
    rewrite (last_app_cons t [_; _]). reflexivity.
  - eexists. split; [eapply entity_collider_set_run_plain; eassumption|].
    cbn [trace]. unfold submitted_force.
    rewrite (last_app_cons t [_]). reflexivity.
Qed.



(** ** Handles (C8) *)

Lemma entity_collider_get_run_plain h n t a c world outs :
  h !! a = Some (CEntity c) -> jump_sensor c = None ->
  exists outs', entity_collider_get world (Some a) outs (mkState h n t)
                = Ok ((0%Z, outs'), mkState h n t).
Proof.
  intros Hc Hno. unfold entity_collider_get.
  erewrite bind_Ok by (apply load_entity_run; exact Hc).
  unfold has_jump_sensor. rewrite Hno. eexists. reflexivity.
Qed.

Lemma entity_collider_get_run_sensor h n t a c sa sn wa w outs :
  h !! a = Some (CEntity c) -> jump_sensor c = Some sa -> h !! sa = Some (CSensor sn) ->
  h !! wa = Some (CWorld w) ->
  exists outs' s', entity_collider_get (Some wa) (Some a) outs (mkState h n t)
                   = Ok ((0%Z, outs'), s').
Proof.
  intros Hc Hsa Hs Hw. unfold entity_collider_get.
  erewrite bind_Ok by (apply load_entity_run; exact Hc).
  unfold has_jump_sensor. rewrite Hsa. unfold poll_jump_sensor.
  rewrite bind_run.
  erewrite bind_Ok by (apply load_entity_run; exact Hc).
  rewrite Hsa. erewrite poll_run by eassumption.
  eexists _, _. reflexivity.
Qed.

Ltac unbind H := repeat (apply bind_inv in H as (? & ? & _ & H)).

Lemma entity_collider_get_code world collider outs s r outs' s' :
  entity_collider_get world collider outs s = Ok ((r, outs'), s') ->
  r <> 0%Z -> collider = None.
Proof.
  destruct collider as [a|]; [|reflexivity]. intros H Hr. exfalso.
  unfold entity_collider_get in H.
  apply bind_inv in H as (c & s1 & _ & H).
  destruct (has_jump_sensor c); unbind H; injection H as <- _ _; congruence.
Qed.

Lemma entity_collider_get_pos_code collider pos s r pos' s' :
  entity_collider_get_pos collider pos s = Ok ((r, pos'), s') ->
  r <> 0%Z -> collider = None.
Proof.
  destruct collider as [a|]; [|reflexivity]. intros H Hr. exfalso.
  unfold entity_collider_get_pos in H. unbind H. injection H as <- _ _. congruence.
Qed.

Lemma entity_collider_set_code collider pos rot vel jf s r s' :
  entity_collider_set collider pos rot vel jf s = Ok (r, s') ->
  r <> 0%Z -> collider = None.
Proof.
  destruct collider as [a|]; [|reflexivity]. intros H Hr. exfalso.
  unfold entity_collider_set in H. unbind H. injection H as <- _. congruence.
Qed.

(** [entity_collider_get] with a null world, on an entity whose sensor
    overlaps something: the poll dereferences the world to test the first
    overlapping object. *)
Lemma entity_collider_get_null_world s a c sa sn outs :
  heap s !! a = Some (CEntity c) -> jump_sensor c = Some sa ->
  heap s !! sa = Some (CSensor sn) -> gh_overlappingObjects (sensor_body sn) <> [] ->
  entity_collider_get None (Some a) outs s = Fault NullPointer.
Proof.
  intros Hc Hsa Hs Ho. unfold entity_collider_get.
  rewrite (bind_Ok _ _ _ _ _ (load_entity_run _ _ _ Hc)).
  unfold has_jump_sensor. rewrite Hsa.
  unfold poll_jump_sensor. rewrite bind_assoc_run.
  rewrite (bind_Ok _ _ _ _ _ (load_entity_run _ _ _ Hc)). rewrite Hsa.
  unfold poll. rewrite bind_assoc_run.
  rewrite (bind_Ok _ _ _ _ _ (load_sensor_run _ _ _ Hs)).
  destruct (gh_overlappingObjects (sensor_body sn)) as [|o pairs]; [congruence|].
  reflexivity.
Qed.

(** C8.  Each of [entity_collider_get], [entity_collider_get_pos] and
    [entity_collider_set] returns the failure code -1 on a null collider
    handle, writing no output and leaving the state as it was, and returns
    a non-zero code only for the null handle.  On a live handle
    [entity_collider_get_pos] and [entity_collider_set] return 0, and so
    does [entity_collider_get] when the world is live.  The world handle of
    [entity_collider_get] is not checked as the collider's is: on a live
    collider whose sensor overlaps something, a null world is dereferenced,
    and the call returns neither 0 nor the failure code. *)
Theorem entity_collider_failure_codes (s : state) (world collider : ptr)
    (outs : get_outputs) (pos : btVector3) (rot : btScalar) (vel : btVector3)
    (jump_force : btScalar) :
  (collider = None ->
     entity_collider_get world collider outs s = Ok (((-1)%Z, outs), s) /\
     entity_collider_get_pos collider pos s = Ok (((-1)%Z, pos), s) /\
     entity_collider_set collider pos rot vel jump_force s = Ok ((-1)%Z, s)) /\
  (live_collider s collider ->
     (exists pos', entity_collider_get_pos collider pos s = Ok ((0%Z, pos'), s)) /\
     (exists s', entity_collider_set collider pos rot vel jump_force s = Ok (0%Z, s')) /\
     (live_world s world ->
      exists outs' s', entity_collider_get world collider outs s = Ok ((0%Z, outs'), s'))) /\
  (forall r outs' s',
     entity_collider_get world collider outs s = Ok ((r, outs'), s') ->
     r <> 0%Z -> collider = None) /\
  (forall r pos' s',
     entity_collider_get_pos collider pos s = Ok ((r, pos'), s') ->
     r <> 0%Z -> collider = None) /\
  (forall r s',
     entity_collider_set collider pos rot vel jump_force s = Ok (r, s') ->
     r <> 0%Z -> collider = None) /\
  (forall a c sa sn,
     collider = Some a -> heap s !! a = Some (CEntity c) ->
     jump_sensor c = Some sa -> heap s !! sa = Some (CSensor sn) ->
     gh_overlappingObjects (sensor_body sn) <> [] ->
     world = None ->
     entity_collider_get world collider outs s = Fault NullPointer).
Proof.
  split; [intros ->; repeat split|].
  split.
  - intros (a & c & -> & Hc & Hsensor).
    destruct s as [h n t]. cbn [heap] in *.
    split; [|split].
    + unfold entity_collider_get_pos.
      erewrite bind_Ok by (apply load_entity_run; exact Hc). eexists. reflexivity.
    + destruct (jump_sensor c) as [sa|] eqn:Hsa.
      * destruct Hsensor as [sn Hs]. eexists.
        eapply entity_collider_set_run_sensor; eassumption.
      * eexists. eapply entity_collider_set_run_plain; eassumption.
    + intros (wa & w & -> & Hw). cbn [heap] in Hw.
      destruct (jump_sensor c) as [sa|] eqn:Hsa.
      * destruct Hsensor as [sn Hs]. eapply entity_collider_get_run_sensor; eassumption.
      * destruct (entity_collider_get_run_plain h n t a c (Some wa) outs Hc Hsa) as [o Ho].
        eauto.
  - split; [|split; [|split]].
    + intros r o s'. apply entity_collider_get_code.
    + intros r p s'. apply entity_collider_get_pos_code.
    + intros r s'. apply entity_collider_set_code.
    + intros a c sa sn -> Hc Hsa Hs Ho ->.
      exact (entity_collider_get_null_world s a c sa sn outs Hc Hsa Hs Ho).
Qed.

(** ** The debug drawer (C2) *)

Lemma dynworld_debug_draw_null_renderer (s : state) (a : addr) (w : dynworld) (blob : ptr) :
  heap s !! a = Some (CWorld w) -> debugRenderer w = None ->
  dynworld_debug_draw (Some a) blob s = Fault NullPointer.
Proof.
  intros Hw Hnull. unfold dynworld_debug_draw.
  erewrite bind_Ok by (apply load_world_run; exact Hw).
  rewrite Hnull. reflexivity.
Qed.

(** C2, evaluated.  With no drawer installed [dynworld_debug_draw] is not
    a no-op: on a fresh world it dereferences the null [debugRenderer], and
    so it does in every world that never had a drawer; after the drawer was
    removed it dereferences the deleted one. *)
Theorem dynworld_debug_draw_without_drawer (g : btScalar) (f : nat) (blob : ptr) :
  (world ← dynworld_create g; dynworld_debug_draw world blob) initial_state
  = Fault NullPointer /\
  (world ← dynworld_create g;
   dynworld_set_debug_drawer world (Some f);;
   dynworld_set_debug_drawer world None;;
   dynworld_debug_draw world blob) initial_state
  = Fault InvalidPointer /\
  (forall s a w, heap s !! a = Some (CWorld w) -> debugRenderer w = None ->
                 dynworld_debug_draw (Some a) blob s = Fault NullPointer).
Proof.
  split; [reflexivity|]. split; [reflexivity|].
  intros s a w. apply dynworld_debug_draw_null_renderer.
Qed.

(** ** Sensor placement (C6) *)

Lemma new_entity_jump_sensor_dims (hd : btVector3) :
  box_halfExtents (sensor_shape (new_entity_jump_sensor hd))
  = mkVec (times_literal (vx hd) 0.8) (times_literal (vy hd) 0.8) (times_literal (vz hd) 0.25).
Proof. reflexivity. Qed.

(** The sideways and the downward component of the offset, when nothing
    in the forward term is an infinity or a NaN. *)
Lemma jump_sensor_offset_down (sh : btBoxShape) (hd : btVector3) :
  finite (vget hd FWD_DIM) -> finite (vget hd UP_DIM) ->
  finite (jump_sensor_forward_factor sh) ->
  vx (origin (jump_sensor_offset sh hd)) = Fin 0 /\
  vz (origin (jump_sensor_offset sh hd)) = fmul (to_float (vz hd)) (single (-0.5)).
Proof.
  intros Hy Hz Hf. unfold jump_sensor_offset.
  cbn [transform_identity origin setOrigin vadd vscale vzero UP FWD vx vy vz vget
       FWD_DIM UP_DIM] in *.
  unfold fadd, fmul.
  assert (H00 : (0.0 == 0)%Q) by reflexivity.
  assert (H10 : (1.0 == 1)%Q) by reflexivity.
  rewrite !(mul_in_zero_l binary32 0.0 _ H00) by assumption.
  rewrite (mul_in_zero_l binary32 0 _ (Qeq_refl 0) Hf).
  rewrite (mul_in_one_l binary32 1.0 _ H10).
  assert (Hc : finite (single (-0.5))) by exact I.
  rewrite (mul_in_zero_l binary32 0 _ (Qeq_refl 0) Hc).
  split; [reflexivity|].
  change (add_in binary32 (Fin 0) (Fin 0)) with (Fin 0).
  rewrite add_in_0_l. apply convert_mul_in, binary32_precision.
Qed.

(** C6, as the code has it.  The sensor box has half dimensions 0.8 of the
    entity's in width and depth and 0.25 in height, each product taken in
    double precision and stored in single.  Placement sets the sensor's
    world transform to the entity's transform composed with a pure
    translation.  Where the entity's half extents and the factor of the
    forward term are finite, that translation has no sideways component,
    and its downward component is the entity's half height times 0.5 in
    single precision, that is the length of the sensor box from bottom to
    top and not half of it.  The forward component is not part of this
    statement. *)
Theorem jump_sensor_placement (s : state) (sa : addr) (sn : entity_jump_sensor)
    (hd : btVector3) (body_transform : btTransform) :
  heap s !! sa = Some (CSensor sn) ->
  box_halfExtents (sensor_shape (new_entity_jump_sensor hd))
  = mkVec (times_literal (vx hd) 0.8) (times_literal (vy hd) 0.8)
          (times_literal (vz hd) 0.25) /\
  (exists s' sn',
     sensor_update_jump_sensor_transform (Some sa) hd body_transform s = Ok (tt, s') /\
     heap s' !! sa = Some (CSensor sn') /\
     gh_worldTransform (sensor_body sn')
     = transform_mul body_transform (jump_sensor_offset (sensor_shape sn) hd)) /\
  basis (jump_sensor_offset (sensor_shape sn) hd) = mat_identity /\
  (finite (vget hd FWD_DIM) -> finite (vget hd UP_DIM) ->
   finite (jump_sensor_forward_factor (sensor_shape sn)) ->
   vx (origin (jump_sensor_offset (sensor_shape sn) hd)) = Fin 0 /\
   vz (origin (jump_sensor_offset (sensor_shape sn) hd))
   = fmul (to_float (vz hd)) (single (-0.5))).
Proof.
  intros Hs. split; [apply new_entity_jump_sensor_dims|].
  split.
  - destruct s as [h n t]. cbn [heap] in Hs.
    eexists _, _. split; [apply sensor_update_run; exact Hs|].
    cbn [heap]. split; [apply lookup_insert_eq|reflexivity].
  - split; [reflexivity|]. apply jump_sensor_offset_down.
Qed.

(** ** Every call keeps the cells good *)

Lemma cellwise_insert good h n t n' t' a c :
  good c -> cellwise good (mkState h n t) -> cellwise good (mkState (<[a := c]> h) n' t').
Proof.
  intros Hc Hh a' c'. cbn [heap]. rewrite lookup_insert.
  destruct (decide (a = a')); [intros [= <-]; exact Hc|apply Hh].
Qed.

Lemma cellwise_delete good h n t n' t' a :
  cellwise good (mkState h n t) -> cellwise good (mkState (delete a h) n' t').
Proof.
  intros Hh a' c'. cbn [heap]. rewrite lookup_delete.
  destruct (decide (a = a')); [discriminate|apply Hh].
Qed.

Lemma keeps_ret {A} (a : A) (phi : A -> Prop) : phi a -> keeps (mret a) phi.
Proof. intros Ha s Hs. cbn. auto. Qed.

Lemma keeps_fail {A} e (phi : A -> Prop) : keeps (fail e) phi.
Proof. intros s Hs. exact I. Qed.

Lemma keeps_bind {A C} (m : M A) (f : A -> M C) (psi : A -> Prop) (phi : C -> Prop) :
  keeps m psi -> (forall a, psi a -> keeps (f a) phi) -> keeps (m ≫= f) phi.
Proof.
  intros Hm Hf s Hs. rewrite bind_run. specialize (Hm s Hs).
  destruct (m s) as [[a s1]|e]; [|exact I].
  destruct Hm as [H1 Ha]. exact (Hf a Ha s1 H1).
Qed.

Lemma keeps_weaken {A} (m : M A) (psi phi : A -> Prop) :
  keeps m psi -> (forall a, psi a -> phi a) -> keeps m phi.
Proof.
  intros Hm Himp s Hs. specialize (Hm s Hs).
  destruct (m s) as [[a s1]|e]; [|exact I]. destruct Hm. auto.
Qed.

Lemma keeps_log e : keeps (log e) (fun _ => True).
Proof.
  intros [h n t] Hs. cbn. split; [|exact I]. intros a c. apply Hs.
Qed.

Lemma keeps_get_heap : keeps get_heap (fun _ => True).
Proof. intros s Hs. cbn. auto. Qed.

Lemma keeps_new c : good_cell c -> keeps (new c) (fun _ => True).
Proof.
  intros Hc [h n t] Hs. cbn. split; [|exact I]. eapply cellwise_insert; eassumption.
Qed.

Lemma keeps_load p : keeps (load p) good_cell.
Proof.
  intros s Hs. unfold load. destruct p as [a|]; [|exact I].
  destruct (heap s !! a) as [c|] eqn:E; [|exact I]. split; [exact Hs|]. eapply Hs, E.
Qed.

Lemma keeps_load_world p : keeps (load_world p) (fun w => good_cell (CWorld w)).
Proof.
  eapply keeps_bind; [apply keeps_load|]. intros c Hc.
  destruct c; try apply keeps_fail. apply keeps_ret, Hc.
Qed.

Lemma keeps_load_renderer p : keeps (load_renderer p) (fun _ => True).
Proof.
  eapply keeps_bind; [apply keeps_load|]. intros c Hc.
  destruct c; try apply keeps_fail. apply keeps_ret, I.
Qed.

Lemma keeps_load_slab p : keeps (load_slab p) (fun _ => True).
Proof.
  eapply keeps_bind; [apply keeps_load|]. intros c Hc.
  destruct c; try apply keeps_fail. apply keeps_ret, I.
Qed.

Lemma keeps_load_entity p : keeps (load_entity p) (fun _ => True).
Proof.
  eapply keeps_bind; [apply keeps_load|]. intros c Hc.
  destruct c; try apply keeps_fail. apply keeps_ret, I.
Qed.

Lemma keeps_load_sensor p : keeps (load_sensor p) (fun x => occluded x = 0%Z).
Proof.
  eapply keeps_bind; [apply keeps_load|]. intros c Hc.
  destruct c; try apply keeps_fail. apply keeps_ret, Hc.
Qed.

Lemma keeps_store a c : good_cell c -> keeps (store a c) (fun _ => True).
Proof.
  intros Hc [h n t] Hs. unfold store. cbn [heap].
  destruct (h !! a); [|exact I]. split; [|exact I]. eapply cellwise_insert; eassumption.
Qed.

Lemma keeps_store_ptr p c : good_cell c -> keeps (store_ptr p c) (fun _ => True).
Proof. intros Hc. destruct p; [apply keeps_store, Hc|apply keeps_fail]. Qed.

Lemma keeps_free a : keeps (free a) (fun _ => True).
Proof.
  intros [h n t] Hs. unfold free. cbn [heap].
  destruct (h !! a); [|exact I]. split; [|exact I]. eapply cellwise_delete; eassumption.
Qed.

Lemma keeps_delete_ptr p : keeps (delete_ptr p) (fun _ => True).
Proof. destruct p; [apply keeps_free|apply keeps_ret, I]. Qed.

Lemma keeps_copy_n {A} (l : list A) n : keeps (copy_n l n) (fun _ => True).
Proof. unfold copy_n. destruct (n <=? length l)%nat; [apply keeps_ret, I|apply keeps_fail]. Qed.

Lemma keeps_for_each {A} (f : A -> M unit) (l : list A) :
  (forall x, keeps (f x) (fun _ => True)) -> keeps (for_each f l) (fun _ => True).
Proof.
  intros Hf. induction l as [|x l IH]; [apply keeps_ret, I|].
  cbn [for_each]. eapply keeps_bind; [apply Hf|]. intros _ _. exact IH.
Qed.

Lemma good_world_objects w l :
  Forall filed_by_kind l -> good_cell (CWorld (set_collisionObjects w l)).
Proof. intros H. exact H. Qed.

Lemma keeps_addCollisionObject world o group mask :
  filed_by_kind (mkReg o group mask) ->
  keeps (addCollisionObject world o group mask) (fun _ => True).
Proof.
  intros Hr. unfold addCollisionObject.
  eapply keeps_bind; [apply keeps_load_world|]. intros w Hw.
  eapply keeps_bind; [|intros _ _; apply keeps_log].
  apply keeps_store_ptr, good_world_objects.
  apply Forall_app. split; [exact Hw|]. constructor; [exact Hr|constructor].
Qed.

Lemma keeps_removeRigidBody world body : keeps (removeRigidBody world body) (fun _ => True).
Proof.
  unfold removeRigidBody.
  eapply keeps_bind; [apply keeps_load_world|]. intros w Hw.
  destruct body as [b|]; [|apply keeps_fail].
  eapply keeps_bind; [apply keeps_load|]. intros _ _.
  eapply keeps_bind; [|intros _ _; apply keeps_log].
  apply keeps_store_ptr, good_world_objects.
  apply Forall_forall. intros r Hr. apply list_elem_of_filter in Hr as [_ Hr].
  revert r Hr. apply Forall_forall. exact Hw.
Qed.

Create HintDb keeps discriminated.

#[local] Hint Resolve keeps_log keeps_get_heap keeps_load_world keeps_load_renderer
  keeps_load_slab keeps_load_entity keeps_load_sensor keeps_load keeps_free
  keeps_delete_ptr keeps_copy_n keeps_fail keeps_removeRigidBody : keeps.

Ltac keep_prim :=
  first
    [ apply keeps_addCollisionObject; cbn; solve [auto]
    | apply keeps_new; cbn; solve [auto]
    | apply keeps_store; cbn; solve [auto]
    | apply keeps_store_ptr; cbn; solve [auto]
    | solve [eauto 3 with keeps] ].

Ltac keep :=
  repeat lazymatch goal with
    | |- keeps (mret _) _ => apply keeps_ret; exact I
    | |- keeps (_ ≫= _) _ => eapply keeps_bind; [|intros ? ?]
    | |- keeps (match ?x with _ => _ end) _ => destruct x
    | |- keeps _ _ => keep_prim
    end.

Lemma keeps_setFrameBlob this blob : keeps (setFrameBlob this blob) (fun _ => True).
Proof. unfold setFrameBlob. keep. Qed.

Lemma keeps_setDebugMode this m : keeps (setDebugMode this m) (fun _ => True).
Proof. unfold setDebugMode. keep. Qed.

Lemma keeps_drawLine this f t c : keeps (drawLine this f t c) (fun _ => True).
Proof. unfold drawLine. keep. Qed.

#[local] Hint Resolve keeps_setFrameBlob keeps_setDebugMode keeps_drawLine : keeps.

Lemma keeps_debugDrawWorld world : keeps (debugDrawWorld world) (fun _ => True).
Proof.
  unfold debugDrawWorld. keep.
  apply keeps_for_each. intros x. apply keeps_drawLine.
Qed.

#[local] Hint Resolve keeps_debugDrawWorld : keeps.

Lemma keeps_dynworld_create g : keeps (dynworld_create g) (fun _ => True).
Proof. unfold dynworld_create, dynworld_ctor, dynworld_raw. keep. Qed.

Lemma keeps_dynworld_destroy world : keeps (dynworld_destroy world) (fun _ => True).
Proof.
  unfold dynworld_destroy. keep.
  apply keeps_for_each. intros p. apply keeps_delete_ptr.
Qed.

Lemma keeps_dynworld_set_debug_drawer world f :
  keeps (dynworld_set_debug_drawer world f) (fun _ => True).
Proof. unfold dynworld_set_debug_drawer. keep. Qed.

Lemma keeps_dynworld_debug_draw world blob :
  keeps (dynworld_debug_draw world blob) (fun _ => True).
Proof. unfold dynworld_debug_draw. keep. Qed.

Lemma keeps_delete_slab p : keeps (delete_slab p) (fun _ => True).
Proof. unfold delete_slab. keep. Qed.

#[local] Hint Resolve keeps_delete_slab : keeps.

Lemma filed_slab b : filed_by_kind (mkReg (RigidBodyAt b) COL_WORLD COLMASK_WORLD).
Proof. split; reflexivity. Qed.

Lemma filed_entity a : filed_by_kind (mkReg (EntityBodyOf a) COL_ENTITIES COLMASK_ENTITY).
Proof. split; reflexivity. Qed.

Lemma filed_sensor a :
  filed_by_kind (mkReg (SensorBodyOf a) COL_ENTITY_JUMP_SENSOR COLMASK_ENTITY_JUMP_SENSOR).
Proof. split; reflexivity. Qed.

#[local] Hint Resolve filed_slab filed_entity filed_sensor : core.

Lemma keeps_slab_collider_update world prev pos vs vn ixs ixn :
  keeps (slab_collider_update world prev pos vs vn ixs ixn) (fun _ => True).
Proof. unfold slab_collider_update. keep. Qed.

Lemma keeps_apply_effect e : keeps (apply_effect e) (fun _ => True).
Proof. unfold apply_effect. keep. Qed.

Lemma keeps_dynworld_step world e f effects :
  keeps (dynworld_step world e f effects) (fun _ => True).
Proof.
  unfold dynworld_step. keep. apply keeps_for_each, keeps_apply_effect.
Qed.

Lemma keeps_dynworld_step_render_only world e effects :
  keeps (dynworld_step_render_only world e effects) (fun _ => True).
Proof.
  unfold dynworld_step_render_only. keep. apply keeps_for_each, keeps_apply_effect.
Qed.

Lemma keeps_sensor_update this hd bt :
  keeps (sensor_update_jump_sensor_transform this hd bt) (fun _ => True).
Proof. unfold sensor_update_jump_sensor_transform. keep. Qed.

#[local] Hint Resolve keeps_sensor_update : keeps.

Lemma keeps_update_jump_sensor_transform this :
  keeps (update_jump_sensor_transform this) (fun _ => True).
Proof. unfold update_jump_sensor_transform. keep. Qed.

#[local] Hint Resolve keeps_update_jump_sensor_transform : keeps.

Lemma keeps_poll p world : keeps (poll p world) (fun _ => True).
Proof.
  intros s Hs. destruct (poll p world s) as [[b s']|e] eqn:E; [|exact I].
  split; [|exact I].
  apply poll_inv in E as (sa & sn & _ & _ & Hh & _).
  intros a c. rewrite Hh, lookup_insert.
  destruct (decide (sa = a)); [intros [= <-]; reflexivity|apply Hs].
Qed.

#[local] Hint Resolve keeps_poll : keeps.

Lemma keeps_poll_jump_sensor this world : keeps (poll_jump_sensor this world) (fun _ => True).
Proof. unfold poll_jump_sensor. keep. Qed.

#[local] Hint Resolve keeps_poll_jump_sensor : keeps.

Lemma keeps_entity_collider_create world center half friction damping add :
  keeps (entity_collider_create world center half friction damping add) (fun _ => True).
Proof. unfold entity_collider_create. keep. Qed.

Lemma keeps_entity_collider_get world collider outs :
  keeps (entity_collider_get world collider outs) (fun _ => True).
Proof. unfold entity_collider_get. keep. Qed.

Lemma keeps_entity_collider_get_pos collider pos :
  keeps (entity_collider_get_pos collider pos) (fun _ => True).
Proof. unfold entity_collider_get_pos. keep. Qed.

Lemma keeps_entity_collider_set collider pos rot vel jf :
  keeps (entity_collider_set collider pos rot vel jf) (fun _ => True).
Proof. unfold entity_collider_set. keep. Qed.

Lemma keeps_exec c : keeps (exec c) (fun _ => True).
Proof.
  destruct c; cbn [exec].
  - eapply keeps_bind; [apply keeps_dynworld_create|]. intros; apply keeps_ret, I.
  - apply keeps_dynworld_destroy.
  - apply keeps_dynworld_step.
  - apply keeps_dynworld_step_render_only.
  - apply keeps_dynworld_set_debug_drawer.
  - apply keeps_dynworld_debug_draw.
  - eapply keeps_bind; [apply keeps_slab_collider_update|]. intros; apply keeps_ret, I.
  - eapply keeps_bind; [apply keeps_entity_collider_create|]. intros; apply keeps_ret, I.
  - eapply keeps_bind; [apply keeps_entity_collider_get|]. intros; apply keeps_ret, I.
  - eapply keeps_bind; [apply keeps_entity_collider_get_pos|]. intros; apply keeps_ret, I.
  - eapply keeps_bind; [apply keeps_entity_collider_set|]. intros; apply keeps_ret, I.
Qed.

(** Between two calls of the host every cell is good. *)
Lemma reachable_good s : reachable s -> cellwise good_cell s.
Proof.
  intros [calls Hrun].
  pose proof (keeps_for_each exec calls keeps_exec initial_state) as H.
  unfold run in Hrun. rewrite Hrun in H. apply H.
  intros a c. cbn. rewrite lookup_empty. discriminate.
Qed.

(** ** Collision groups (C4) *)

Lemma filed_by_kind_groups r :
  filed_by_kind r ->
  (reg_group r = COL_WORLD /\ reg_mask r = Z.lor COL_ENTITIES COL_ENTITY_JUMP_SENSOR) \/
  (reg_group r = COL_ENTITIES /\ reg_mask r = COL_WORLD) \/
  (reg_group r = COL_ENTITY_JUMP_SENSOR /\ reg_mask r = COL_WORLD).
Proof. unfold filed_by_kind. destruct (reg_obj r); intros [-> ->]; auto. Qed.

(** C4.  In every state the host can reach, every object registered in a
    world is filed under one of the three groups, with that group's mask:
    world bodies with mask entities-or-sensors, entity bodies with mask
    world, sensors with mask world.  The groups are disjoint bits, and
    Bullet's filter rejects every pair of registered objects of the same
    group, and every pair without a world body. *)
Theorem collision_groups_invariant (s : state) (a : addr) (w : dynworld)
    (r1 r2 : registration) :
  reachable s -> heap s !! a = Some (CWorld w) ->
  r1 ∈ collisionObjects (dynamicsWorld w) -> r2 ∈ collisionObjects (dynamicsWorld w) ->
  filed_by_kind r1 /\
  ((reg_group r1 = COL_WORLD /\ reg_mask r1 = Z.lor COL_ENTITIES COL_ENTITY_JUMP_SENSOR) \/
   (reg_group r1 = COL_ENTITIES /\ reg_mask r1 = COL_WORLD) \/
   (reg_group r1 = COL_ENTITY_JUMP_SENSOR /\ reg_mask r1 = COL_WORLD)) /\
  (Z.land COL_WORLD COL_ENTITIES = 0 /\
   Z.land COL_WORLD COL_ENTITY_JUMP_SENSOR = 0 /\
   Z.land COL_ENTITIES COL_ENTITY_JUMP_SENSOR = 0)%Z /\
  (reg_group r1 = reg_group r2 -> needsCollision r1 r2 = false) /\
  (reg_group r1 <> COL_WORLD -> reg_group r2 <> COL_WORLD -> needsCollision r1 r2 = false).
Proof.
  intros Hreach Hw H1 H2.
  pose proof (reachable_good s Hreach a (CWorld w) Hw) as Hgood. cbn in Hgood.
  rewrite Forall_forall in Hgood.
  pose proof (filed_by_kind_groups r1 (Hgood r1 H1)) as G1.
  pose proof (filed_by_kind_groups r2 (Hgood r2 H2)) as G2.
  split; [apply Hgood, H1|]. split; [exact G1|]. split; [repeat split|].
  unfold needsCollision.
  split; intros;
    destruct G1 as [[E1 M1]|[[E1 M1]|[E1 M1]]], G2 as [[E2 M2]|[[E2 M2]|[E2 M2]]];
    rewrite ?E1, ?E2, ?M1, ?M2 in *; try reflexivity;
    exfalso; match goal with H : _ |- _ => solve [vm_compute in H; congruence] end.
Qed.

(** ** The occlusion word (C3, C10) *)

Lemma existsb_touches h sa l :
  existsb (touches h sa) l = true <->
  exists o, o ∈ l /\ (0 < contactPoints h (SensorBodyOf sa) o)%nat.
Proof.
  rewrite existsb_exists. unfold touches. split.
  - intros (o & Hin & Ho). exists o. split; [apply list_elem_of_In, Hin|].
    apply Nat.ltb_lt, Ho.
  - intros (o & Hin & Ho). exists o. split; [apply list_elem_of_In, Hin|].
    apply Nat.ltb_lt, Ho.
Qed.

Lemma existsb_pointwise {A} (f g : A -> bool) (l : list A) :
  (forall x, f x = g x) -> existsb f l = existsb g l.
Proof. intros H. induction l as [|x l IH]; cbn; [reflexivity|]. rewrite H, IH. reflexivity. Qed.

Lemma poll_run_reachable s sa sn wa w :
  reachable s -> heap s !! sa = Some (CSensor sn) -> heap s !! wa = Some (CWorld w) ->
  poll (Some sa) (Some wa) s
  = Ok (existsb (touches (heap s) sa) (gh_overlappingObjects (sensor_body sn)),
        mkState (heap s) (next s)
                (trace s ++ map (EvContactPairTest (SensorBodyOf sa))
                                (gh_overlappingObjects (sensor_body sn)))).
Proof.
  intros Hreach Hs Hw.
  pose proof (reachable_good s Hreach sa (CSensor sn) Hs) as Hz. cbn in Hz.
  destruct s as [h n t]. cbn [heap next trace] in *.
  rewrite (poll_run h n t wa w sa sn Hw Hs). rewrite Hz.
  rewrite <- Hz at 3. rewrite with_occluded_id, (insert_id h sa _ Hs).
  destruct (existsb _ _); reflexivity.
Qed.

(** C3.  For a sensor in a reachable state, [poll] returns true exactly
    when one of the overlapping objects has a contact with it; it runs one
    contact test per overlapping object, in order, and leaves the
    occlusion word at zero.  With no overlapping object it returns false
    and runs no contact test.  Whatever the word was, a poll that returns
    leaves it cleared. *)
Theorem poll_reports_contacts (s : state) (sa : addr) (sn : entity_jump_sensor)
    (wa : addr) (w : dynworld) :
  reachable s -> heap s !! sa = Some (CSensor sn) -> heap s !! wa = Some (CWorld w) ->
  (exists b s',
     poll (Some sa) (Some wa) s = Ok (b, s') /\
     (b = true <->
      exists o, o ∈ gh_overlappingObjects (sensor_body sn) /\
                (0 < contactPoints (heap s) (SensorBodyOf sa) o)%nat) /\
     heap s' !! sa = Some (CSensor (with_occluded sn 0)) /\
     trace s' = trace s ++ map (EvContactPairTest (SensorBodyOf sa))
                               (gh_overlappingObjects (sensor_body sn)) /\
     (gh_overlappingObjects (sensor_body sn) = [] -> b = false /\ trace s' = trace s)) /\
  (forall s0 p world b s',
     poll p world s0 = Ok (b, s') ->
     exists a x, p = Some a /\ heap s' !! a = Some (CSensor x) /\ occluded x = 0%Z).
Proof.
  intros Hreach Hs Hw. split.
  - eexists _, _. split; [eapply poll_run_reachable; eassumption|].
    split; [apply existsb_touches|]. cbn [heap trace].
    pose proof (reachable_good s Hreach sa (CSensor sn) Hs) as Hz. cbn in Hz.
    split; [rewrite <- Hz, with_occluded_id; exact Hs|].
    split; [reflexivity|].
    intros ->. cbn. rewrite app_nil_r. auto.
  - intros s0 p world b s' Hp.
    apply poll_inv in Hp as (a & x & -> & _ & Hh & _).
    exists a, (with_occluded x 0). split; [reflexivity|].
    rewrite Hh, lookup_insert_eq. auto.
Qed.

(** C10.  The occlusion word of every sensor is zero between calls: it
    is zero in a new sensor and in every state the host can reach, where
    only the callback inside [poll] has written it and [poll] has reset it.
    So the result of a poll is determined by the contacts found during
    that poll: two sensors with the same overlap list and the same
    contacts poll alike, whatever their histories. *)
Theorem occluded_zero_between_polls (s1 s2 : state) (sa : addr)
    (sn1 sn2 : entity_jump_sensor) (wa : addr) (w1 w2 : dynworld) (hd : btVector3) :
  reachable s1 -> reachable s2 ->
  heap s1 !! sa = Some (CSensor sn1) -> heap s2 !! sa = Some (CSensor sn2) ->
  heap s1 !! wa = Some (CWorld w1) -> heap s2 !! wa = Some (CWorld w2) ->
  occluded (new_entity_jump_sensor hd) = 0%Z /\
  occluded sn1 = 0%Z /\
  (exists b s1', poll (Some sa) (Some wa) s1 = Ok (b, s1') /\
                 heap s1' !! sa = Some (CSensor sn1) /\
                 b = existsb (touches (heap s1) sa) (gh_overlappingObjects (sensor_body sn1))) /\
  (gh_overlappingObjects (sensor_body sn1) = gh_overlappingObjects (sensor_body sn2) ->
   (forall o, touches (heap s1) sa o = touches (heap s2) sa o) ->
   exists b s1' s2', poll (Some sa) (Some wa) s1 = Ok (b, s1') /\
                     poll (Some sa) (Some wa) s2 = Ok (b, s2')).
Proof.
  intros R1 R2 Hs1 Hs2 Hw1 Hw2.
  split; [reflexivity|].
  split; [exact (reachable_good s1 R1 sa (CSensor sn1) Hs1)|].
  split.
  - eexists _, _. split; [eapply poll_run_reachable; eassumption|].
    split; [exact Hs1|reflexivity].
  - intros Hov Htouch.
    rewrite (poll_run_reachable s1 sa sn1 wa w1 R1 Hs1 Hw1).
    rewrite (poll_run_reachable s2 sa sn2 wa w2 R2 Hs2 Hw2).
    rewrite <- Hov.
    rewrite (existsb_pointwise (touches (heap s2) sa) (touches (heap s1) sa))
      by (intros; auto).
    eexists _, _, _. split; reflexivity.
Qed.

(** ** Running [slab_collider_update] *)

Lemma new_run c h n t :
  new c (mkState h n t) = Ok (n, mkState (<[n := c]> h) (S n) (t ++ [EvNew n])).
Proof. reflexivity. Qed.

Lemma log_run e h n t : log e (mkState h n t) = Ok (tt, mkState h n (t ++ [e])).
Proof. reflexivity. Qed.

Lemma store_run' a c c0 h n t :
  h !! a = Some c0 -> store a c (mkState h n t) = Ok (tt, mkState (<[a := c]> h) n t).
Proof. intros H. unfold store. cbn [heap]. rewrite H. reflexivity. Qed.

Lemma free_run' a c0 h n t :
  h !! a = Some c0 ->
  free a (mkState h n t) = Ok (tt, mkState (delete a h) n (t ++ [EvDelete a])).
Proof. intros H. unfold free. cbn [heap]. rewrite H. reflexivity. Qed.

Lemma copy_n_run {A} (l : list A) k s :
  (k <= length l)%nat -> copy_n l k s = Ok (take k l, s).
Proof.
  intros H. unfold copy_n. destruct (k <=? length l)%nat eqn:E; [reflexivity|].
  apply Nat.leb_gt in E. lia.
Qed.

(** Cells of different kinds sit at different addresses. *)
Ltac distinct :=
  repeat match goal with
    | H1 : ?h !! ?x = Some ?c1, H2 : ?h !! ?y = Some ?c2 |- _ =>
        lazymatch goal with
        | _ : x <> y |- _ => fail
        | _ => assert (x <> y) by congruence
        end
    end.

Ltac below :=
  repeat match goal with
    | Hb : heap_below ?h ?n, H : ?h !! ?x = Some _ |- _ =>
        lazymatch goal with
        | _ : (x < n)%nat |- _ => fail
        | _ => pose proof (Hb _ _ H)
        end
    end.

(** Two addresses differ: by a fact at hand, or by the allocator's bound. *)
Ltac ne_solve :=
  first
    [ assumption
    | repeat match goal with H : _ <> _ |- _ => clear H end; lia ].

Ltac lookup_solve :=
  cbn [heap];
  repeat first
    [ rewrite lookup_insert_eq
    | rewrite lookup_insert_ne by ne_solve
    | rewrite lookup_delete_ne by ne_solve ];
  first [eassumption | reflexivity].

Ltac mstep :=
  first
    [ erewrite bind_Ok by (apply new_run)
    | erewrite bind_Ok by (apply log_run)
    | erewrite bind_Ok by (apply load_world_run; lookup_solve)
    | erewrite bind_Ok by (apply load_slab_run; lookup_solve)
    | erewrite bind_Ok by (apply load_run; lookup_solve)
    | erewrite bind_Ok by (eapply store_run'; lookup_solve)
    | erewrite bind_Ok by (eapply free_run'; lookup_solve)
    | erewrite bind_Ok by (apply copy_n_run; assumption) ].

Lemma addCollisionObject_run h n t wa w o group mask :
  h !! wa = Some (CWorld w) ->
  addCollisionObject (Some wa) o group mask (mkState h n t)
  = Ok (tt, mkState
              (<[wa := CWorld (set_collisionObjects w
                   (collisionObjects (dynamicsWorld w) ++ [mkReg o group mask]))]> h)
              n (t ++ [EvAddObject o group mask])).
Proof.
  intros Hw. unfold addCollisionObject. cbn [store_ptr].
  do 2 mstep. reflexivity.
Qed.

Lemma removeRigidBody_run h n t wa w b cb :
  h !! wa = Some (CWorld w) -> h !! b = Some cb ->
  removeRigidBody (Some wa) (Some b) (mkState h n t)
  = Ok (tt, mkState
              (<[wa := CWorld (set_collisionObjects w
                   (filter (fun r => reg_obj r <> RigidBodyAt b)
                           (collisionObjects (dynamicsWorld w))))]> h)
              n (t ++ [EvRemoveObject (RigidBodyAt b)])).
Proof.
  intros Hw Hb. unfold removeRigidBody. cbn [store_ptr].
  do 3 mstep. reflexivity.
Qed.

Ltac gone_solve :=
  cbn [heap];
  repeat first
    [ rewrite lookup_insert_ne by ne_solve
    | rewrite lookup_delete_ne by ne_solve ];
  apply lookup_delete_eq.

Lemma heap_below_insert h k i x :
  heap_below h k -> (i < k)%nat -> heap_below (<[i := x]> h) k.
Proof.
  intros Hh Hi a c. rewrite lookup_insert.
  destruct (decide (i = a)); [intros _; lia|apply Hh].
Qed.

Lemma heap_below_delete h k i : heap_below h k -> heap_below (delete i h) k.
Proof.
  intros Hh a c H. apply lookup_delete_Some in H as [_ H]. exact (Hh a c H).
Qed.

Lemma heap_below_mono h k k' : heap_below h k -> (k <= k')%nat -> heap_below h k'.
Proof. intros Hh Hk a c H. apply Hh in H. lia. Qed.

Ltac heap_below_solve :=
  repeat first
    [ apply heap_below_insert; [|ne_solve]
    | apply heap_below_delete ];
  eapply heap_below_mono; [eassumption|lia].

Lemma delete_slab_run h n t p b m sh v i rb ms msh vs ixs :
  h !! p = Some (CSlab (mkSlab (Some b) (Some m) (Some sh) (Some v) (Some i))) ->
  h !! b = Some (CRigidBody rb) -> h !! m = Some (CMesh ms) ->
  h !! sh = Some (CMeshShape msh) -> h !! v = Some (CFloats vs) ->
  h !! i = Some (CIndices ixs) ->
  delete_slab (Some p) (mkState h n t)
  = Ok (tt, mkState (delete p (delete b (delete m (delete sh (delete v (delete i h))))))
                    n
                    (t ++ [EvDelete i; EvDelete v; EvDelete sh; EvDelete m; EvDelete b;
                           EvDelete p])).
Proof.
  intros Hp Hb Hm Hsh Hv Hi. distinct.
  unfold delete_slab. mstep.
  cbn [indices vertices shape mesh slab_body delete_ptr].
  do 5 mstep. erewrite free_run' by lookup_solve.
  rewrite <- !app_assoc. reflexivity.
Qed.

(** The state a replacing update ends in, fact by fact. *)
Lemma slab_update_replace_run h n t wa w p q rb ms msh vs ixs x :
  heap_below h n ->
  h !! wa = Some (CWorld w) ->
  h !! p = Some (CSlab (mkSlab (Some (part_body q)) (Some (part_mesh q))
                               (Some (part_shape q)) (Some (part_vertices q))
                               (Some (part_indices q)))) ->
  h !! part_body q = Some (CRigidBody rb) -> h !! part_mesh q = Some (CMesh ms) ->
  h !! part_shape q = Some (CMeshShape msh) -> h !! part_vertices q = Some (CFloats vs) ->
  h !! part_indices q = Some (CIndices ixs) ->
  mesh_ok x ->
  exists h' rb',
    slab_update (Some wa) (Some p) x (mkState h n t)
    = Ok (Some (S (S n)),
          mkState h' (S (S (S (S (S (S n))))))
            (t ++ [EvNew n; EvNew (S n);
                   EvRemoveObject (RigidBodyAt (part_body q));
                   EvDelete (part_indices q); EvDelete (part_vertices q);
                   EvDelete (part_shape q); EvDelete (part_mesh q);
                   EvDelete (part_body q); EvDelete p;
                   EvNew (S (S n)); EvNew (S (S (S n))); EvNew (S (S (S (S n))));
                   EvNew (S (S (S (S (S n)))));
                   EvAddObject (RigidBodyAt (S (S (S (S (S n)))))) COL_WORLD COLMASK_WORLD])) /\
    h' !! S (S n) = Some (CSlab (mkSlab (Some (S (S (S (S (S n)))))) (Some (S (S (S n))))
                                        (Some (S (S (S (S n))))) (Some n) (Some (S n)))) /\
    h' !! S (S (S (S (S n)))) = Some (CRigidBody rb') /\
    h' !! S (S (S n))
    = Some (CMesh [mkIndexedMesh (Z.quot (to_int (in_indices_count x)) 3) (Some (S n)) 12
                                 (to_int (in_vertices_count x)) (Some n) 12]) /\
    h' !! S (S (S (S n))) = Some (CMeshShape (Some (S (S (S n))))) /\
    h' !! n = Some (CFloats (take (in_vertices_count x * 3) (in_vertices x))) /\
    h' !! S n = Some (CIndices (take (in_indices_count x) (in_indices x))) /\
    h' !! wa = Some (CWorld (set_collisionObjects w
                 (filter (fun r => reg_obj r <> RigidBodyAt (part_body q))
                         (collisionObjects (dynamicsWorld w))
                  ++ [mkReg (RigidBodyAt (S (S (S (S (S n)))))) COL_WORLD COLMASK_WORLD]))) /\
    h' !! p = None /\ h' !! part_body q = None /\ h' !! part_mesh q = None /\
    h' !! part_shape q = None /\ h' !! part_vertices q = None /\
    h' !! part_indices q = None /\
    heap_below h' (S (S (S (S (S (S n)))))).
Proof.
  intros Hbelow Hw Hp Hb Hm Hsh Hv Hi [Hvs Hixs].
  destruct q as [b m sh v i]. cbn [part_body part_mesh part_shape part_vertices part_indices] in *.
  distinct. below.
  eexists _, _. split.
  { unfold slab_update, slab_collider_update.
    do 4 mstep.
    erewrite bind_Ok
      by (erewrite bind_Ok by (apply load_slab_run; lookup_solve);
          cbn [slab_body]; eapply removeRigidBody_run; lookup_solve).
    erewrite bind_Ok by (eapply (delete_slab_run _ _ _ p b m sh v i); lookup_solve).
    do 9 mstep.
    erewrite bind_Ok by (eapply addCollisionObject_run; lookup_solve).
    mstep. cbn [mret M_ret]. rewrite <- !app_assoc. reflexivity. }
  repeat split; try lookup_solve; try gone_solve.
  heap_below_solve.
Qed.

(** The state a first update ends in. *)
Lemma slab_update_fresh_run h n t wa w x :
  heap_below h n -> h !! wa = Some (CWorld w) -> mesh_ok x ->
  exists h' rb',
    slab_update (Some wa) None x (mkState h n t)
    = Ok (Some (S (S n)),
          mkState h' (S (S (S (S (S (S n))))))
            (t ++ [EvNew n; EvNew (S n);
                   EvNew (S (S n)); EvNew (S (S (S n))); EvNew (S (S (S (S n))));
                   EvNew (S (S (S (S (S n)))));
                   EvAddObject (RigidBodyAt (S (S (S (S (S n)))))) COL_WORLD COLMASK_WORLD])) /\
    h' !! S (S n) = Some (CSlab (mkSlab (Some (S (S (S (S (S n)))))) (Some (S (S (S n))))
                                        (Some (S (S (S (S n))))) (Some n) (Some (S n)))) /\
    h' !! S (S (S (S (S n)))) = Some (CRigidBody rb') /\
    h' !! S (S (S n))
    = Some (CMesh [mkIndexedMesh (Z.quot (to_int (in_indices_count x)) 3) (Some (S n)) 12
                                 (to_int (in_vertices_count x)) (Some n) 12]) /\
    h' !! S (S (S (S n))) = Some (CMeshShape (Some (S (S (S n))))) /\
    h' !! n = Some (CFloats (take (in_vertices_count x * 3) (in_vertices x))) /\
    h' !! S n = Some (CIndices (take (in_indices_count x) (in_indices x))) /\
    h' !! wa = Some (CWorld (set_collisionObjects w
                 (collisionObjects (dynamicsWorld w)
                  ++ [mkReg (RigidBodyAt (S (S (S (S (S n)))))) COL_WORLD COLMASK_WORLD]))) /\
    heap_below h' (S (S (S (S (S (S n)))))).
Proof.
  intros Hbelow Hw [Hvs Hixs]. below.
  eexists _, _. split.
  { unfold slab_update, slab_collider_update, delete_slab.
    do 4 mstep. rewrite bind_run. cbn [mret M_ret]. rewrite bind_run. cbn [mret M_ret].
    do 9 mstep.
    erewrite bind_Ok by (eapply addCollisionObject_run; lookup_solve).
    mstep. cbn [mret M_ret]. rewrite <- !app_assoc. reflexivity. }
  repeat split; try lookup_solve.
  heap_below_solve.
Qed.

(** ** Counting slab bodies *)

Lemma filter_none_keeps_all {A} (Q : A -> Prop) `{!forall x, Decision (Q x)} (l : list A) :
  filter Q l = [] -> filter (fun x => ~ Q x) l = l.
Proof.
  induction l as [|x l IH]; [reflexivity|].
  destruct (decide (Q x)) as [HQ|HQ].
  - rewrite (filter_cons_True Q) by exact HQ. discriminate.
  - rewrite (filter_cons_False Q) by exact HQ. intros Hl.
    rewrite filter_cons_True by exact HQ. rewrite IH by exact Hl. reflexivity.
Qed.

Lemma filter_all_out {A} (Q : A -> Prop) `{!forall x, Decision (Q x)} (l : list A) :
  (forall x, x ∈ l -> ~ Q x) -> filter Q l = [].
Proof.
  induction l as [|x l IH]; intros Hl; [reflexivity|].
  rewrite filter_cons_False by (apply Hl; left).
  apply IH. intros y Hy. apply Hl. right. exact Hy.
Qed.

Lemma filter_out_one {A} (P Q : A -> Prop) `{!forall x, Decision (P x)}
    `{!forall x, Decision (Q x)} (l : list A) (r0 : A) :
  filter Q l = [r0] -> P r0 ->
  S (length (filter P (filter (fun x => ~ Q x) l))) = length (filter P l).
Proof.
  induction l as [|x l IH]; [discriminate|].
  intros HQ HP. destruct (decide (Q x)) as [Hx|Hx].
  - rewrite (filter_cons_True Q) in HQ by exact Hx. injection HQ as -> HQ.
    rewrite (filter_cons_False (fun x => ~ Q x)) by tauto.
    rewrite (filter_none_keeps_all Q l HQ).
    rewrite (filter_cons_True P) by exact HP. reflexivity.
  - rewrite (filter_cons_False Q) in HQ by exact Hx.
    rewrite (filter_cons_True (fun x => ~ Q x)) by exact Hx.
    destruct (decide (P x)) as [Px|Px].
    + rewrite !(filter_cons_True P) by exact Px. cbn [length]. rewrite IH by assumption.
      reflexivity.
    + rewrite !(filter_cons_False P) by exact Px. apply IH; assumption.
Qed.

Lemma registered_slabs_world h n t wa w :
  h !! wa = Some (CWorld w) -> registered_slabs (mkState h n t) wa = length (slab_bodies w).
Proof. intros H. unfold registered_slabs. cbn [heap]. rewrite H. reflexivity. Qed.

Lemma slab_bodies_add w l b :
  slab_bodies (set_collisionObjects w (l ++ [mkReg (RigidBodyAt b) COL_WORLD COLMASK_WORLD]))
  = filter (fun r => reg_group r = COL_WORLD) l
    ++ [mkReg (RigidBodyAt b) COL_WORLD COLMASK_WORLD].
Proof.
  unfold slab_bodies. cbn [set_collisionObjects set_dynamicsWorld dynamicsWorld collisionObjects].
  rewrite filter_app. reflexivity.
Qed.

(** A body at a new address is registered once after it is added. *)
Lemma registered_once l b k :
  (forall r a, r ∈ l -> reg_obj r = RigidBodyAt a -> (a < k)%nat) -> (k <= b)%nat ->
  filter (fun r => reg_obj r = RigidBodyAt b)
         (l ++ [mkReg (RigidBodyAt b) COL_WORLD COLMASK_WORLD])
  = [mkReg (RigidBodyAt b) COL_WORLD COLMASK_WORLD].
Proof.
  intros Hl Hb. rewrite filter_app.
  replace (filter (fun r => reg_obj r = RigidBodyAt b) l) with (@nil registration).
  - cbn [app]. rewrite filter_cons_True by reflexivity. reflexivity.
  - symmetry. apply filter_all_out. intros r Hr Heq.
    pose proof (Hl r b Hr Heq). lia.
Qed.

(** ** One update, in terms of the world *)

Lemma slab_update_first s wa x :
  world_ok s wa -> mesh_ok x ->
  exists p q s',
    slab_update (Some wa) None x s = Ok (Some p, s') /\
    live_slab s' wa p q /\ world_ok s' wa /\
    registered_slabs s' wa = S (registered_slabs s wa).
Proof.
  intros [Hbelow (w & Hw & Hregs)] Hx. destruct s as [h n t]. cbn [heap next] in *.
  destruct (slab_update_fresh_run h n t wa w x Hbelow Hw Hx)
    as (h' & rb' & Hrun & Hp & Hb & Hm & Hsh & Hv & Hi & Hw' & Hbelow').
  exists (S (S n)), (mkParts (S (S (S (S (S n))))) (S (S (S n))) (S (S (S (S n)))) n (S n)).
  eexists. split; [exact Hrun|].
  assert (Hnew : forall r a, r ∈ collisionObjects (dynamicsWorld w)
                   ++ [mkReg (RigidBodyAt (S (S (S (S (S n)))))) COL_WORLD COLMASK_WORLD] ->
                   reg_obj r = RigidBodyAt a -> (a < S (S (S (S (S (S n))))))%nat).
  { intros r a Hr Ha. apply elem_of_app in Hr as [Hr|Hr].
    - pose proof (Hregs r a Hr Ha). lia.
    - apply list_elem_of_singleton in Hr. subst r. injection Ha as <-. lia. }
  split; [|split].
  - do 6 eexists. cbn [heap part_body part_mesh part_shape part_vertices part_indices].
    repeat (split; [eassumption|]).
    cbn [set_collisionObjects set_dynamicsWorld dynamicsWorld collisionObjects].
    apply (registered_once _ _ n); [exact Hregs|lia].
  - split; [exact Hbelow'|]. eexists. split; [exact Hw'|exact Hnew].
  - rewrite (registered_slabs_world _ _ _ _ _ Hw'), (registered_slabs_world _ _ _ _ _ Hw).
    rewrite slab_bodies_add, length_app. cbn [length]. unfold slab_bodies. lia.
Qed.

Lemma slab_update_next s wa p q x :
  world_ok s wa -> live_slab s wa p q -> mesh_ok x ->
  exists p' q' s',
    slab_update (Some wa) (Some p) x s = Ok (Some p', s') /\
    slab_gone s' wa p q /\ live_slab s' wa p' q' /\ world_ok s' wa /\
    registered_slabs s' wa = registered_slabs s wa /\
    trace s' = trace s
      ++ [EvNew (part_vertices q'); EvNew (part_indices q')]
      ++ [EvRemoveObject (RigidBodyAt (part_body q));
          EvDelete (part_indices q); EvDelete (part_vertices q);
          EvDelete (part_shape q); EvDelete (part_mesh q);
          EvDelete (part_body q); EvDelete p]
      ++ [EvNew p'; EvNew (part_mesh q'); EvNew (part_shape q'); EvNew (part_body q');
          EvAddObject (RigidBodyAt (part_body q')) COL_WORLD COLMASK_WORLD].
Proof.
  intros [Hbelow (w & Hw & Hregs)] Hlive Hx. destruct s as [h n t]. cbn [heap next trace] in *.
  destruct Hlive as (rb & ms & msh & vs & ixs & w0 & Hp & Hb & Hm & Hsh & Hv & Hi & Hw0 & Honce).
  cbn [heap] in *. rewrite Hw in Hw0. injection Hw0 as <-.
  destruct (slab_update_replace_run h n t wa w p q rb ms msh vs ixs x
              Hbelow Hw Hp Hb Hm Hsh Hv Hi Hx)
    as (h' & rb' & Hrun & Hp' & Hb' & Hm' & Hsh' & Hv' & Hi' & Hw' &
        Gp & Gb & Gm & Gsh & Gv & Gi & Hbelow').
  pose proof (Hbelow _ _ Hb) as Hbn.
  set (kept := filter (fun r => reg_obj r <> RigidBodyAt (part_body q))
                      (collisionObjects (dynamicsWorld w))) in *.
  assert (Hkept : forall r, r ∈ kept ->
            r ∈ collisionObjects (dynamicsWorld w) /\ reg_obj r <> RigidBodyAt (part_body q)).
  { intros r Hr. apply list_elem_of_filter in Hr. tauto. }
  exists (S (S n)), (mkParts (S (S (S (S (S n))))) (S (S (S n))) (S (S (S (S n)))) n (S n)).
  eexists. split; [exact Hrun|].
  cbn [heap next trace part_body part_mesh part_shape part_vertices part_indices].
  split; [|split; [|split; [|split]]].
  - unfold slab_gone. cbn [heap]. repeat (split; [assumption|]).
    intros w1 Hw1 r Hr. rewrite Hw' in Hw1. injection Hw1 as <-.
    cbn [set_collisionObjects set_dynamicsWorld dynamicsWorld collisionObjects] in Hr.
    apply elem_of_app in Hr as [Hr|Hr].
    + apply Hkept, Hr.
    + apply list_elem_of_singleton in Hr. subst r. cbn. intros [= E]. lia.
  - do 6 eexists. cbn [heap part_body part_mesh part_shape part_vertices part_indices].
    repeat (split; [eassumption|]).
    cbn [set_collisionObjects set_dynamicsWorld dynamicsWorld collisionObjects].
    apply (registered_once _ _ n); [|lia].
    intros r a Hr. apply Hregs, Hkept, Hr.
  - split; [exact Hbelow'|]. eexists. split; [exact Hw'|].
    cbn [set_collisionObjects set_dynamicsWorld dynamicsWorld collisionObjects next].
    intros r a Hr Ha. apply elem_of_app in Hr as [Hr|Hr].
    + apply Hkept in Hr as [Hr _]. pose proof (Hregs r a Hr Ha). lia.
    + apply list_elem_of_singleton in Hr. subst r. injection Ha as <-. lia.
  - rewrite (registered_slabs_world _ _ _ _ _ Hw'), (registered_slabs_world _ _ _ _ _ Hw).
    rewrite slab_bodies_add, length_app. cbn [length]. unfold slab_bodies, kept.
    rewrite <- (filter_out_one (fun r => reg_group r = COL_WORLD)
                  (fun r => reg_obj r = RigidBodyAt (part_body q))
                  (collisionObjects (dynamicsWorld w)) _ Honce eq_refl).
    lia.
  - reflexivity.
Qed.

Lemma slab_chain_next inputs : forall s wa p q,
  world_ok s wa -> live_slab s wa p q -> Forall mesh_ok inputs ->
  exists p' q' s',
    slab_chain (Some wa) (Some p) inputs s = Ok (Some p', s') /\
    live_slab s' wa p' q' /\ world_ok s' wa /\
    registered_slabs s' wa = registered_slabs s wa.
Proof.
  induction inputs as [|x inputs IH]; intros s wa p q Hok Hlive Hall.
  - exists p, q, s. cbn. auto.
  - apply Forall_cons in Hall as [Hx Hall].
    destruct (slab_update_next s wa p q x Hok Hlive Hx)
      as (p1 & q1 & s1 & Hrun & _ & Hlive1 & Hok1 & Hcount & _).
    destruct (IH s1 wa p1 q1 Hok1 Hlive1 Hall) as (p2 & q2 & s2 & Hrun2 & Hlive2 & Hok2 & Hc2).
    exists p2, q2, s2. cbn [slab_chain]. rewrite (bind_Ok _ _ _ _ _ Hrun).
    split; [exact Hrun2|]. split; [exact Hlive2|]. split; [exact Hok2|]. congruence.
Qed.

(** [dynworld_create] written out: the storage of the world, then the
    six objects of its constructor. *)
Lemma dynworld_create_run g h n t :
  dynworld_create g (mkState h n t)
  = Ok (Some n,
        mkState (<[n := CWorld (world_at n g)]>
                 (<[(6 + n)%nat := CBullet BtGhostPairCallback]>
                  (<[(5 + n)%nat := CBullet (BtDiscreteDynamicsWorld
                                      (Some (2 + n)%nat) (Some (3 + n)%nat)
                                      (Some (4 + n)%nat) (Some (1 + n)%nat))]>
                   (<[(4 + n)%nat := CBullet BtSequentialImpulseConstraintSolver]>
                    (<[(3 + n)%nat := CBullet BtDbvtBroadphase]>
                     (<[(2 + n)%nat := CBullet (BtCollisionDispatcher (Some (1 + n)%nat))]>
                      (<[(1 + n)%nat := CBullet BtDefaultCollisionConfiguration]>
                       (<[n := CWorld dynworld_raw]> h))))))))
                (7 + n)
                (t ++ [EvNew n; EvNew (1 + n)%nat; EvNew (2 + n)%nat; EvNew (3 + n)%nat;
                       EvNew (4 + n)%nat; EvNew (5 + n)%nat; EvNew (6 + n)%nat])).
Proof.
  unfold dynworld_create, dynworld_ctor.
  repeat (rewrite ?bind_assoc_run; mstep).
  unfold mret, M_ret. rewrite <- !app_assoc. reflexivity.
Qed.

Lemma world_ok_created g :
  exists wa s, dynworld_create g initial_state = Ok (Some wa, s) /\
               world_ok s wa /\ registered_slabs s wa = 0%nat.
Proof.
  exists 0%nat. eexists. split; [apply dynworld_create_run|].
  assert (Hempty : heap_below (∅ : gmap addr cell) 0).
  { intros a c H. rewrite lookup_empty in H. discriminate. }
  split; [split|].
  - cbn [heap next]. heap_below_solve.
  - eexists. split; [cbn [heap]; apply lookup_insert_eq|].
    intros r b Hr. cbn in Hr. inversion Hr.
  - unfold registered_slabs. cbn [heap]. rewrite lookup_insert_eq. reflexivity.
Qed.

(** ** Every call keeps the allocator ahead of the store *)

Lemma regs_below_mono k k' c : regs_below k c -> (k <= k')%nat -> regs_below k' c.
Proof.
  destruct c; cbn; auto. intros H Hk r b Hr Hb. pose proof (H r b Hr Hb). lia.
Qed.

Lemma store_ok_insert h n t a c n' t' :
  store_ok (mkState h n t) -> (n <= n')%nat -> (a < n')%nat -> regs_below n' c ->
  store_ok (mkState (<[a := c]> h) n' t').
Proof.
  intros [Hb Hr] Hn Ha Hc. cbn [heap next] in *. split; cbn [heap next].
  - apply heap_below_insert; [eapply heap_below_mono; eassumption|exact Ha].
  - intros a' c' H. apply lookup_insert_Some in H as [[_ <-]|[_ H]]; [exact Hc|].
    eapply regs_below_mono; [eapply Hr, H|exact Hn].
Qed.

Lemma store_ok_delete h n t a t' :
  store_ok (mkState h n t) -> store_ok (mkState (delete a h) n t').
Proof.
  intros [Hb Hr]. cbn [heap next] in *. split; cbn [heap next].
  - apply heap_below_delete, Hb.
  - intros a' c' H. apply lookup_delete_Some in H as [_ H]. eapply Hr, H.
Qed.

Lemma tracks_ret {A} k (a : A) (phi : A -> addr -> Prop) :
  (forall k', (k <= k')%nat -> phi a k') -> tracks k (mret a) phi.
Proof. intros Ha s Hs Hk. cbn. auto. Qed.

Lemma tracks_fail {A} k e (phi : A -> addr -> Prop) : tracks k (fail e) phi.
Proof. intros s Hs Hk. exact I. Qed.

Lemma tracks_bind {A C} k (m : M A) (f : A -> M C) (psi : A -> addr -> Prop)
    (phi : C -> addr -> Prop) :
  tracks k m psi ->
  (forall a k', (k <= k')%nat -> psi a k' -> tracks k' (f a) phi) ->
  tracks k (m ≫= f) phi.
Proof.
  intros Hm Hf s Hs Hk. rewrite bind_run. specialize (Hm s Hs Hk).
  destruct (m s) as [[a s1]|e]; [|exact I].
  destruct Hm as (H1 & Hn & Ha).
  assert (Hk1 : (k <= next s1)%nat) by lia.
  specialize (Hf a (next s1) Hk1 Ha s1 H1 (Nat.le_refl _)).
  destruct (f a s1) as [[c s2]|e]; [|exact I].
  destruct Hf as (H2 & Hn2 & Hc). split; [exact H2|]. split; [lia|exact Hc].
Qed.

Lemma tracks_log k e : tracks k (log e) (fun _ _ => True).
Proof. intros [h n t] Hs Hk. cbn. split; [exact Hs|]. auto. Qed.

Lemma tracks_get_heap k : tracks k get_heap (fun _ _ => True).
Proof. intros s Hs Hk. cbn. auto. Qed.

Lemma tracks_copy_n {A} k (l : list A) n : tracks k (copy_n l n) (fun _ _ => True).
Proof.
  unfold copy_n. destruct (n <=? length l)%nat; [apply tracks_ret; auto|apply tracks_fail].
Qed.

Lemma tracks_new k c :
  (forall k', (k <= k')%nat -> regs_below k' c) ->
  tracks k (new c) (fun a k' => (a < k')%nat).
Proof.
  intros Hc [h n t] Hs Hk. cbn [new heap next trace]. cbn [next] in Hk.
  split; [|split; [lia|lia]].
  apply (store_ok_insert h n t); [exact Hs|lia|lia|]. apply Hc. lia.
Qed.

Lemma tracks_load k p : tracks k (load p) (fun c k' => regs_below k' c).
Proof.
  intros s [Hb Hr] Hk. unfold load. destruct p as [a|]; [|exact I].
  destruct (heap s !! a) as [c|] eqn:E; [|exact I].
  split; [split; assumption|]. split; [lia|]. eapply Hr, E.
Qed.

Lemma tracks_load_world k p :
  tracks k (load_world p) (fun w k' => regs_below k' (CWorld w)).
Proof.
  eapply tracks_bind; [apply tracks_load|]. intros c k' Hk Hc.
  destruct c; try apply tracks_fail. apply tracks_ret. intros k2 Hk2.
  eapply regs_below_mono; eassumption.
Qed.

Lemma tracks_load_renderer k p : tracks k (load_renderer p) (fun _ _ => True).
Proof.
  eapply tracks_bind; [apply tracks_load|]. intros c k' Hk Hc.
  destruct c; try apply tracks_fail. apply tracks_ret. auto.
Qed.

Lemma tracks_load_slab k p : tracks k (load_slab p) (fun _ _ => True).
Proof.
  eapply tracks_bind; [apply tracks_load|]. intros c k' Hk Hc.
  destruct c; try apply tracks_fail. apply tracks_ret. auto.
Qed.

Lemma tracks_load_entity k p : tracks k (load_entity p) (fun _ _ => True).
Proof.
  eapply tracks_bind; [apply tracks_load|]. intros c k' Hk Hc.
  destruct c; try apply tracks_fail. apply tracks_ret. auto.
Qed.

Lemma tracks_load_sensor k p : tracks k (load_sensor p) (fun _ _ => True).
Proof.
  eapply tracks_bind; [apply tracks_load|]. intros c k' Hk Hc.
  destruct c; try apply tracks_fail. apply tracks_ret. auto.
Qed.

Lemma tracks_store k a c :
  (forall k', (k <= k')%nat -> regs_below k' c) -> tracks k (store a c) (fun _ _ => True).
Proof.
  intros Hc [h n t] Hs Hk. unfold store. cbn [heap next] in *.
  destruct (h !! a) as [c0|] eqn:E; [|exact I]. cbn [next].
  split; [|auto].
  apply (store_ok_insert h n t); [exact Hs|lia| |apply Hc, Hk].
  destruct Hs as [Hb _]. exact (Hb a c0 E).
Qed.

Lemma tracks_store_ptr k p c :
  (forall k', (k <= k')%nat -> regs_below k' c) -> tracks k (store_ptr p c) (fun _ _ => True).
Proof. intros Hc. destruct p; [apply tracks_store, Hc|apply tracks_fail]. Qed.

Lemma tracks_free k a : tracks k (free a) (fun _ _ => True).
Proof.
  intros [h n t] Hs Hk. unfold free. cbn [heap next] in *.
  destruct (h !! a); [|exact I]. cbn [next]. split; [|auto].
  eapply store_ok_delete, Hs.
Qed.

Lemma tracks_delete_ptr k p : tracks k (delete_ptr p) (fun _ _ => True).
Proof. destruct p; [apply tracks_free|apply tracks_ret; auto]. Qed.

Lemma tracks_for_each {A} (f : A -> M unit) (l : list A) : forall k,
  (forall x k', (k <= k')%nat -> tracks k' (f x) (fun _ _ => True)) ->
  tracks k (for_each f l) (fun _ _ => True).
Proof.
  induction l as [|x l IH]; intros k Hf; [apply tracks_ret; auto|].
  cbn [for_each]. eapply tracks_bind; [apply Hf; lia|].
  intros _ k' Hk _. apply IH. intros y k2 Hk2. apply Hf. lia.
Qed.

Lemma tracks_addCollisionObject k world o group mask :
  (forall a, o = RigidBodyAt a -> (a < k)%nat) ->
  tracks k (addCollisionObject world o group mask) (fun _ _ => True).
Proof.
  intros Ho. unfold addCollisionObject.
  eapply tracks_bind; [apply tracks_load_world|]. intros w k1 Hk1 Hw.
  eapply tracks_bind; [|intros; apply tracks_log].
  apply tracks_store_ptr. intros k2 Hk2 r b Hr Hb.
  cbn [set_collisionObjects set_dynamicsWorld dynamicsWorld collisionObjects] in Hr.
  apply elem_of_app in Hr as [Hr|Hr].
  - pose proof (Hw r b Hr Hb). lia.
  - apply list_elem_of_singleton in Hr. subst r. cbn in Hb. pose proof (Ho b Hb). lia.
Qed.

Lemma tracks_removeRigidBody k world body :
  tracks k (removeRigidBody world body) (fun _ _ => True).
Proof.
  unfold removeRigidBody.
  eapply tracks_bind; [apply tracks_load_world|]. intros w k1 Hk1 Hw.
  destruct body as [b|]; [|apply tracks_fail].
  eapply tracks_bind; [apply tracks_load|]. intros _ k2 Hk2 _.
  eapply tracks_bind; [|intros; apply tracks_log].
  apply tracks_store_ptr. intros k3 Hk3 r b' Hr Hb.
  cbn [set_collisionObjects set_dynamicsWorld dynamicsWorld collisionObjects] in Hr.
  apply list_elem_of_filter in Hr as [_ Hr]. pose proof (Hw r b' Hr Hb). lia.
Qed.

Create HintDb tracks discriminated.

#[local] Hint Resolve tracks_log tracks_get_heap tracks_load_world tracks_load_renderer
  tracks_load_slab tracks_load_entity tracks_load_sensor tracks_load tracks_free
  tracks_delete_ptr tracks_copy_n tracks_fail tracks_removeRigidBody : tracks.

Ltac side_regs :=
  intros;
  first
    [ exact I
    | let r := fresh in
      let b := fresh in
      let Hr := fresh in
      let Hb := fresh in
      cbn; intros r b Hr Hb;
      match goal with
      | H : regs_below _ (CWorld _) |- _ => pose proof (H r b Hr Hb)
      end;
      lia ].

Ltac side_fresh :=
  let a := fresh in
  let E := fresh in
  intros a E; first [discriminate E | injection E as <-; lia].

Ltac track_prim :=
  first
    [ apply tracks_addCollisionObject; solve [side_fresh]
    | apply tracks_new; solve [side_regs]
    | apply tracks_store; solve [side_regs]
    | apply tracks_store_ptr; solve [side_regs]
    | solve [eauto 3 with tracks] ].

Ltac track :=
  repeat lazymatch goal with
    | |- tracks _ (mret _) _ => apply tracks_ret; intros; exact I
    | |- tracks _ (_ ≫= _) _ => eapply tracks_bind; [|intros ? ? ? ?; cbv beta in *]
    | |- tracks _ (match ?x with _ => _ end) _ => destruct x
    | |- tracks _ _ _ => track_prim
    end.

Lemma tracks_setFrameBlob k this blob : tracks k (setFrameBlob this blob) (fun _ _ => True).
Proof. unfold setFrameBlob. track. Qed.

Lemma tracks_setDebugMode k this m : tracks k (setDebugMode this m) (fun _ _ => True).
Proof. unfold setDebugMode. track. Qed.

Lemma tracks_drawLine k this f t c : tracks k (drawLine this f t c) (fun _ _ => True).
Proof. unfold drawLine. track. Qed.

#[local] Hint Resolve tracks_setFrameBlob tracks_setDebugMode tracks_drawLine : tracks.

Lemma tracks_debugDrawWorld k world : tracks k (debugDrawWorld world) (fun _ _ => True).
Proof.
  unfold debugDrawWorld. track.
  apply tracks_for_each. intros; apply tracks_drawLine.
Qed.

#[local] Hint Resolve tracks_debugDrawWorld : tracks.

Lemma tracks_dynworld_create k g : tracks k (dynworld_create g) (fun _ _ => True).
Proof.
  assert (Hregs : forall w, collisionObjects (dynamicsWorld w) = [] ->
                            forall k1, (k <= k1)%nat -> regs_below k1 (CWorld w)).
  { intros w Hw k1 _ r b Hr. rewrite Hw in Hr. inversion Hr. }
  unfold dynworld_create, dynworld_ctor.
  eapply tracks_bind; [apply tracks_new, Hregs; reflexivity|]. intros world k1 Hk1 _.
  eapply tracks_bind; [|intros; apply tracks_ret; auto].
  repeat (eapply tracks_bind; [apply tracks_new; intros; exact I|intros ? ? ? _]).
  apply tracks_store. intros k2 Hk2 r b Hr. cbn in Hr. inversion Hr.
Qed.

Lemma tracks_dynworld_destroy k world : tracks k (dynworld_destroy world) (fun _ _ => True).
Proof.
  unfold dynworld_destroy. track.
  apply tracks_for_each. intros; apply tracks_delete_ptr.
Qed.

Lemma tracks_dynworld_set_debug_drawer k world f :
  tracks k (dynworld_set_debug_drawer world f) (fun _ _ => True).
Proof. unfold dynworld_set_debug_drawer. track. Qed.

Lemma tracks_dynworld_debug_draw k world blob :
  tracks k (dynworld_debug_draw world blob) (fun _ _ => True).
Proof. unfold dynworld_debug_draw. track. Qed.

Lemma tracks_delete_slab k p : tracks k (delete_slab p) (fun _ _ => True).
Proof. unfold delete_slab. track. Qed.

#[local] Hint Resolve tracks_delete_slab : tracks.

Lemma tracks_slab_collider_update k world prev pos vs vn ixs ixn :
  tracks k (slab_collider_update world prev pos vs vn ixs ixn) (fun _ _ => True).
Proof. unfold slab_collider_update. track. Qed.

Lemma tracks_apply_effect k e : tracks k (apply_effect e) (fun _ _ => True).
Proof. unfold apply_effect. track. Qed.

Lemma tracks_dynworld_step k world e f effects :
  tracks k (dynworld_step world e f effects) (fun _ _ => True).
Proof.
  unfold dynworld_step. track. apply tracks_for_each. intros; apply tracks_apply_effect.
Qed.

Lemma tracks_dynworld_step_render_only k world e effects :
  tracks k (dynworld_step_render_only world e effects) (fun _ _ => True).
Proof.
  unfold dynworld_step_render_only. track.
  apply tracks_for_each. intros; apply tracks_apply_effect.
Qed.

Lemma tracks_sensor_update k this hd bt :
  tracks k (sensor_update_jump_sensor_transform this hd bt) (fun _ _ => True).
Proof. unfold sensor_update_jump_sensor_transform. track. Qed.

#[local] Hint Resolve tracks_sensor_update : tracks.

Lemma tracks_update_jump_sensor_transform k this :
  tracks k (update_jump_sensor_transform this) (fun _ _ => True).
Proof. unfold update_jump_sensor_transform. track. Qed.

#[local] Hint Resolve tracks_update_jump_sensor_transform : tracks.

Lemma tracks_poll k p world : tracks k (poll p world) (fun _ _ => True).
Proof.
  intros s Hs Hk. destruct (poll p world s) as [[b s']|e] eqn:E; [|exact I].
  apply poll_inv in E as (sa & sn & _ & Hsa & Hh & Hn).
  destruct s as [h n t], s' as [h' n' t']. cbn [heap next] in *. subst h' n'.
  split; [|auto].
  apply (store_ok_insert h n t); [exact Hs|lia| |exact I].
  destruct Hs as [Hb _]. exact (Hb sa _ Hsa).
Qed.

#[local] Hint Resolve tracks_poll : tracks.

Lemma tracks_poll_jump_sensor k this world :
  tracks k (poll_jump_sensor this world) (fun _ _ => True).
Proof. unfold poll_jump_sensor. track. Qed.

#[local] Hint Resolve tracks_poll_jump_sensor : tracks.

Lemma tracks_entity_collider_create k world center half friction damping add :
  tracks k (entity_collider_create world center half friction damping add) (fun _ _ => True).
Proof. unfold entity_collider_create. track. Qed.

Lemma tracks_entity_collider_get k world collider outs :
  tracks k (entity_collider_get world collider outs) (fun _ _ => True).
Proof. unfold entity_collider_get. track. Qed.

Lemma tracks_entity_collider_get_pos k collider pos :
  tracks k (entity_collider_get_pos collider pos) (fun _ _ => True).
Proof. unfold entity_collider_get_pos. track. Qed.

Lemma tracks_entity_collider_set k collider pos rot vel jf :
  tracks k (entity_collider_set collider pos rot vel jf) (fun _ _ => True).
Proof. unfold entity_collider_set. track. Qed.

Lemma tracks_exec k c : tracks k (exec c) (fun _ _ => True).
Proof.
  destruct c; cbn [exec].
  - eapply tracks_bind; [apply tracks_dynworld_create|]. intros; apply tracks_ret; auto.
  - apply tracks_dynworld_destroy.
  - apply tracks_dynworld_step.
  - apply tracks_dynworld_step_render_only.
  - apply tracks_dynworld_set_debug_drawer.
  - apply tracks_dynworld_debug_draw.
  - eapply tracks_bind; [apply tracks_slab_collider_update|]. intros; apply tracks_ret; auto.
  - eapply tracks_bind; [apply tracks_entity_collider_create|]. intros; apply tracks_ret; auto.
  - eapply tracks_bind; [apply tracks_entity_collider_get|]. intros; apply tracks_ret; auto.
  - eapply tracks_bind; [apply tracks_entity_collider_get_pos|]. intros; apply tracks_ret; auto.
  - eapply tracks_bind; [apply tracks_entity_collider_set|]. intros; apply tracks_ret; auto.
Qed.

(** In every state the host can reach, a live world is in order. *)
Lemma reachable_world_ok s wa w :
  reachable s -> heap s !! wa = Some (CWorld w) -> world_ok s wa.
Proof.
  intros [calls Hrun] Hw.
  assert (Hinit : store_ok initial_state).
  { split; intros a c H; cbn in H; rewrite lookup_empty in H; discriminate. }
  pose proof (tracks_for_each exec calls 0%nat (fun c k' _ => tracks_exec k' c)
                initial_state Hinit (Nat.le_0_l _)) as H.
  unfold run in Hrun. rewrite Hrun in H. destruct H as ([Hb Hr] & _ & _).
  split; [exact Hb|]. exists w. split; [exact Hw|]. exact (Hr wa (CWorld w) Hw).
Qed.

(** C5, as the code has it.  In a live world of a state the host can
    reach:
    - an update given a live slab of the world unregisters that slab's
      body, frees the five objects the slab owns and the slab itself, and
      only then allocates the new structure, mesh, shape and body and
      registers the new body (the copies of the vertex and index data are
      made first); nothing of the old slab is left, the handle returned is
      live, and the number of registered slab bodies is unchanged;
    - an update given no previous slab registers one more slab body;
    - so when every call is given the handle the previous call returned,
      the first one none, the world holds one more slab body than at the
      start after every call, and exactly one on a world just created. *)
Theorem slab_collider_update_replaces (s : state) (wa : addr) (w : dynworld) :
  reachable s -> heap s !! wa = Some (CWorld w) ->
  (forall p q x, live_slab s wa p q -> mesh_ok x ->
     exists p' q' s',
       slab_update (Some wa) (Some p) x s = Ok (Some p', s') /\
       slab_gone s' wa p q /\ live_slab s' wa p' q' /\
       registered_slabs s' wa = registered_slabs s wa /\
       trace s' = trace s
         ++ [EvNew (part_vertices q'); EvNew (part_indices q')]
         ++ [EvRemoveObject (RigidBodyAt (part_body q));
             EvDelete (part_indices q); EvDelete (part_vertices q);
             EvDelete (part_shape q); EvDelete (part_mesh q);
             EvDelete (part_body q); EvDelete p]
         ++ [EvNew p'; EvNew (part_mesh q'); EvNew (part_shape q'); EvNew (part_body q');
             EvAddObject (RigidBodyAt (part_body q')) COL_WORLD COLMASK_WORLD]) /\
  (forall x, mesh_ok x ->
     exists p q s',
       slab_update (Some wa) None x s = Ok (Some p, s') /\
       live_slab s' wa p q /\ registered_slabs s' wa = S (registered_slabs s wa)) /\
  (forall inputs, inputs <> [] -> Forall mesh_ok inputs ->
     exists p q s',
       slab_chain (Some wa) None inputs s = Ok (Some p, s') /\
       live_slab s' wa p q /\ registered_slabs s' wa = S (registered_slabs s wa)) /\
  (forall g inputs, inputs <> [] -> Forall mesh_ok inputs ->
     exists w p q s',
       (world ← dynworld_create g; slab_chain world None inputs) initial_state
       = Ok (Some p, s') /\
       live_slab s' w p q /\ registered_slabs s' w = 1%nat).
Proof.
  intros Hreach Hw. pose proof (reachable_world_ok s wa w Hreach Hw) as Hok.
  assert (Hchain : forall s0 w0 inputs, world_ok s0 w0 -> inputs <> [] ->
            Forall mesh_ok inputs ->
            exists p q s',
              slab_chain (Some w0) None inputs s0 = Ok (Some p, s') /\
              live_slab s' w0 p q /\ registered_slabs s' w0 = S (registered_slabs s0 w0)).
  { intros s0 w0 inputs Hok0 Hne Hall. destruct inputs as [|x inputs]; [congruence|].
    apply Forall_cons in Hall as [Hx Hall].
    destruct (slab_update_first s0 w0 x Hok0 Hx) as (p1 & q1 & s1 & Hrun1 & Hl1 & Hok1 & Hc1).
    destruct (slab_chain_next inputs s1 w0 p1 q1 Hok1 Hl1 Hall)
      as (p2 & q2 & s2 & Hrun2 & Hl2 & _ & Hc2).
    exists p2, q2, s2. cbn [slab_chain]. rewrite (bind_Ok _ _ _ _ _ Hrun1).
    split; [exact Hrun2|]. split; [exact Hl2|]. congruence. }
  split; [|split; [|split]].
  - intros p q x Hlive Hx.
    destruct (slab_update_next s wa p q x Hok Hlive Hx)
      as (p' & q' & s' & Hrun & Hgone & Hlive' & _ & Hcount & Htrace).
    exists p', q', s'. auto.
  - intros x Hx.
    destruct (slab_update_first s wa x Hok Hx) as (p & q & s' & Hrun & Hlive & _ & Hcount).
    exists p, q, s'. auto.
  - intros inputs. apply Hchain, Hok.
  - intros g inputs Hne Hall.
    destruct (world_ok_created g) as (w0 & s0 & Hcreate & Hok0 & Hzero).
    destruct (Hchain s0 w0 inputs Hok0 Hne Hall) as (p & q & s' & Hrun & Hlive & Hcount).
    exists w0, p, q, s'. rewrite (bind_Ok _ _ _ _ _ Hcreate).
    split; [exact Hrun|]. split; [exact Hlive|]. lia.
Qed.

(** * Beyond the claims: the rest of the bridge *)

(** ** The debug drawer: installing, drawing, removing *)

Ltac mstep' :=
  first
    [ mstep
    | erewrite bind_Ok by (apply load_renderer_run; lookup_solve)
    | erewrite bind_Ok by (apply load_entity_run; lookup_solve)
    | erewrite bind_Ok by (apply load_sensor_run; lookup_solve) ].

Lemma setFrameBlob_run h n t d r blob :
  h !! d = Some (CDebugRenderer r) ->
  setFrameBlob (Some d) blob (mkState h n t)
  = Ok (tt, mkState (<[d := CDebugRenderer (mkRenderer blob (draw_line r) (mode r))]> h) n t).
Proof.
  intros Hd. unfold setFrameBlob. mstep'. cbn [store_ptr].
  erewrite store_run' by eassumption. reflexivity.
Qed.

Lemma drawLine_run h n t d r from to color :
  h !! d = Some (CDebugRenderer r) ->
  drawLine (Some d) from to color (mkState h n t)
  = Ok (tt, mkState h n (t ++ [EvDrawLine (draw_line r) (frame_blob r) from to color])).
Proof.
  intros Hd. unfold drawLine. mstep'. apply log_run.
Qed.

Lemma draw_lines_run h n t d r (lines : list (btVector3 * btVector3 * btVector3)) :
  h !! d = Some (CDebugRenderer r) ->
  for_each (fun l => drawLine (Some d) l.1.1 l.1.2 l.2) lines (mkState h n t)
  = Ok (tt, mkState h n (t ++ map (line_event (draw_line r) (frame_blob r)) lines)).
Proof.
  intros Hd. revert t. induction lines as [|l lines IH]; intros t.
  - cbn. rewrite app_nil_r. reflexivity.
  - cbn [for_each]. erewrite bind_Ok by (apply drawLine_run; exact Hd).
    rewrite IH. cbn [map]. rewrite <- app_assoc. reflexivity.
Qed.

(** With a drawer installed, [dynworld_debug_draw] hands every line of
    Bullet's traversal to the installed callback, in order, each with the
    frame blob of this call; it calls the host for nothing else, and when
    it returns the renderer holds no blob and nothing else in the store
    has changed. *)
Theorem dynworld_debug_draw_forwards (s : state) (wa d : addr) (w : dynworld)
    (r : DebugRenderer) (blob : ptr) :
  heap s !! wa = Some (CWorld w) ->
  debugRenderer w = Some d -> m_debugDrawer (dynamicsWorld w) = Some d ->
  heap s !! d = Some (CDebugRenderer r) ->
  exists s',
    dynworld_debug_draw (Some wa) blob s = Ok (tt, s') /\
    trace s' = trace s
      ++ EvDebugDrawWorld
      :: map (line_event (draw_line r) blob)
             (debugLines (<[d := CDebugRenderer (mkRenderer blob (draw_line r) (mode r))]>
                            (heap s))
                         (collisionObjects (dynamicsWorld w))) /\
    heap s' = <[d := CDebugRenderer (mkRenderer None (draw_line r) (mode r))]> (heap s) /\
    next s' = next s.
Proof.
  intros Hw Hd Hdd Hr. destruct s as [h n t]. cbn [heap next trace] in *.
  assert (wa <> d) by congruence. assert (d <> wa) by congruence.
  eexists. split.
  { unfold dynworld_debug_draw. mstep'. rewrite Hd.
    erewrite bind_Ok by (apply setFrameBlob_run; exact Hr).
    unfold debugDrawWorld.
    erewrite bind_Ok.
    2:{ mstep'. rewrite bind_run, log_run. rewrite Hdd.
        rewrite bind_run. cbn [get_heap heap].
        erewrite draw_lines_run by lookup_solve. reflexivity. }
    erewrite setFrameBlob_run by lookup_solve. reflexivity. }
  cbn [heap next trace frame_blob draw_line mode].
  split; [rewrite <- app_assoc; reflexivity|].
  split; [apply insert_insert_eq|reflexivity].
Qed.

Lemma setDebugMode_run h n t d r m :
  h !! d = Some (CDebugRenderer r) ->
  setDebugMode (Some d) m (mkState h n t)
  = Ok (tt, mkState (<[d := CDebugRenderer (mkRenderer (frame_blob r) (draw_line r) m)]> h) n t).
Proof.
  intros Hd. unfold setDebugMode. mstep'. cbn [store_ptr].
  erewrite store_run' by eassumption. reflexivity.
Qed.

(** Installing a drawer on a world of a reachable state whose renderer is
    absent or live: the old renderer, if any, is released; a new renderer
    holding the callback, in wireframe mode and with no frame blob, is
    allocated; both the world and Bullet point at it; and no other object
    is touched. *)
Theorem dynworld_set_debug_drawer_installs (s : state) (wa : addr) (w : dynworld) (f : nat) :
  reachable s -> heap s !! wa = Some (CWorld w) -> renderer_sound s w ->
  exists s',
    dynworld_set_debug_drawer (Some wa) (Some f) s = Ok (tt, s') /\
    heap s' !! next s = Some (CDebugRenderer (mkRenderer None (Some f) DBG_DrawWireframe)) /\
    heap s' !! wa
    = Some (CWorld (set_m_debugDrawer (set_debugRenderer w (Some (next s)))
                                      (Some (next s)))) /\
    (forall d, debugRenderer w = Some d -> heap s' !! d = None) /\
    (forall a, a <> wa -> a <> next s -> Some a <> debugRenderer w ->
               heap s' !! a = heap s !! a).
Proof.
  intros Hreach Hw Hsound.
  destruct (reachable_world_ok s wa w Hreach Hw) as [Hbelow _].
  destruct s as [h n t]. cbn [heap next] in *. below.
  unfold renderer_sound in Hsound.
  destruct (debugRenderer w) as [d|] eqn:Hd.
  - destruct Hsound as [r Hr]. cbn [heap] in Hr. distinct. below.
    eexists. split.
    { unfold dynworld_set_debug_drawer. mstep'. rewrite Hd. cbn [delete_ptr].
      do 2 mstep'.
      erewrite bind_Ok by (apply setDebugMode_run; lookup_solve).
      cbn [store_ptr]. mstep'. erewrite store_run' by lookup_solve. reflexivity. }
    cbn [heap frame_blob draw_line].
    split; [lookup_solve|]. split; [lookup_solve|].
    split; [intros d' [= <-]; gone_solve|].
    intros a Ha1 Ha2 Ha3.
    assert (wa <> a) by congruence. assert (n <> a) by congruence.
    assert (d <> a) by congruence. lookup_solve.
  - eexists. split.
    { unfold dynworld_set_debug_drawer. mstep'. rewrite Hd. cbn [delete_ptr].
      rewrite bind_run. cbn [mret M_ret].
      mstep'.
      erewrite bind_Ok by (apply setDebugMode_run; lookup_solve).
      cbn [store_ptr]. mstep'. erewrite store_run' by lookup_solve. reflexivity. }
    cbn [heap frame_blob draw_line].
    split; [lookup_solve|]. split; [lookup_solve|].
    split; [intros d' [=]|].
    intros a Ha1 Ha2 _.
    assert (wa <> a) by congruence. assert (n <> a) by congruence. lookup_solve.
Qed.

(** ** What [~dynworld] deletes *)

Lemma kept_refl (c : cell) : kept c c.
Proof.
  destruct c as [| | | | | | | | | | |[z [tr fl ov] sh]]; try reflexivity.
  exists ov. reflexivity.
Qed.

(** A deletion faults as a use after free or leaves what was gone, gone. *)
Lemma delete_ptr_step p s :
  delete_ptr p s = Fault InvalidPointer \/
  exists s', delete_ptr p s = Ok (tt, s') /\
             forall a, heap s !! a = None -> heap s' !! a = None.
Proof.
  destruct p as [a|]; [|right; exists s; split; [reflexivity|auto]].
  unfold delete_ptr, free. destruct (heap s !! a) as [c|] eqn:E; [|left; reflexivity].
  right. eexists. split; [reflexivity|]. cbn [heap]. intros b Hb.
  rewrite lookup_delete. destruct (decide (a = b)); [reflexivity|exact Hb].
Qed.

(** A destructor that comes to a dangling pointer faults. *)
Lemma delete_all_dangling (l : list ptr) (d : addr) :
  Some d ∈ l -> forall s, heap s !! d = None ->
  for_each delete_ptr l s = Fault InvalidPointer.
Proof.
  induction l as [|p l IH]; intros Hin s Hd; [inversion Hin|].
  cbn [for_each]. rewrite bind_run.
  destruct (decide (p = Some d)) as [->|Hne].
  - unfold delete_ptr, free. rewrite Hd. reflexivity.
  - destruct (delete_ptr_step p s) as [->|(s' & -> & Hs')]; [reflexivity|].
    apply IH; [|apply Hs', Hd].
    apply elem_of_cons in Hin as [Hin|Hin]; [congruence|exact Hin].
Qed.

Lemma lookup_without (l : list addr) : forall (h : gmap addr cell) (a : addr),
  without l h !! a = if decide (a ∈ l) then None else h !! a.
Proof.
  induction l as [|b l IH]; intros h a; cbn [without foldl].
  - destruct (decide (a ∈ [])) as [H|_]; [inversion H|reflexivity].
  - fold (without l (delete b h)). rewrite IH.
    destruct (decide (a ∈ l)) as [Hl|Hl].
    + rewrite decide_True by (apply elem_of_cons; right; exact Hl). reflexivity.
    + destruct (decide (a = b)) as [->|Hab].
      * rewrite decide_True by (apply elem_of_cons; left; reflexivity).
        apply lookup_delete_eq.
      * rewrite decide_False by (rewrite elem_of_cons; tauto).
        apply lookup_delete_ne. congruence.
Qed.

(** Live and distinct objects are deleted one after the other. *)
Lemma delete_all_run (l : list ptr) : forall h n t,
  NoDup (omap id l) -> (forall a, a ∈ omap id l -> is_Some (h !! a)) ->
  for_each delete_ptr l (mkState h n t)
  = Ok (tt, mkState (without (omap id l) h) n (t ++ map EvDelete (omap id l))).
Proof.
  induction l as [|[a|] l IH]; intros h n t Hnd Hlive.
  - cbn. rewrite app_nil_r. reflexivity.
  - change (omap id (Some a :: l)) with (a :: omap id l) in *.
    apply NoDup_cons in Hnd as [Ha Hnd].
    destruct (Hlive a) as [c Hc]; [apply elem_of_cons; left; reflexivity|].
    cbn [for_each delete_ptr]. erewrite bind_Ok by (eapply free_run'; exact Hc).
    rewrite IH; [|exact Hnd|].
    + cbn [without foldl map]. rewrite <- app_assoc. reflexivity.
    + intros b Hb. rewrite lookup_delete_ne by (intros ->; exact (Ha Hb)).
      apply Hlive, elem_of_cons. right. exact Hb.
  - change (omap id (None :: l)) with (omap id l) in *.
    cbn [for_each delete_ptr]. erewrite bind_Ok by apply ret_run.
    apply IH; assumption.
Qed.

(** Removing the drawer releases the renderer but leaves the world (and
    Bullet) pointing at it: the world cell is unchanged.  Whatever the host
    does next with the drawer of this world goes through the dangling
    pointer: installing or removing a drawer and destroying the world
    delete it a second time, drawing writes to it. *)
Theorem dynworld_set_debug_drawer_null_dangles (s : state) (wa d : addr) (w : dynworld)
    (r : DebugRenderer) :
  heap s !! wa = Some (CWorld w) -> debugRenderer w = Some d ->
  heap s !! d = Some (CDebugRenderer r) ->
  exists s',
    dynworld_set_debug_drawer (Some wa) None s = Ok (tt, s') /\
    heap s' = delete d (heap s) /\
    heap s' !! wa = Some (CWorld w) /\
    (forall f, dynworld_set_debug_drawer (Some wa) f s' = Fault InvalidPointer) /\
    dynworld_destroy (Some wa) s' = Fault InvalidPointer /\
    (forall blob, dynworld_debug_draw (Some wa) blob s' = Fault InvalidPointer).
Proof.
  intros Hw Hd Hr. destruct s as [h n t]. cbn [heap] in *.
  assert (d <> wa) by congruence.
  assert (Hw' : delete d h !! wa = Some (CWorld w))
    by (rewrite lookup_delete_ne by assumption; exact Hw).
  assert (Hgone : delete d h !! d = None) by apply lookup_delete_eq.
  eexists. split.
  { unfold dynworld_set_debug_drawer. mstep'. rewrite Hd. cbn [delete_ptr].
    erewrite bind_Ok by (eapply free_run'; exact Hr). reflexivity. }
  cbn [heap]. split; [reflexivity|]. split; [exact Hw'|].
  split; [|split].
  - intros f. unfold dynworld_set_debug_drawer.
    erewrite bind_Ok by (apply load_world_run; exact Hw').
    rewrite Hd. cbn [delete_ptr]. rewrite bind_run. unfold free. cbn [heap].
    rewrite Hgone. reflexivity.
  - unfold dynworld_destroy.
    erewrite bind_Ok by (apply load_world_run; exact Hw').
    rewrite bind_run.
    rewrite (delete_all_dangling (owned w) d); [reflexivity| |exact Hgone].
    unfold owned. rewrite Hd. set_solver.
  - intros blob. unfold dynworld_debug_draw.
    erewrite bind_Ok by (apply load_world_run; exact Hw').
    rewrite Hd. rewrite bind_run. unfold setFrameBlob, load_renderer.
    rewrite !bind_run. unfold load. cbn [heap]. rewrite Hgone. reflexivity.
Qed.

(** Destroying a world whose objects are live releases, in the order of
    the destructor, Bullet's world, the solver, the broadphase, the
    dispatcher, the configuration, the ghost-pair callback and the
    renderer, then the world itself, and no other object: the slabs and
    entities registered in it stay allocated, each as it was but for the
    overlap list of a sensor.  A null handle is accepted and ignored; a
    second destruction of the same world is a use after free. *)
Theorem dynworld_destroy_releases (s : state) (wa : addr) (w : dynworld) :
  heap s !! wa = Some (CWorld w) -> owns_live s wa w ->
  dynworld_destroy None s = Ok (tt, s) /\
  exists s',
    dynworld_destroy (Some wa) s = Ok (tt, s') /\
    trace s' = trace s ++ map EvDelete (omap id (owned w) ++ [wa]) /\
    (forall a, a ∈ wa :: omap id (owned w) -> heap s' !! a = None) /\
    next s' = next s /\
    (forall a c, heap s !! a = Some c -> a ∉ wa :: omap id (owned w) ->
                 exists c', heap s' !! a = Some c' /\ kept c c') /\
    dynworld_destroy (Some wa) s' = Fault InvalidPointer.
Proof.
  intros Hw [Hnd Hlive]. split; [reflexivity|].
  destruct s as [h n t]. cbn [heap next trace] in *.
  apply NoDup_cons in Hnd as [Hwa Hnd].
  assert (Hw' : without (omap id (owned w)) h !! wa = Some (CWorld w)).
  { rewrite lookup_without, decide_False by exact Hwa. exact Hw. }
  eexists. split.
  { unfold dynworld_destroy. mstep'.
    erewrite bind_Ok by (apply delete_all_run; assumption).
    eapply free_run'. exact Hw'. }
  cbn [heap next trace]. split.
  { rewrite map_app, app_assoc. reflexivity. }
  split.
  { intros a Ha. apply elem_of_cons in Ha as [->|Ha]; [apply lookup_delete_eq|].
    rewrite lookup_delete_ne by (intros ->; exact (Hwa Ha)).
    rewrite lookup_without, decide_True by exact Ha. reflexivity. }
  split; [reflexivity|]. split.
  - intros a c Ha Hout. exists c. split; [|apply kept_refl].
    rewrite lookup_delete_ne by (intros ->; apply Hout, elem_of_cons; left; reflexivity).
    rewrite lookup_without, decide_False; [exact Ha|].
    intros Hin. apply Hout, elem_of_cons. right. exact Hin.
  - unfold dynworld_destroy, load_world. rewrite !bind_run. unfold load. cbn [heap].
    rewrite lookup_delete_eq. reflexivity.
Qed.

(** ** Entities *)

Lemma vec_eta (v : btVector3) : mkVec (vx v) (vy v) (vz v) = v.
Proof. destruct v; reflexivity. Qed.

(** The body [entity_collider_create] hands to Bullet, before the user
    pointer is set. *)
Lemma entity_collider_create_run_plain h n t wa w center half_extents friction linear_damping :
  heap_below h n -> h !! wa = Some (CWorld w) ->
  let dims := mkVec (vx half_extents) (vy half_extents) (vz half_extents) in
  let pos := mkVec (vx center) (vy center) (vz center) in
  let body := set_rb_angularFactor
                (new_btRigidBody (mkInfo 2.0 (Some n) friction linear_damping
                                         (setOrigin transform_identity pos))) UP in
  entity_collider_create (Some wa) center half_extents friction linear_damping false
                         (mkState h n t)
  = Ok (Some (S n),
        mkState
          (<[S n := CEntity (mkEntity (set_rb_userPointer body 600) (Some n) dims None)]>
             (<[wa := CWorld (set_collisionObjects w
                   (collisionObjects (dynamicsWorld w)
                    ++ [mkReg (EntityBodyOf (S n)) COL_ENTITIES COLMASK_ENTITY]))]>
                (<[S n := CEntity (mkEntity body (Some n) dims None)]>
                   (<[S n := CEntity (mkEntity
                         (new_btRigidBody (mkInfo 2.0 (Some n) friction linear_damping
                                                  (setOrigin transform_identity pos)))
                         (Some n) dims None)]>
                      (<[n := CBoxShape (mkBox dims)]> h)))))
          (S (S n))
          (t ++ [EvNew n; EvNew (S n);
                 EvAddObject (EntityBodyOf (S n)) COL_ENTITIES COLMASK_ENTITY])).
Proof.
  intros Hbelow Hw. below. cbv zeta.
  unfold entity_collider_create.
  do 3 mstep'. rewrite bind_run. cbn [mret M_ret].
  erewrite bind_Ok by (apply addCollisionObject_run; lookup_solve).
  mstep'. mstep'. cbn [mret M_ret]. rewrite <- !app_assoc. reflexivity.
Qed.

Lemma entity_collider_create_run_sensor h n t wa w center half_extents friction linear_damping :
  heap_below h n -> h !! wa = Some (CWorld w) ->
  let dims := mkVec (vx half_extents) (vy half_extents) (vz half_extents) in
  let pos := mkVec (vx center) (vy center) (vz center) in
  let body := set_rb_angularFactor
                (new_btRigidBody (mkInfo 2.0 (Some n) friction linear_damping
                                         (setOrigin transform_identity pos))) UP in
  let placed := transform_mul (setOrigin transform_identity pos)
                  (jump_sensor_offset (sensor_shape (new_entity_jump_sensor dims)) dims) in
  let objs := collisionObjects (dynamicsWorld w)
              ++ [mkReg (EntityBodyOf (S n)) COL_ENTITIES COLMASK_ENTITY] in
  entity_collider_create (Some wa) center half_extents friction linear_damping true
                         (mkState h n t)
  = Ok (Some (S n),
        mkState
          (<[wa := CWorld (set_collisionObjects (set_collisionObjects w objs)
                   (objs ++ [mkReg (SensorBodyOf (S (S n)))
                                   COL_ENTITY_JUMP_SENSOR COLMASK_ENTITY_JUMP_SENSOR]))]>
             (<[S n := CEntity (mkEntity (set_rb_userPointer body 600) (Some n) dims
                                         (Some (S (S n))))]>
                (<[wa := CWorld (set_collisionObjects w objs)]>
                   (<[S (S n) := CSensor (set_sensor_worldTransform
                                            (new_entity_jump_sensor dims) placed)]>
                      (<[S n := CEntity (mkEntity body (Some n) dims (Some (S (S n))))]>
                         (<[S (S n) := CSensor (new_entity_jump_sensor dims)]>
                            (<[S n := CEntity (mkEntity body (Some n) dims None)]>
                               (<[S n := CEntity (mkEntity
                                     (new_btRigidBody
                                        (mkInfo 2.0 (Some n) friction linear_damping
                                                (setOrigin transform_identity pos)))
                                     (Some n) dims None)]>
                                  (<[n := CBoxShape (mkBox dims)]> h)))))))))
          (S (S (S n)))
          (t ++ [EvNew n; EvNew (S n); EvNew (S (S n));
                 EvSetWorldTransform (SensorBodyOf (S (S n))) placed;
                 EvAddObject (EntityBodyOf (S n)) COL_ENTITIES COLMASK_ENTITY;
                 EvAddObject (SensorBodyOf (S (S n)))
                             COL_ENTITY_JUMP_SENSOR COLMASK_ENTITY_JUMP_SENSOR])).
Proof.
  intros Hbelow Hw. below. cbv zeta.
  unfold entity_collider_create.
  do 3 mstep'. rewrite !bind_assoc_run. mstep'. rewrite !bind_assoc_run. mstep'.
  unfold update_jump_sensor_transform. rewrite ?bind_assoc_run. mstep'.
  cbn [jump_sensor half_dims collider_body].
  erewrite bind_Ok by (apply sensor_update_run; lookup_solve).
  erewrite bind_Ok by (apply addCollisionObject_run; lookup_solve).
  mstep'. mstep'. rewrite ?bind_assoc_run.
  cbn [jump_sensor].
  erewrite bind_Ok by (apply addCollisionObject_run; lookup_solve).
  unfold mret, M_ret. do 2 f_equal.
  f_equal. rewrite <- !app_assoc. reflexivity.
Qed.

(** [entity_collider_create] in a live world of a reachable state returns a
    fresh handle.  The box shape, the collider and (if asked for) the sensor
    are allocated one after the other.  The body has mass 2, the friction
    and damping given, the centre as its position with no rotation, turns
    about the up axis only, and carries the user pointer 600.  The body is
    registered as an entity; the sensor, with the box its constructor
    scales (in double precision, stored in single) and placed by the body's
    start transform composed with its offset (in single precision), is
    registered after it.  No other object changes. *)
Theorem entity_collider_create_builds (s : state) (wa : addr) (w : dynworld)
    (center half_extents : btVector3) (friction linear_damping : btScalar) (sensor : bool) :
  reachable s -> heap s !! wa = Some (CWorld w) ->
  exists s' c,
    entity_collider_create (Some wa) center half_extents friction linear_damping sensor s
    = Ok (Some (S (next s)), s') /\
    heap s' !! next s = Some (CBoxShape (mkBox half_extents)) /\
    heap s' !! S (next s) = Some (CEntity c) /\
    collider_body c
    = mkRigidBody 2.0 (Some (next s)) friction linear_damping
                  (setOrigin transform_identity center) (setOrigin transform_identity center)
                  UP vzero 600 /\
    body_shape c = Some (next s) /\ half_dims c = half_extents /\
    jump_sensor c = (if sensor then Some (S (S (next s))) else None) /\
    (sensor = true ->
     exists sn,
       heap s' !! S (S (next s)) = Some (CSensor sn) /\
       occluded sn = 0%Z /\
       sensor_shape sn = sensor_shape (new_entity_jump_sensor half_extents) /\
       gh_collisionFlags (sensor_body sn)
       = Z.lor (Z.lor CF_STATIC_OBJECT CF_KINEMATIC_OBJECT) CF_NO_CONTACT_RESPONSE /\
       gh_worldTransform (sensor_body sn)
       = transform_mul (setOrigin transform_identity center)
           (jump_sensor_offset (sensor_shape (new_entity_jump_sensor half_extents))
                               half_extents)) /\
    heap s' !! wa
    = Some (CWorld (set_collisionObjects w
         (collisionObjects (dynamicsWorld w)
          ++ mkReg (EntityBodyOf (S (next s))) COL_ENTITIES COLMASK_ENTITY
          :: (if sensor
              then [mkReg (SensorBodyOf (S (S (next s))))
                          COL_ENTITY_JUMP_SENSOR COLMASK_ENTITY_JUMP_SENSOR]
              else [])))) /\
    next s' = ((if sensor then 3 else 2) + next s)%nat /\
    (forall a, a <> wa -> (a < next s)%nat -> heap s' !! a = heap s !! a).
Proof.
  intros Hreach Hw.
  destruct (reachable_world_ok s wa w Hreach Hw) as [Hbelow _].
  destruct s as [h n t]. cbn [heap next] in *. below.
  destruct sensor.
  - eexists _, _.
    split; [apply (entity_collider_create_run_sensor h n t wa w); assumption|].
    cbn [heap next]. rewrite !vec_eta.
    split; [lookup_solve|]. split; [lookup_solve|].
    split; [reflexivity|]. split; [reflexivity|]. split; [reflexivity|].
    split; [reflexivity|].
    split; [intros _; eexists; split; [lookup_solve|repeat split]|].
    split.
    { rewrite lookup_insert_eq. unfold set_collisionObjects, set_dynamicsWorld.
      cbn [dynamicsWorld collisionObjects gravity m_debugDrawer debugRenderer].
      rewrite <- app_assoc. reflexivity. }
    split; [reflexivity|].
    intros a Ha1 Ha2. assert (wa <> a) by congruence. lookup_solve.
  - eexists _, _.
    split; [apply (entity_collider_create_run_plain h n t wa w); assumption|].
    cbn [heap next]. rewrite !vec_eta.
    split; [lookup_solve|]. split; [lookup_solve|].
    split; [reflexivity|]. split; [reflexivity|]. split; [reflexivity|].
    split; [reflexivity|]. split; [intros [=]|].
    split; [lookup_solve|].
    split; [reflexivity|].
    intros a Ha1 Ha2. assert (wa <> a) by congruence. lookup_solve.
Qed.

(** *** Reading an entity *)

Lemma entity_collider_get_pos_run s a c pos :
  heap s !! a = Some (CEntity c) ->
  entity_collider_get_pos (Some a) pos s = Ok ((0%Z, read_position c), s).
Proof.
  intros Hc. unfold entity_collider_get_pos.
  erewrite bind_Ok by (apply load_entity_run; exact Hc).
  unfold read_position. rewrite vec_eta. reflexivity.
Qed.

(** [entity_collider_get] with every sensor word at rest. *)
Lemma entity_collider_get_run h n t wa w a c outs :
  h !! wa = Some (CWorld w) -> h !! a = Some (CEntity c) ->
  (forall sa, jump_sensor c = Some sa ->
              exists sn, h !! sa = Some (CSensor sn) /\ occluded sn = 0%Z) ->
  entity_collider_get (Some wa) (Some a) outs (mkState h n t)
  = Ok ((0%Z, mkOutputs (read_position c) (read_heading c)
                 (match jump_sensor c with
                  | Some sa => existsb (touches h sa) (sensor_overlaps h c)
                  | None => out_jump_sensor_occluded outs
                  end)),
        mkState h n (t ++ sensor_tests h c)).
Proof.
  intros Hw Hc Hsensor. unfold entity_collider_get.
  erewrite bind_Ok by (apply load_entity_run; exact Hc).
  unfold has_jump_sensor, sensor_tests, sensor_overlaps, read_position, read_heading.
  destruct (jump_sensor c) as [sa|] eqn:Hsa.
  - destruct (Hsensor sa eq_refl) as (sn & Hs & Hz). rewrite Hs.
    unfold poll_jump_sensor. rewrite bind_assoc_run.
    erewrite bind_Ok by (apply load_entity_run; exact Hc).
    rewrite Hsa. erewrite bind_Ok by (eapply poll_run; eassumption).
    cbn [out_pos out_rot mret M_ret]. rewrite vec_eta.
    replace (with_occluded sn 0) with sn
      by (rewrite <- Hz; symmetry; apply with_occluded_id).
    rewrite (insert_id h sa _ Hs), Hz.
    destruct (existsb _ _); reflexivity.
  - cbn [out_pos out_rot out_jump_sensor_occluded mret M_ret].
    rewrite vec_eta, app_nil_r. reflexivity.
Qed.

(** [entity_collider_get_pos] reads what [entity_collider_get] reads: on
    every handle and in every state, if [entity_collider_get] returns, then
    [entity_collider_get_pos] returns the same code and writes the same
    position, asked before or after it; and it changes nothing. *)
Theorem entity_collider_get_pos_agrees (world collider : ptr) (outs : get_outputs)
    (s : state) (r : Z) (outs' : get_outputs) (s' : state) :
  entity_collider_get world collider outs s = Ok ((r, outs'), s') ->
  entity_collider_get_pos collider (out_pos outs) s = Ok ((r, out_pos outs'), s) /\
  entity_collider_get_pos collider (out_pos outs) s' = Ok ((r, out_pos outs'), s').
Proof.
  destruct collider as [a|]; [|intros [= <- <- <-]; split; reflexivity].
  intros H. unfold entity_collider_get in H.
  apply bind_inv in H as (c & s1 & Hload & H).
  apply load_entity_inv in Hload as (a' & [= <-] & Hc & ->).
  destruct (has_jump_sensor c).
  - apply bind_inv in H as (b & s2 & Hpoll & H).
    cbn [mret M_ret out_pos out_rot] in H. injection H as <- <- <-.
    unfold poll_jump_sensor in Hpoll.
    apply bind_inv in Hpoll as (c' & s3 & Hload & Hpoll).
    apply load_entity_inv in Hload as (a' & [= <-] & Hc' & ->).
    apply poll_inv in Hpoll as (sa & sn & _ & Hs & Hheap & _).
    assert (sa <> a) by congruence.
    assert (Hc2 : heap s2 !! a = Some (CEntity c))
      by (rewrite Hheap, lookup_insert_ne by assumption; exact Hc).
    rewrite (entity_collider_get_pos_run s a c _ Hc).
    rewrite (entity_collider_get_pos_run s2 a c _ Hc2).
    cbn [out_pos]. unfold read_position. rewrite vec_eta. split; reflexivity.
  - cbn [mret M_ret out_pos out_rot] in H. injection H as <- <- <-.
    rewrite (entity_collider_get_pos_run s a c _ Hc).
    cbn [out_pos]. unfold read_position. rewrite vec_eta. split; reflexivity.
Qed.

(** In a reachable state [entity_collider_get] on a live collider of a live
    world is a read: it leaves every object as it was and allocates
    nothing.  It reports the body's interpolated position and heading.
    Without a sensor it leaves the caller's occlusion flag as it found it
    and calls Bullet for nothing; with a sensor it reports whether an
    overlapping object touches it, after one contact test per overlapping
    object.  Asked again at once, it reports the same. *)
Theorem entity_collider_get_is_a_read (s : state) (wa a : addr) (w : dynworld)
    (c : entity_collider) (outs : get_outputs) :
  reachable s -> heap s !! wa = Some (CWorld w) -> heap s !! a = Some (CEntity c) ->
  sensor_live (heap s) c ->
  exists outs' s',
    entity_collider_get (Some wa) (Some a) outs s = Ok ((0%Z, outs'), s') /\
    heap s' = heap s /\ next s' = next s /\
    trace s' = trace s ++ sensor_tests (heap s) c /\
    out_pos outs' = read_position c /\ out_rot outs' = read_heading c /\
    out_jump_sensor_occluded outs'
    = match jump_sensor c with
      | Some sa => existsb (touches (heap s) sa) (sensor_overlaps (heap s) c)
      | None => out_jump_sensor_occluded outs
      end /\
    exists s'', entity_collider_get (Some wa) (Some a) outs' s' = Ok ((0%Z, outs'), s'').
Proof.
  intros Hreach Hw Hc Hlive.
  assert (Hrest : forall sa, jump_sensor c = Some sa ->
            exists sn, heap s !! sa = Some (CSensor sn) /\ occluded sn = 0%Z).
  { intros sa Hsa. destruct (Hlive sa Hsa) as [sn Hs]. exists sn. split; [exact Hs|].
    exact (reachable_good s Hreach sa (CSensor sn) Hs). }
  destruct s as [h n t]. cbn [heap next trace] in *.
  eexists _, _. split; [apply (entity_collider_get_run h n t wa w a c outs Hw Hc Hrest)|].
  cbn [heap next trace out_pos out_rot out_jump_sensor_occluded].
  repeat (split; [reflexivity|]).
  eexists. rewrite (entity_collider_get_run h n _ wa w a c _ Hw Hc Hrest).
  cbn [out_jump_sensor_occluded]. destruct (jump_sensor c); reflexivity.
Qed.

(** A collider just created reads back as created: [entity_collider_get]
    and [entity_collider_get_pos] succeed on the handle returned and give
    the centre it was created at, [entity_collider_get] with the heading of
    an unrotated body; without a sensor the caller's occlusion flag is left
    alone. *)
Theorem entity_collider_create_then_get (s : state) (wa : addr) (w : dynworld)
    (center half_extents : btVector3) (friction linear_damping : btScalar) (sensor : bool)
    (outs : get_outputs) :
  reachable s -> heap s !! wa = Some (CWorld w) ->
  exists p s1 s2 outs',
    entity_collider_create (Some wa) center half_extents friction linear_damping sensor s
    = Ok (p, s1) /\
    entity_collider_get_pos p (out_pos outs) s1 = Ok ((0%Z, center), s1) /\
    entity_collider_get (Some wa) p outs s1 = Ok ((0%Z, outs'), s2) /\
    out_pos outs' = center /\
    out_rot outs' = (vx (quatRotateBasis mat_identity FWD), vy (quatRotateBasis mat_identity FWD)) /\
    (sensor = false -> out_jump_sensor_occluded outs' = out_jump_sensor_occluded outs) /\
    next s2 = next s1.
Proof.
  intros Hreach Hw.
  destruct (reachable_world_ok s wa w Hreach Hw) as [Hbelow _].
  destruct s as [h n t]. cbn [heap next] in *. below.
  assert (Hhead : forall b sh hd js,
            read_heading (mkEntity
              (set_rb_userPointer
                 (set_rb_angularFactor
                    (new_btRigidBody (mkInfo 2.0 sh friction linear_damping
                       (setOrigin transform_identity b))) UP) 600) sh hd js)
            = (vx (quatRotateBasis mat_identity FWD), vy (quatRotateBasis mat_identity FWD)))
    by reflexivity.
  destruct sensor.
  - eexists _, _, _, _.
    split; [apply (entity_collider_create_run_sensor h n t wa w); assumption|].
    rewrite !vec_eta. split.
    { erewrite entity_collider_get_pos_run by lookup_solve. reflexivity. }
    split.
    { eapply entity_collider_get_run; [lookup_solve|lookup_solve|].
      intros sa [= <-]. eexists. split; [lookup_solve|reflexivity]. }
    cbn [out_pos out_rot out_jump_sensor_occluded next].
    split; [reflexivity|]. split; [apply Hhead|]. split; [discriminate|reflexivity].
  - eexists _, _, _, _.
    split; [apply (entity_collider_create_run_plain h n t wa w); assumption|].
    rewrite !vec_eta. split.
    { erewrite entity_collider_get_pos_run by lookup_solve. reflexivity. }
    split.
    { eapply entity_collider_get_run; [lookup_solve|lookup_solve|].
      intros sa [=]. }
    cbn [out_pos out_rot out_jump_sensor_occluded next].
    split; [reflexivity|]. split; [apply Hhead|]. split; [intros _; reflexivity|reflexivity].
Qed.

(** *** Writing an entity *)

Lemma set_transform_overwrites c pos rot :
  set_transform c pos rot = mkTransform (axisAngleBasis UP rot) pos.
Proof. unfold set_transform, setBasis, setOrigin. rewrite vec_eta. reflexivity. Qed.

Lemma entity_collider_set_post s a c pos rot vel jf :
  heap s !! a = Some (CEntity c) -> sensor_live (heap s) c ->
  exists s',
    entity_collider_set (Some a) pos rot vel jf s = Ok (0%Z, s') /\
    heap s' !! a
    = Some (CEntity (entity_pushed (entity_moved c (set_transform c pos rot))
                                   (set_force vel jf))) /\
    (forall sa sn, jump_sensor c = Some sa -> heap s !! sa = Some (CSensor sn) ->
       heap s' !! sa
       = Some (CSensor (set_sensor_worldTransform sn
            (transform_mul (set_transform c pos rot)
                           (jump_sensor_offset (sensor_shape sn) (half_dims c)))))) /\
    next s' = next s /\
    (forall b, b <> a -> Some b <> jump_sensor c -> heap s' !! b = heap s !! b).
Proof.
  intros Hc Hlive. destruct s as [h n t]. cbn [heap next] in *.
  destruct (jump_sensor c) as [sa|] eqn:Hsa.
  - destruct (Hlive sa Hsa) as [sn Hs]. assert (a <> sa) by congruence.
    eexists. split; [eapply entity_collider_set_run_sensor; eassumption|].
    cbn [heap next]. split; [apply lookup_insert_eq|]. split.
    + intros sa' sn' [= <-] Hs'. rewrite lookup_insert_ne by assumption.
      rewrite lookup_insert_eq. congruence.
    + split; [reflexivity|]. intros b Hb1 Hb2.
      rewrite !lookup_insert_ne by congruence. reflexivity.
  - eexists. split; [eapply entity_collider_set_run_plain; eassumption|].
    cbn [heap next]. split; [apply lookup_insert_eq|]. split; [intros sa sn [=]|].
    split; [reflexivity|]. intros b Hb1 _.
    rewrite lookup_insert_ne by congruence. reflexivity.
Qed.

(** [entity_collider_set] touches the collider and its sensor and nothing
    else, and allocates nothing.  Of the body it writes the world transform
    and the total force only: the interpolated transform that
    [entity_collider_get_pos] reads is not written, so the position read
    right after a set is the one read before it, whatever position was
    set. *)
Theorem entity_collider_set_position_not_read_back (s : state) (a : addr)
    (c : entity_collider) (pos : btVector3) (rot : btScalar) (vel : btVector3)
    (jump_force : btScalar) (buf : btVector3) :
  heap s !! a = Some (CEntity c) -> sensor_live (heap s) c ->
  exists s' c',
    entity_collider_set (Some a) pos rot vel jump_force s = Ok (0%Z, s') /\
    heap s' !! a = Some (CEntity c') /\
    origin (rb_worldTransform (collider_body c')) = pos /\
    rb_interpolationWorldTransform (collider_body c')
    = rb_interpolationWorldTransform (collider_body c) /\
    entity_collider_get_pos (Some a) buf s = Ok ((0%Z, read_position c), s) /\
    entity_collider_get_pos (Some a) buf s' = Ok ((0%Z, read_position c), s') /\
    next s' = next s /\
    (forall b, b <> a -> Some b <> jump_sensor c -> heap s' !! b = heap s !! b).
Proof.
  intros Hc Hlive.
  destruct (entity_collider_set_post s a c pos rot vel jump_force Hc Hlive)
    as (s' & Hrun & Hc' & _ & Hnext & Hframe).
  eexists s', _. split; [exact Hrun|]. split; [exact Hc'|].
  split; [cbn [entity_pushed entity_moved collider_body set_rb_totalForce
               set_rb_worldTransform rb_worldTransform];
          rewrite set_transform_overwrites; reflexivity|].
  split; [reflexivity|].
  split; [apply entity_collider_get_pos_run; exact Hc|].
  split; [|split; [exact Hnext|exact Hframe]].
  rewrite (entity_collider_get_pos_run s' a _ buf Hc'). reflexivity.
Qed.

(** Two calls of [entity_collider_set] in a row: the second transform
    replaces the first (position and rotation are both overwritten, so
    nothing of the first transform is left, in the body or in the sensor),
    while the forces add up on top of what the body had: the first is added
    to the body's force and the second to that sum, component by component
    in single precision. *)
Theorem entity_collider_set_twice (s : state) (a : addr) (c : entity_collider)
    (pos1 pos2 : btVector3) (rot1 rot2 : btScalar) (vel1 vel2 : btVector3)
    (jump1 jump2 : btScalar) :
  heap s !! a = Some (CEntity c) -> sensor_live (heap s) c ->
  exists s1 s2 c2,
    entity_collider_set (Some a) pos1 rot1 vel1 jump1 s = Ok (0%Z, s1) /\
    entity_collider_set (Some a) pos2 rot2 vel2 jump2 s1 = Ok (0%Z, s2) /\
    heap s2 !! a = Some (CEntity c2) /\
    rb_worldTransform (collider_body c2) = mkTransform (axisAngleBasis UP rot2) pos2 /\
    rb_totalForce (collider_body c2)
    = vadd (vadd (rb_totalForce (collider_body c)) (set_force vel1 jump1))
           (set_force vel2 jump2) /\
    (forall sa sn, jump_sensor c = Some sa -> heap s !! sa = Some (CSensor sn) ->
       exists sn2, heap s2 !! sa = Some (CSensor sn2) /\
         gh_worldTransform (sensor_body sn2)
         = transform_mul (mkTransform (axisAngleBasis UP rot2) pos2)
                         (jump_sensor_offset (sensor_shape sn) (half_dims c))).
Proof.
  intros Hc Hlive.
  destruct (entity_collider_set_post s a c pos1 rot1 vel1 jump1 Hc Hlive)
    as (s1 & Hrun1 & Hc1 & Hs1 & _ & _).
  assert (Hlive1 : sensor_live (heap s1)
            (entity_pushed (entity_moved c (set_transform c pos1 rot1)) (set_force vel1 jump1))).
  { intros sa Hsa. cbn in Hsa. destruct (Hlive sa Hsa) as [sn Hs].
    eexists. apply (Hs1 sa sn Hsa Hs). }
  destruct (entity_collider_set_post s1 a _ pos2 rot2 vel2 jump2 Hc1 Hlive1)
    as (s2 & Hrun2 & Hc2 & Hs2 & _ & _).
  exists s1, s2. eexists. split; [exact Hrun1|]. split; [exact Hrun2|].
  split; [exact Hc2|].
  split; [cbn [entity_pushed entity_moved collider_body set_rb_totalForce
               set_rb_worldTransform rb_worldTransform];
          apply set_transform_overwrites|].
  split; [reflexivity|].
  intros sa sn Hsa Hs. eexists. split.
  - eapply (Hs2 sa); [exact Hsa|]. apply (Hs1 sa sn Hsa Hs).
  - cbn [set_sensor_worldTransform sensor_body gh_worldTransform sensor_shape
         entity_pushed entity_moved half_dims].
    rewrite set_transform_overwrites. reflexivity.
Qed.

(** ** Slabs: what an update builds, and what it leaves alone *)

Lemma to_int_small (n : nat) : (Z.of_nat n < 2 ^ 31)%Z -> to_int n = Z.of_nat n.
Proof.
  intros H. unfold to_int. rewrite Z.mod_small by lia. lia.
Qed.

Lemma triangles_small (n : nat) :
  (Z.of_nat n < 2 ^ 31)%Z -> Z.quot (to_int n) 3 = Z.of_nat (n / 3).
Proof.
  intros H. rewrite to_int_small by exact H.
  rewrite Z.quot_div_nonneg by lia. rewrite Nat2Z.inj_div. reflexivity.
Qed.

Lemma slab_update_fresh_post h n t wa w x :
  heap_below h n -> h !! wa = Some (CWorld w) -> mesh_ok x ->
  exists s',
    slab_update (Some wa) None x (mkState h n t) = Ok (Some (S (S n)), s') /\
    heap s' !! n = Some (CFloats (take (in_vertices_count x * 3) (in_vertices x))) /\
    heap s' !! S n = Some (CIndices (take (in_indices_count x) (in_indices x))) /\
    heap s' !! S (S (S n))
    = Some (CMesh [mkIndexedMesh (Z.quot (to_int (in_indices_count x)) 3) (Some (S n)) 12
                                 (to_int (in_vertices_count x)) (Some n) 12]) /\
    heap s' !! S (S (S (S n))) = Some (CMeshShape (Some (S (S (S n))))) /\
    heap s' !! S (S (S (S (S n))))
    = Some (CRigidBody (slab_rigid_body (in_slab_pos x) (S (S (S (S n)))))) /\
    heap s' !! wa
    = Some (CWorld (set_collisionObjects w
         (collisionObjects (dynamicsWorld w)
          ++ [mkReg (RigidBodyAt (S (S (S (S (S n)))))) COL_WORLD COLMASK_WORLD]))) /\
    (forall a c, h !! a = Some c -> a <> wa ->
                 exists c', heap s' !! a = Some c' /\ kept c c').
Proof.
  intros Hbelow Hw [Hvs Hixs]. below.
  eexists. split.
  { unfold slab_update, slab_collider_update, delete_slab.
    do 4 mstep. rewrite bind_run. cbn [mret M_ret]. rewrite bind_run. cbn [mret M_ret].
    do 9 mstep.
    erewrite bind_Ok by (eapply addCollisionObject_run; lookup_solve).
    mstep. reflexivity. }
  cbn [heap].
  split; [lookup_solve|]. split; [lookup_solve|]. split; [lookup_solve|].
  split; [lookup_solve|]. split; [lookup_solve|]. split; [lookup_solve|].
  intros a c Ha Ha1. pose proof (Hbelow a c Ha). assert (wa <> a) by congruence.
  exists c. split; [lookup_solve|apply kept_refl].
Qed.

Lemma slab_update_replace_post h n t wa w p q rb ms msh vs ixs x :
  heap_below h n ->
  h !! wa = Some (CWorld w) ->
  h !! p = Some (CSlab (mkSlab (Some (part_body q)) (Some (part_mesh q))
                               (Some (part_shape q)) (Some (part_vertices q))
                               (Some (part_indices q)))) ->
  h !! part_body q = Some (CRigidBody rb) -> h !! part_mesh q = Some (CMesh ms) ->
  h !! part_shape q = Some (CMeshShape msh) -> h !! part_vertices q = Some (CFloats vs) ->
  h !! part_indices q = Some (CIndices ixs) ->
  mesh_ok x ->
  exists s',
    slab_update (Some wa) (Some p) x (mkState h n t) = Ok (Some (S (S n)), s') /\
    heap s' !! n = Some (CFloats (take (in_vertices_count x * 3) (in_vertices x))) /\
    heap s' !! S n = Some (CIndices (take (in_indices_count x) (in_indices x))) /\
    heap s' !! S (S (S n))
    = Some (CMesh [mkIndexedMesh (Z.quot (to_int (in_indices_count x)) 3) (Some (S n)) 12
                                 (to_int (in_vertices_count x)) (Some n) 12]) /\
    heap s' !! S (S (S (S n))) = Some (CMeshShape (Some (S (S (S n))))) /\
    heap s' !! S (S (S (S (S n))))
    = Some (CRigidBody (slab_rigid_body (in_slab_pos x) (S (S (S (S n)))))) /\
    heap s' !! wa
    = Some (CWorld (set_collisionObjects w
         (filter (fun r => reg_obj r <> RigidBodyAt (part_body q))
                 (collisionObjects (dynamicsWorld w))
          ++ [mkReg (RigidBodyAt (S (S (S (S (S n)))))) COL_WORLD COLMASK_WORLD]))) /\
    (forall a c, h !! a = Some c -> a <> wa -> a ∉ slab_cells p q ->
                 exists c', heap s' !! a = Some c' /\ kept c c').
Proof.
  intros Hbelow Hw Hp Hb Hm Hsh Hv Hi [Hvs Hixs].
  destruct q as [b m sh v i].
  cbn [part_body part_mesh part_shape part_vertices part_indices slab_cells] in *.
  distinct. below.
  eexists. split.
  { unfold slab_update, slab_collider_update.
    do 4 mstep.
    erewrite bind_Ok
      by (erewrite bind_Ok by (apply load_slab_run; lookup_solve);
          cbn [slab_body]; eapply removeRigidBody_run; lookup_solve).
    erewrite bind_Ok by (eapply (delete_slab_run _ _ _ p b m sh v i); lookup_solve).
    do 9 mstep.
    erewrite bind_Ok by (eapply addCollisionObject_run; lookup_solve).
    mstep. reflexivity. }
  cbn [heap].
  split; [lookup_solve|]. split; [lookup_solve|]. split; [lookup_solve|].
  split; [lookup_solve|]. split; [lookup_solve|]. split; [lookup_solve|].
  intros a c Ha Ha1 Ha3. pose proof (Hbelow a c Ha).
  unfold slab_cells in Ha3.
  cbn [part_body part_mesh part_shape part_vertices part_indices] in Ha3.
  rewrite !not_elem_of_cons in Ha3. destruct Ha3 as (? & ? & ? & ? & ? & ? & _).
  assert (wa <> a) by congruence. assert (p <> a) by congruence.
  assert (b <> a) by congruence. assert (m <> a) by congruence.
  assert (sh <> a) by congruence. assert (v <> a) by congruence.
  assert (i <> a) by congruence.
  exists c. split; [lookup_solve|apply kept_refl].
Qed.

(** What [slab_collider_update] builds in a live world of a reachable
    state, from buffers that hold what the counts announce and counts that
    fit an [int], whether it is given no previous slab or a live one:
    - copies of the first [3 * vertices_count] floats and the first
      [indices_count] indices;
    - a mesh of one part over these copies, with [indices_count / 3]
      triangles (indices beyond a multiple of three belong to no triangle),
      [vertices_count] vertices and both strides 12;
    - a shape over that mesh, and a static body (mass 0) of friction 0.5
      over that shape, placed half a unit below [slab_pos], unrotated, with
      the user pointer 500;
    - the body registered in the world, in the place of the previous
      slab's if there was one, the registrations of all other objects
      kept and the world otherwise as it was.
    The body's height is [slab_pos[2] - 0.5] as C++ evaluates it: the
    difference in double precision, converted to single.  Every other
    object but the world and the previous slab's stays allocated, as it
    was but for the overlap list of a sensor. *)
Theorem slab_collider_update_builds (s : state) (wa : addr) (w : dynworld) (x : mesh_input)
    (prev : ptr) (q : slab_parts) :
  reachable s -> heap s !! wa = Some (CWorld w) -> mesh_ok x ->
  (Z.of_nat (in_vertices_count x) < 2 ^ 31)%Z ->
  (Z.of_nat (in_indices_count x) < 2 ^ 31)%Z ->
  (forall p, prev = Some p -> live_slab s wa p q) ->
  exists s',
    let n := next s in
    slab_update (Some wa) prev x s = Ok (Some (2 + n)%nat, s') /\
    heap s' !! n = Some (CFloats (take (in_vertices_count x * 3) (in_vertices x))) /\
    heap s' !! (1 + n)%nat = Some (CIndices (take (in_indices_count x) (in_indices x))) /\
    heap s' !! (3 + n)%nat
    = Some (CMesh [mkIndexedMesh (Z.of_nat (in_indices_count x / 3)) (Some (1 + n)%nat) 12
                                 (Z.of_nat (in_vertices_count x)) (Some n) 12]) /\
    heap s' !! (4 + n)%nat = Some (CMeshShape (Some (3 + n)%nat)) /\
    heap s' !! (5 + n)%nat
    = Some (CRigidBody
        (mkRigidBody 0.0 (Some (4 + n)%nat) 0.5 0
           (mkTransform mat_identity
              (mkVec (vx (in_slab_pos x)) (vy (in_slab_pos x))
                     (minus_literal (vz (in_slab_pos x)) 0.5)))
           (mkTransform mat_identity
              (mkVec (vx (in_slab_pos x)) (vy (in_slab_pos x))
                     (minus_literal (vz (in_slab_pos x)) 0.5)))
           (mkVec 1 1 1) vzero 500)) /\
    (exists registered,
       heap s' !! wa = Some (CWorld (set_collisionObjects w registered)) /\
       forall r, r ∈ registered <->
                 r = mkReg (RigidBodyAt (5 + n)%nat) COL_WORLD COLMASK_WORLD \/
                 (r ∈ collisionObjects (dynamicsWorld w) /\
                  (prev <> None -> reg_obj r <> RigidBodyAt (part_body q)))) /\
    (forall a c, heap s !! a = Some c -> a <> wa ->
                 (forall p, prev = Some p -> a ∉ slab_cells p q) ->
                 exists c', heap s' !! a = Some c' /\ kept c c').
Proof.
  intros Hreach Hw Hx Hvc Hic Hprev.
  destruct (reachable_world_ok s wa w Hreach Hw) as [Hbelow _].
  destruct s as [h n t]. cbn [heap next] in *.
  destruct prev as [p|].
  - destruct (Hprev p eq_refl)
      as (rb & ms & msh & vs & ixs & w0 & Hp & Hb & Hm & Hsh & Hv & Hi & _ & _).
    cbn [heap] in *.
    destruct (slab_update_replace_post h n t wa w p q rb ms msh vs ixs x
                Hbelow Hw Hp Hb Hm Hsh Hv Hi Hx)
      as (s' & Hrun & H0 & H1 & H3 & H4 & H5 & Hw' & Hframe).
    exists s'. cbn zeta. cbn [Nat.add].
    rewrite triangles_small in H3 by exact Hic.
    rewrite to_int_small in H3 by exact Hvc.
    do 6 (split; [assumption|]). split.
    { eexists. split; [exact Hw'|].
      intros r. rewrite elem_of_app, list_elem_of_filter, list_elem_of_singleton. split.
      - intros [[Hne Hin]| ->]; [right; split; [exact Hin|intros _; exact Hne]|left; reflexivity].
      - intros [ -> |[Hin Hne]]; [right; reflexivity|left; split; [apply Hne; discriminate|exact Hin]]. }
    intros a c Ha Ha1 Ha3. apply Hframe; auto.
  - destruct (slab_update_fresh_post h n t wa w x Hbelow Hw Hx)
      as (s' & Hrun & H0 & H1 & H3 & H4 & H5 & Hw' & Hframe).
    exists s'. cbn zeta. cbn [Nat.add].
    rewrite triangles_small in H3 by exact Hic.
    rewrite to_int_small in H3 by exact Hvc.
    do 6 (split; [assumption|]). split.
    { eexists. split; [exact Hw'|].
      intros r. rewrite elem_of_app, list_elem_of_singleton. split.
      - intros [Hin| ->]; [right; split; [exact Hin|intros Hne; congruence]|left; reflexivity].
      - intros [ -> |[Hin _]]; [right; reflexivity|left; exact Hin]. }
    intros a c Ha Ha1 _. apply Hframe; auto.
Qed.

(** ** The collision filter on registered objects *)

(** In every state the host can reach, Bullet's filter considers a pair of
    objects registered in a world exactly when one of the two is a slab body
    and the other is not: slabs meet entities and sensors, while entities
    and sensors meet neither each other nor their own kind, and slabs do
    not meet slabs. *)
Theorem registered_pair_considered (s : state) (a : addr) (w : dynworld)
    (r1 r2 : registration) :
  reachable s -> heap s !! a = Some (CWorld w) ->
  r1 ∈ collisionObjects (dynamicsWorld w) -> r2 ∈ collisionObjects (dynamicsWorld w) ->
  needsCollision r1 r2 = xorb (is_world_body r1) (is_world_body r2).
Proof.
  intros Hreach Hw H1 H2.
  pose proof (reachable_good s Hreach a (CWorld w) Hw) as Hgood. cbn in Hgood.
  rewrite Forall_forall in Hgood.
  pose proof (Hgood r1 H1) as G1. pose proof (Hgood r2 H2) as G2.
  unfold filed_by_kind in G1, G2. unfold needsCollision, is_world_body.
  destruct (reg_obj r1), (reg_obj r2);
    destruct G1 as [-> ->], G2 as [-> ->]; reflexivity.
Qed.

(** ** A world's life *)

(** A world created, given a drawer and destroyed leaves the store of a
    reachable state as it found it.  Eight objects are allocated, the world,
    the six objects of Bullet its constructor makes and the renderer, and
    the eight are released, in the order of the destructor: Bullet's world,
    the solver, the broadphase, the dispatcher, the configuration, the
    ghost-pair callback, the renderer, and last the world.  Only the
    allocator has moved on, by eight. *)
Theorem dynworld_lifecycle_round_trip (s : state) (g : btScalar) (f : nat) :
  reachable s ->
  exists s',
    (world ← dynworld_create g;
     dynworld_set_debug_drawer world (Some f);;
     dynworld_destroy world) s = Ok (tt, s') /\
    heap s' = heap s /\ next s' = (8 + next s)%nat /\
    let n := next s in
    trace s' = trace s
               ++ map EvNew [n; 1 + n; 2 + n; 3 + n; 4 + n; 5 + n; 6 + n; 7 + n]%nat
               ++ map EvDelete [5 + n; 4 + n; 3 + n; 2 + n; 1 + n; 6 + n; 7 + n; n]%nat.
Proof.
  intros Hreach.
  assert (Hbelow : heap_below (heap s) (next s)).
  { destruct Hreach as [calls Hrun].
    assert (Hinit : store_ok initial_state).
    { split; intros a c H; cbn in H; rewrite lookup_empty in H; discriminate. }
    pose proof (tracks_for_each exec calls 0%nat (fun c k' _ => tracks_exec k' c)
                  initial_state Hinit (Nat.le_0_l _)) as H.
    unfold run in Hrun. rewrite Hrun in H. apply H. }
  destruct s as [h n t]. cbn [heap next trace] in *.
  assert (Hfresh : forall k, h !! (k + n)%nat = None).
  { intros k. destruct (h !! (k + n)%nat) as [c|] eqn:E; [|reflexivity].
    pose proof (Hbelow _ c E). lia. }
  eexists. split.
  { erewrite bind_Ok by apply dynworld_create_run.
    unfold dynworld_set_debug_drawer. rewrite !bind_assoc_run. mstep'.
    cbn [world_at debugRenderer delete_ptr]. rewrite ?bind_assoc_run.
    erewrite bind_Ok by apply ret_run.
    rewrite ?bind_assoc_run. mstep'. rewrite ?bind_assoc_run.
    erewrite bind_Ok by (apply setDebugMode_run; lookup_solve).
    cbn [store_ptr]. rewrite ?bind_assoc_run. mstep'. rewrite ?bind_assoc_run. mstep'.
    unfold dynworld_destroy. mstep'.
    cbn [set_m_debugDrawer set_dynamicsWorld set_debugRenderer owned for_each delete_ptr
         collisionConfiguration dispatcher overlappingPairCache solver dynamicsWorld_at
         dynamicsWorld ghostCallback debugRenderer].
    rewrite ?bind_assoc_run.
    do 7 (mstep'; rewrite ?bind_assoc_run).
    erewrite bind_Ok by apply ret_run.
    erewrite free_run' by lookup_solve. reflexivity. }
  cbn [heap next trace]. split; [|split; [reflexivity|]].
  - apply map_eq. intros i.
    pose proof (Hfresh 0%nat) as F0. pose proof (Hfresh 1%nat) as F1.
    pose proof (Hfresh 2%nat) as F2. pose proof (Hfresh 3%nat) as F3.
    pose proof (Hfresh 4%nat) as F4. pose proof (Hfresh 5%nat) as F5.
    pose proof (Hfresh 6%nat) as F6. pose proof (Hfresh 7%nat) as F7.
    cbn [Nat.add] in *.
    repeat first
      [ rewrite lookup_delete_eq
      | rewrite lookup_insert_eq
      | match goal with
        | |- context [delete ?a _ !! i] =>
            destruct (decide (i = a)) as [->|?];
            [rewrite lookup_delete_eq; symmetry; assumption
            |rewrite (lookup_delete_ne _ a i) by congruence]
        | |- context [<[?a := _]> _ !! i] =>
            rewrite (lookup_insert_ne _ a i) by congruence
        end ].
    reflexivity.
  - cbn zeta. cbn [map]. rewrite <- !app_assoc. reflexivity.
Qed.

(** ** A replaced slab is gone *)

Lemma slab_update_dead_prev s world p x :
  heap s !! p = None -> mesh_ok x ->
  slab_update world (Some p) x s = Fault InvalidPointer.
Proof.
  intros Hp [Hvs Hixs]. destruct s as [h n t]. cbn [heap] in Hp.
  unfold slab_update, slab_collider_update.
  do 4 mstep. rewrite !bind_assoc_run.
  rewrite bind_run. unfold load_slab. rewrite bind_run. unfold load. cbn [heap].
  destruct (decide (p = S n)) as [->|Hp1]; [rewrite lookup_insert_eq; reflexivity|].
  rewrite lookup_insert_ne by congruence.
  destruct (decide (p = n)) as [->|Hp0]; [rewrite lookup_insert_eq; reflexivity|].
  rewrite lookup_insert_ne by congruence.
  rewrite Hp. reflexivity.
Qed.

(** The handle given to [slab_collider_update] as the previous slab is dead
    when the call returns: giving it to a second update, of whatever world
    and mesh, is a use after free, while the handle the first update
    returned can be given on. *)
Theorem slab_collider_update_consumes_prev (s : state) (wa p : addr) (q : slab_parts)
    (w : dynworld) (x y : mesh_input) (world : ptr) :
  reachable s -> heap s !! wa = Some (CWorld w) -> live_slab s wa p q ->
  mesh_ok x -> mesh_ok y ->
  exists p' s',
    slab_update (Some wa) (Some p) x s = Ok (Some p', s') /\
    slab_update world (Some p) y s' = Fault InvalidPointer /\
    exists p'' s'', slab_update (Some wa) (Some p') y s' = Ok (Some p'', s'').
Proof.
  intros Hreach Hw Hlive Hx Hy.
  pose proof (reachable_world_ok s wa w Hreach Hw) as Hok.
  destruct (slab_update_next s wa p q x Hok Hlive Hx)
    as (p' & q' & s' & Hrun & Hgone & Hlive' & Hok' & _ & _).
  exists p', s'. split; [exact Hrun|]. split.
  - apply slab_update_dead_prev; [apply Hgone|exact Hy].
  - destruct (slab_update_next s' wa p' q' y Hok' Hlive' Hy)
      as (p'' & q'' & s'' & Hrun' & _).
    exists p'', s''. exact Hrun'.
Qed.

(** ** When [entity_collider_get] needs the world *)

Lemma load_world_fault s world :
  ~ live_world s world -> exists f, load_world world s = Fault f.
Proof.
  intros Hdead. unfold load_world. rewrite bind_run. unfold load.
  destruct world as [wa|]; [|eexists; reflexivity].
  destruct (heap s !! wa) as [c|] eqn:E; [|eexists; reflexivity].
  destruct c; try (eexists; reflexivity).
  exfalso. apply Hdead. eexists _, _. split; [reflexivity|exact E].
Qed.

(** [entity_collider_get] looks at the world it is given only inside the
    loop over the objects overlapping the sensor.  On a live collider of a
    reachable state, with a world pointer that is null or not a world: if
    the collider has no sensor, or its sensor overlaps nothing, the call
    succeeds as with a live world, changes nothing, and reports no
    occlusion for the sensor; if the sensor overlaps something, the call
    dereferences the bad pointer. *)
Theorem entity_collider_get_world_use (s : state) (a : addr) (c : entity_collider)
    (outs : get_outputs) (world : ptr) :
  reachable s -> heap s !! a = Some (CEntity c) -> sensor_live (heap s) c ->
  ~ live_world s world ->
  (sensor_overlaps (heap s) c = [] ->
   entity_collider_get world (Some a) outs s
   = Ok ((0%Z, mkOutputs (read_position c) (read_heading c)
                  (match jump_sensor c with
                   | Some _ => false
                   | None => out_jump_sensor_occluded outs
                   end)), s)) /\
  (sensor_overlaps (heap s) c <> [] ->
   exists f, entity_collider_get world (Some a) outs s = Fault f).
Proof.
  intros Hreach Hc Hlive Hdead.
  unfold sensor_overlaps, entity_collider_get, has_jump_sensor.
  rewrite (bind_Ok _ _ _ _ _ (load_entity_run _ _ _ Hc)).
  unfold read_position, read_heading.
  destruct (jump_sensor c) as [sa|] eqn:Hsa.
  - destruct (Hlive sa Hsa) as [sn Hs]. rewrite Hs.
    pose proof (reachable_good s Hreach sa (CSensor sn) Hs) as Hz. cbn in Hz.
    unfold poll_jump_sensor. rewrite bind_assoc_run.
    rewrite (bind_Ok _ _ _ _ _ (load_entity_run _ _ _ Hc)). rewrite Hsa.
    split.
    + intros Hnil. destruct s as [h n t]. cbn [heap] in *.
      erewrite bind_Ok by (apply poll_run_no_overlap; eassumption).
      cbn [out_pos out_rot mret M_ret]. rewrite vec_eta, Hz.
      replace (with_occluded sn 0) with sn
        by (rewrite <- Hz; symmetry; apply with_occluded_id).
      rewrite (insert_id h sa _ Hs). reflexivity.
    + intros Hsome. destruct (gh_overlappingObjects (sensor_body sn)) as [|o pairs] eqn:Ho;
        [congruence|].
      destruct (load_world_fault s world Hdead) as [f Hf].
      exists f. unfold poll.
      rewrite bind_assoc_run. rewrite (bind_Ok _ _ _ _ _ (load_sensor_run _ _ _ Hs)).
      rewrite Ho. cbn [for_each]. unfold contactPairTest.
      rewrite !bind_assoc_run. rewrite bind_run, Hf. reflexivity.
  - split; [|congruence]. intros _.
    cbn [out_pos out_rot out_jump_sensor_occluded mret M_ret]. rewrite vec_eta.
    reflexivity.
Qed.

End Proofs.

(** ** Closed instances in the scene *)

Lemma entity_collider_set_order_witness :
  heap scene_clear !! 14%nat = Some (CEntity scene_entity) /\
  (forall sa, jump_sensor scene_entity = Some sa ->
              exists sn, heap scene_clear !! sa = Some (CSensor sn)) /\
  exists s',
    entity_collider_set (B := flat_world) (Some 14%nat) (mkVec 1 2 3) 0 (mkVec 1 0 0) 5
                        scene_clear = Ok (0%Z, s') /\
    trace s' = trace scene_clear
      ++ [EvSetWorldTransform (EntityBodyOf 14%nat)
            (set_transform (B := flat_world) scene_entity (mkVec 1 2 3) 0)]
      ++ match sensor_target (B := flat_world) (heap scene_clear) scene_entity
                 (set_transform (B := flat_world) scene_entity (mkVec 1 2 3) 0) with
         | Some (sa, t) => [EvSetWorldTransform (SensorBodyOf sa) t]
         | None => []
         end
      ++ [EvApplyCentralForce (EntityBodyOf 14%nat) (set_force (mkVec 1 0 0) 5)] /\
    (exists c', heap s' !! 14%nat = Some (CEntity c') /\
                rb_worldTransform (collider_body c')
                = set_transform (B := flat_world) scene_entity (mkVec 1 2 3) 0) /\
    (forall sa sn, jump_sensor scene_entity = Some sa ->
       heap scene_clear !! sa = Some (CSensor sn) ->
       exists sn', heap s' !! sa = Some (CSensor sn') /\
         gh_worldTransform (sensor_body sn')
         = transform_mul (set_transform (B := flat_world) scene_entity (mkVec 1 2 3) 0)
             (jump_sensor_offset (B := flat_world) (sensor_shape sn)
                                 (half_dims scene_entity))).
Proof.
  assert (H1 : heap scene_clear !! 14%nat = Some (CEntity scene_entity)) by reflexivity.
  assert (H2 : forall sa, jump_sensor scene_entity = Some sa ->
                          exists sn, heap scene_clear !! sa = Some (CSensor sn)).
  { intros sa [= <-]. eexists. reflexivity. }
  split; [exact H1|]. split; [exact H2|].
  exact (entity_collider_set_order (B := flat_world) scene_clear 14%nat scene_entity
           (mkVec 1 2 3) 0 (mkVec 1 0 0) 5 H1 H2).
Defined.

Lemma entity_collider_set_adds_jump_force_witness :
  heap scene_occluded !! 14%nat = Some (CEntity scene_entity) /\
  (forall sa, jump_sensor scene_entity = Some sa ->
              exists sn, heap scene_occluded !! sa = Some (CSensor sn)) /\
  exists s',
    entity_collider_set (B := flat_world) (Some 14%nat) (mkVec 1 2 3) 0
                        (mkVec 1 0 16777216) 1 scene_occluded = Ok (0%Z, s') /\
    submitted_force (trace s') = Some (mkVec 1 0 (fadd 16777216 1)) /\
    fadd 16777216 1 = Fin 16777216.
Proof.
  assert (H1 : heap scene_occluded !! 14%nat = Some (CEntity scene_entity)) by reflexivity.
  assert (H2 : forall sa, jump_sensor scene_entity = Some sa ->
                          exists sn, heap scene_occluded !! sa = Some (CSensor sn)).
  { intros sa [= <-]. eexists. reflexivity. }
  split; [exact H1|]. split; [exact H2|].
  destruct (entity_collider_set_adds_jump_force (B := flat_world) scene_occluded 14%nat
              scene_entity (mkVec 1 2 3) 0 (mkVec 1 0 16777216) 1 H1 H2)
    as (s' & Hrun & Hforce).
  exists s'. split; [exact Hrun|]. split; [exact Hforce|]. vm_compute. reflexivity.
Defined.

(** C1 as the specification states it fails on the code: whatever value
    of [jump_force] is taken to stand for the conditional action, the call
    adds that same value after a poll that reported occlusion
    ([scene_occluded]) and after one that did not ([scene_clear]), so no
    impulse that is not zero as a float is gated by the sensor. *)
Lemma jump_not_gated_by_sensor :
  ~ exists enc J, ~ feq (to_float J) 0 /\ jump_gated_as_claimed (B := flat_world) enc J.
Proof.
  intros (enc & J & HJ & Hclaim). apply HJ.
  assert (Hocc : feq (fadd 0 (enc IF_SENSOR_OCCLUDED)) 0).
  { assert (H1 : heap scene_occluded !! 14%nat = Some (CEntity scene_entity)) by reflexivity.
    eassert (Hget : entity_collider_get (B := flat_world) (Some 0%nat) (Some 14%nat)
                      blank_outputs scene_occluded = Ok ((0%Z, _), _))
      by (vm_compute; reflexivity).
    match type of Hget with
    | _ = Ok (_, ?s1) =>
        eassert (Hset : entity_collider_set (B := flat_world) (Some 14%nat) vzero 0 vzero
                          (enc IF_SENSOR_OCCLUDED) s1 = Ok (0%Z, _))
          by (eapply (entity_collider_set_run_sensor (B := flat_world)); reflexivity)
    end.
    exact (Hclaim _ _ _ _ _ _ _ _ _ _ _ _ IF_SENSOR_OCCLUDED H1 eq_refl Hget Hset eq_refl). }
  assert (Hclear : feq (fadd 0 (enc IF_SENSOR_OCCLUDED)) (fadd 0 J)).
  { assert (H1 : heap scene_clear !! 14%nat = Some (CEntity scene_entity)) by reflexivity.
    eassert (Hget : entity_collider_get (B := flat_world) (Some 0%nat) (Some 14%nat)
                      blank_outputs scene_clear = Ok ((0%Z, _), _))
      by (vm_compute; reflexivity).
    match type of Hget with
    | _ = Ok (_, ?s1) =>
        eassert (Hset : entity_collider_set (B := flat_world) (Some 14%nat) vzero 0 vzero
                          (enc IF_SENSOR_OCCLUDED) s1 = Ok (0%Z, _))
          by (eapply (entity_collider_set_run_sensor (B := flat_world)); reflexivity)
    end.
    exact (Hclaim _ _ _ _ _ _ _ _ _ _ _ _ IF_SENSOR_OCCLUDED H1 eq_refl Hget Hset eq_refl). }
  unfold fadd in Hclear. rewrite (add_in_0_l binary32 J) in Hclear.
  exact (feq_trans _ _ _ (feq_sym _ _ Hclear) Hocc).
Qed.

Lemma entity_collider_failure_codes_witness :
  heap scene_occluded !! 14%nat = Some (CEntity scene_entity) /\
  jump_sensor scene_entity = Some 15%nat /\
  heap scene_occluded !! 15%nat = Some (CSensor scene_sensor_overlapping) /\
  gh_overlappingObjects (sensor_body scene_sensor_overlapping) <> [] /\
  entity_collider_get (B := flat_world) None (Some 14%nat) blank_outputs scene_occluded
  = Fault NullPointer.
Proof.
  assert (H1 : heap scene_occluded !! 14%nat = Some (CEntity scene_entity)) by reflexivity.
  assert (H2 : jump_sensor scene_entity = Some 15%nat) by reflexivity.
  assert (H3 : heap scene_occluded !! 15%nat = Some (CSensor scene_sensor_overlapping))
    by reflexivity.
  assert (H4 : gh_overlappingObjects (sensor_body scene_sensor_overlapping) <> [])
    by discriminate.
  split; [exact H1|]. split; [exact H2|]. split; [exact H3|]. split; [exact H4|].
  exact (proj2 (proj2 (proj2 (proj2 (proj2
           (entity_collider_failure_codes (B := flat_world) scene_occluded None (Some 14%nat)
              blank_outputs vzero 0 vzero 5)))))
           14%nat scene_entity 15%nat scene_sensor_overlapping eq_refl H1 H2 H3 H4 eq_refl).
Defined.

Lemma jump_sensor_placement_witness :
  heap scene_clear !! 15%nat = Some (CSensor scene_sensor) /\
  box_halfExtents (sensor_shape (new_entity_jump_sensor (mkVec 0.5 0.5 1)))
  = mkVec (Fin (13421773 # 33554432)) (Fin (13421773 # 33554432)) (Fin (1 # 4)) /\
  finite (vget (mkVec 0.5 0.5 1) FWD_DIM) /\ finite (vget (mkVec 0.5 0.5 1) UP_DIM) /\
  finite (jump_sensor_forward_factor (B := flat_world) (sensor_shape scene_sensor)) /\
  vx (origin (jump_sensor_offset (B := flat_world) (sensor_shape scene_sensor)
                                 (mkVec 0.5 0.5 1))) = Fin 0 /\
  vz (origin (jump_sensor_offset (B := flat_world) (sensor_shape scene_sensor)
                                 (mkVec 0.5 0.5 1)))
  = fmul (to_float 1) (single (-0.5)).
Proof.
  assert (H1 : heap scene_clear !! 15%nat = Some (CSensor scene_sensor)) by reflexivity.
  assert (H2 : finite (vget (mkVec 0.5 0.5 1) FWD_DIM)) by exact I.
  assert (H3 : finite (vget (mkVec 0.5 0.5 1) UP_DIM)) by exact I.
  assert (H4 : finite (jump_sensor_forward_factor (B := flat_world)
                         (sensor_shape scene_sensor))) by exact I.
  split; [exact H1|].
  split.
  { rewrite (proj1 (jump_sensor_placement (B := flat_world) scene_clear 15%nat
                      scene_sensor (mkVec 0.5 0.5 1) transform_identity H1)).
    vm_compute. reflexivity. }
  split; [exact H2|]. split; [exact H3|]. split; [exact H4|].
  exact (proj2 (proj2 (proj2 (jump_sensor_placement (B := flat_world) scene_clear 15%nat
           scene_sensor (mkVec 0.5 0.5 1) transform_identity H1))) H2 H3 H4).
Defined.

(** C6 as the specification states it fails on the code.  For an entity
    with half extents (1, 1, 1) the sensor box has the half height 0.25: it
    is 0.5 high.  The downward offset is 0.5, the whole height of the
    sensor, and neither half of that height nor half of the box's half
    extent. *)
Lemma jump_sensor_offset_not_as_specified :
  feq (sensor_height (new_entity_jump_sensor (mkVec 1 1 1))) 0.5 /\
  feq (fneg (vz (origin (jump_sensor_offset (B := flat_world)
                           (sensor_shape (new_entity_jump_sensor (mkVec 1 1 1)))
                           (mkVec 1 1 1)))))
      (sensor_height (new_entity_jump_sensor (mkVec 1 1 1))) /\
  ~ feq (fneg (vz (origin (jump_sensor_offset (B := flat_world)
                             (sensor_shape (new_entity_jump_sensor (mkVec 1 1 1)))
                             (mkVec 1 1 1)))))
        (fmul (sensor_height (new_entity_jump_sensor (mkVec 1 1 1))) 0.5) /\
  ~ feq (fneg (vz (origin (jump_sensor_offset (B := flat_world)
                             (sensor_shape (new_entity_jump_sensor (mkVec 1 1 1)))
                             (mkVec 1 1 1)))))
        (fmul (vget (box_halfExtents (sensor_shape (new_entity_jump_sensor (mkVec 1 1 1))))
                    UP_DIM) 0.5).
Proof.
  split; [vm_compute; reflexivity|].
  split; [vm_compute; reflexivity|].
  split; vm_compute; discriminate.
Qed.

Lemma scene_clear_reachable : reachable (B := flat_world) scene_clear.
Proof. exists scene_calls. vm_compute. reflexivity. Qed.

Lemma scene_occluded_reachable : reachable (B := flat_world) scene_occluded.
Proof. exists (scene_calls ++ [scene_step]). vm_compute. reflexivity. Qed.

Lemma collision_groups_invariant_witness :
  reachable (B := flat_world) scene_clear /\
  heap scene_clear !! 0%nat = Some (CWorld scene_world) /\
  mkReg (EntityBodyOf 14%nat) COL_ENTITIES COLMASK_ENTITY
    ∈ collisionObjects (dynamicsWorld scene_world) /\
  mkReg (EntityBodyOf 17%nat) COL_ENTITIES COLMASK_ENTITY
    ∈ collisionObjects (dynamicsWorld scene_world) /\
  needsCollision (mkReg (EntityBodyOf 14%nat) COL_ENTITIES COLMASK_ENTITY)
                 (mkReg (EntityBodyOf 17%nat) COL_ENTITIES COLMASK_ENTITY) = false.
Proof.
  assert (H1 : heap scene_clear !! 0%nat = Some (CWorld scene_world)) by reflexivity.
  assert (H2 : mkReg (EntityBodyOf 14%nat) COL_ENTITIES COLMASK_ENTITY
                 ∈ collisionObjects (dynamicsWorld scene_world)).
  { apply list_elem_of_In. right. left. reflexivity. }
  assert (H3 : mkReg (EntityBodyOf 17%nat) COL_ENTITIES COLMASK_ENTITY
                 ∈ collisionObjects (dynamicsWorld scene_world)).
  { apply list_elem_of_In. right. right. right. left. reflexivity. }
  split; [exact scene_clear_reachable|]. split; [exact H1|].
  split; [exact H2|]. split; [exact H3|].
  exact (proj1 (proj2 (proj2 (proj2
           (collision_groups_invariant (B := flat_world) scene_clear 0%nat scene_world _ _
              scene_clear_reachable H1 H2 H3)))) eq_refl).
Defined.

Lemma poll_reports_contacts_witness :
  reachable (B := flat_world) scene_occluded /\
  heap scene_occluded !! 15%nat = Some (CSensor scene_sensor_overlapping) /\
  heap scene_occluded !! 0%nat = Some (CWorld scene_world) /\
  exists b s',
    poll (B := flat_world) (Some 15%nat) (Some 0%nat) scene_occluded = Ok (b, s') /\
    (b = true <->
     exists o, o ∈ gh_overlappingObjects (sensor_body scene_sensor_overlapping) /\
               (0 < contactPoints (Bullet := flat_world) (heap scene_occluded)
                      (SensorBodyOf 15%nat) o)%nat) /\
    heap s' !! 15%nat = Some (CSensor (with_occluded scene_sensor_overlapping 0)) /\
    trace s' = trace scene_occluded
               ++ map (EvContactPairTest (SensorBodyOf 15%nat))
                      (gh_overlappingObjects (sensor_body scene_sensor_overlapping)) /\
    (gh_overlappingObjects (sensor_body scene_sensor_overlapping) = [] ->
     b = false /\ trace s' = trace scene_occluded).
Proof.
  assert (H1 : heap scene_occluded !! 15%nat = Some (CSensor scene_sensor_overlapping))
    by reflexivity.
  assert (H2 : heap scene_occluded !! 0%nat = Some (CWorld scene_world)) by reflexivity.
  split; [exact scene_occluded_reachable|]. split; [exact H1|]. split; [exact H2|].
  exact (proj1 (poll_reports_contacts (B := flat_world) scene_occluded 15%nat
                  scene_sensor_overlapping 0%nat scene_world
                  scene_occluded_reachable H1 H2)).
Defined.

Lemma occluded_zero_between_polls_witness :
  reachable (B := flat_world) scene_occluded /\
  reachable (B := flat_world) scene_clear /\
  heap scene_occluded !! 15%nat = Some (CSensor scene_sensor_overlapping) /\
  heap scene_clear !! 15%nat = Some (CSensor scene_sensor) /\
  heap scene_occluded !! 0%nat = Some (CWorld scene_world) /\
  heap scene_clear !! 0%nat = Some (CWorld scene_world) /\
  occluded scene_sensor_overlapping = 0%Z /\
  exists b s1',
    poll (B := flat_world) (Some 15%nat) (Some 0%nat) scene_occluded = Ok (b, s1') /\
    heap s1' !! 15%nat = Some (CSensor scene_sensor_overlapping) /\
    b = existsb (touches (B := flat_world) (heap scene_occluded) 15%nat)
                (gh_overlappingObjects (sensor_body scene_sensor_overlapping)).
Proof.
  assert (H1 : heap scene_occluded !! 15%nat = Some (CSensor scene_sensor_overlapping))
    by reflexivity.
  assert (H2 : heap scene_clear !! 15%nat = Some (CSensor scene_sensor)) by reflexivity.
  assert (H3 : heap scene_occluded !! 0%nat = Some (CWorld scene_world)) by reflexivity.
  assert (H4 : heap scene_clear !! 0%nat = Some (CWorld scene_world)) by reflexivity.
  split; [exact scene_occluded_reachable|]. split; [exact scene_clear_reachable|].
  split; [exact H1|]. split; [exact H2|]. split; [exact H3|]. split; [exact H4|].
  pose proof (occluded_zero_between_polls (B := flat_world) scene_occluded scene_clear 15%nat
                scene_sensor_overlapping scene_sensor 0%nat scene_world scene_world vzero
                scene_occluded_reachable scene_clear_reachable H1 H2 H3 H4) as H.
  exact (conj (proj1 (proj2 H)) (proj1 (proj2 (proj2 H)))).
Defined.

Lemma scene_slab_live : live_slab scene_clear 0 9 scene_slab_parts.
Proof.
  do 6 eexists. repeat split; try reflexivity.
Qed.

Lemma quad_ok : mesh_ok quad.
Proof. split; cbn; lia. Qed.

Lemma slab_collider_update_replaces_witness :
  reachable (B := flat_world) scene_clear /\
  heap scene_clear !! 0%nat = Some (CWorld scene_world) /\
  live_slab scene_clear 0 9 scene_slab_parts /\ mesh_ok quad /\
  exists p' q' s',
    slab_update (Some 0%nat) (Some 9%nat) quad scene_clear = Ok (Some p', s') /\
    slab_gone s' 0 9 scene_slab_parts /\ live_slab s' 0 p' q' /\
    registered_slabs s' 0 = registered_slabs scene_clear 0 /\
    trace s' = trace scene_clear
      ++ [EvNew (part_vertices q'); EvNew (part_indices q')]
      ++ [EvRemoveObject (RigidBodyAt (part_body scene_slab_parts));
          EvDelete (part_indices scene_slab_parts); EvDelete (part_vertices scene_slab_parts);
          EvDelete (part_shape scene_slab_parts); EvDelete (part_mesh scene_slab_parts);
          EvDelete (part_body scene_slab_parts); EvDelete 9%nat]
      ++ [EvNew p'; EvNew (part_mesh q'); EvNew (part_shape q'); EvNew (part_body q');
          EvAddObject (RigidBodyAt (part_body q')) COL_WORLD COLMASK_WORLD].
Proof.
  assert (H1 : heap scene_clear !! 0%nat = Some (CWorld scene_world)) by reflexivity.
  split; [exact scene_clear_reachable|]. split; [exact H1|].
  split; [exact scene_slab_live|]. split; [exact quad_ok|].
  exact (proj1 (slab_collider_update_replaces (B := flat_world) scene_clear 0%nat scene_world
                  scene_clear_reachable H1)
               9%nat scene_slab_parts quad scene_slab_live quad_ok).
Defined.

(** C5 as the specification states it fails on the code: two updates
    that are given no previous slab leave two slab bodies registered in
    the world. *)
Lemma two_slabs_registered : ~ at_most_one_slab_always (B := flat_world).
Proof.
  intros Hclaim.
  eassert (Hrun : run (B := flat_world) _ initial_state = Ok (tt, _));
    [|pose proof (Hclaim (single (-9.8)) [(None, quad); (None, quad)] _ Hrun) as H].
  { vm_compute. reflexivity. }
  vm_compute in H. lia.
Qed.

Lemma dynworld_debug_draw_without_drawer_witness :
  heap scene_clear !! 0%nat = Some (CWorld scene_world) /\
  debugRenderer scene_world = None /\
  dynworld_debug_draw (B := flat_world) (Some 0%nat) (Some 42%nat) scene_clear
  = Fault NullPointer.
Proof.
  assert (H1 : heap scene_clear !! 0%nat = Some (CWorld scene_world)) by reflexivity.
  assert (H2 : debugRenderer scene_world = None) by reflexivity.
  split; [exact H1|]. split; [exact H2|].
  exact (proj2 (proj2 (dynworld_debug_draw_without_drawer (B := flat_world) 0 0%nat
                         (Some 42%nat)))
               scene_clear 0%nat scene_world H1 H2).
Defined.

(** ** Closed instances beyond the claims *)

Lemma scene_drawer_reachable : reachable (B := flat_world) scene_drawer.
Proof.
  exists (scene_calls ++ [Call_dynworld_set_debug_drawer (Some 0%nat) (Some 7%nat)]).
  vm_compute. reflexivity.
Qed.

Lemma scene_entity_sensor_live (s : state) :
  heap s !! 15%nat = Some (CSensor scene_sensor) \/
  heap s !! 15%nat = Some (CSensor scene_sensor_overlapping) ->
  sensor_live (heap s) scene_entity.
Proof. intros [H|H] sa [= <-]; eexists; exact H. Qed.

Lemma dynworld_debug_draw_forwards_witness :
  heap scene_drawer !! 0%nat = Some (CWorld scene_drawer_world) /\
  heap scene_drawer !! 18%nat = Some (CDebugRenderer scene_renderer) /\
  exists s',
    dynworld_debug_draw (B := flat_world) (Some 0%nat) (Some 42%nat) scene_drawer
    = Ok (tt, s') /\
    trace s' = trace scene_drawer ++ EvDebugDrawWorld
      :: map (line_event (draw_line scene_renderer) (Some 42%nat))
             (debugLines (Bullet := flat_world)
                (<[18%nat := CDebugRenderer (mkRenderer (Some 42%nat) (draw_line scene_renderer)
                                                        (mode scene_renderer))]>
                   (heap scene_drawer))
                (collisionObjects (dynamicsWorld scene_drawer_world))) /\
    heap s' = <[18%nat := CDebugRenderer (mkRenderer None (draw_line scene_renderer)
                                                     (mode scene_renderer))]>
                (heap scene_drawer) /\
    next s' = next scene_drawer.
Proof.
  assert (H1 : heap scene_drawer !! 0%nat = Some (CWorld scene_drawer_world)) by reflexivity.
  assert (H2 : heap scene_drawer !! 18%nat = Some (CDebugRenderer scene_renderer))
    by reflexivity.
  split; [exact H1|]. split; [exact H2|].
  exact (dynworld_debug_draw_forwards (B := flat_world) scene_drawer 0%nat 18%nat
           scene_drawer_world scene_renderer (Some 42%nat) H1 eq_refl eq_refl H2).
Defined.

Lemma dynworld_set_debug_drawer_installs_witness :
  reachable (B := flat_world) scene_drawer /\
  heap scene_drawer !! 0%nat = Some (CWorld scene_drawer_world) /\
  renderer_sound scene_drawer scene_drawer_world /\
  exists s',
    dynworld_set_debug_drawer (Some 0%nat) (Some 8%nat) scene_drawer
    = Ok (tt, s') /\
    heap s' !! 19%nat = Some (CDebugRenderer (mkRenderer None (Some 8%nat) DBG_DrawWireframe)) /\
    heap s' !! 18%nat = None.
Proof.
  assert (H1 : heap scene_drawer !! 0%nat = Some (CWorld scene_drawer_world)) by reflexivity.
  assert (H2 : renderer_sound scene_drawer scene_drawer_world)
    by (exists scene_renderer; reflexivity).
  split; [exact scene_drawer_reachable|]. split; [exact H1|]. split; [exact H2|].
  destruct (dynworld_set_debug_drawer_installs (B := flat_world) scene_drawer 0%nat
              scene_drawer_world 8%nat scene_drawer_reachable H1 H2)
    as (s' & Hrun & Hnew & _ & Hold & _).
  exists s'. split; [exact Hrun|]. split; [exact Hnew|]. exact (Hold 18%nat eq_refl).
Defined.

Lemma dynworld_set_debug_drawer_null_dangles_witness :
  heap scene_drawer !! 0%nat = Some (CWorld scene_drawer_world) /\
  heap scene_drawer !! 18%nat = Some (CDebugRenderer scene_renderer) /\
  exists s',
    dynworld_set_debug_drawer (Some 0%nat) None scene_drawer = Ok (tt, s') /\
    heap s' = delete 18%nat (heap scene_drawer) /\
    heap s' !! 0%nat = Some (CWorld scene_drawer_world) /\
    (forall f, dynworld_set_debug_drawer (Some 0%nat) f s'
               = Fault InvalidPointer) /\
    dynworld_destroy (Some 0%nat) s' = Fault InvalidPointer /\
    (forall blob, dynworld_debug_draw (B := flat_world) (Some 0%nat) blob s'
                  = Fault InvalidPointer).
Proof.
  assert (H1 : heap scene_drawer !! 0%nat = Some (CWorld scene_drawer_world)) by reflexivity.
  assert (H2 : heap scene_drawer !! 18%nat = Some (CDebugRenderer scene_renderer))
    by reflexivity.
  split; [exact H1|]. split; [exact H2|].
  exact (dynworld_set_debug_drawer_null_dangles (B := flat_world) scene_drawer 0%nat 18%nat
           scene_drawer_world scene_renderer H1 eq_refl H2).
Defined.

Lemma scene_drawer_owns_live : owns_live scene_drawer 0%nat scene_drawer_world.
Proof.
  split.
  - refine (bool_decide_unpack _ _). vm_compute. exact I.
  - intros a Ha. change (a ∈ [5; 4; 3; 2; 1; 6; 18]%nat) in Ha.
    repeat (apply elem_of_cons in Ha as [->|Ha]; [eexists; reflexivity|]).
    inversion Ha.
Qed.

Lemma dynworld_destroy_releases_witness :
  heap scene_drawer !! 0%nat = Some (CWorld scene_drawer_world) /\
  owns_live scene_drawer 0%nat scene_drawer_world /\
  exists s',
    dynworld_destroy (Some 0%nat) scene_drawer = Ok (tt, s') /\
    trace s' = trace scene_drawer ++ map EvDelete ([5; 4; 3; 2; 1; 6; 18] ++ [0])%nat /\
    (forall a, a ∈ [0; 5; 4; 3; 2; 1; 6; 18]%nat -> heap s' !! a = None) /\
    next s' = next scene_drawer /\
    (forall a c, heap scene_drawer !! a = Some c -> a ∉ [0; 5; 4; 3; 2; 1; 6; 18]%nat ->
                 exists c', heap s' !! a = Some c' /\ kept c c') /\
    dynworld_destroy (Some 0%nat) s' = Fault InvalidPointer.
Proof.
  assert (H1 : heap scene_drawer !! 0%nat = Some (CWorld scene_drawer_world)) by reflexivity.
  split; [exact H1|]. split; [exact scene_drawer_owns_live|].
  exact (proj2 (dynworld_destroy_releases scene_drawer 0%nat scene_drawer_world H1
                  scene_drawer_owns_live)).
Defined.

Lemma entity_collider_create_builds_witness :
  reachable (B := flat_world) scene_clear /\
  heap scene_clear !! 0%nat = Some (CWorld scene_world) /\
  exists s' c,
    entity_collider_create (B := flat_world) (Some 0%nat) (mkVec 1 2 3) (mkVec 0.5 0.5 1)
                           0.2 0.8 true scene_clear
    = Ok (Some 19%nat, s') /\
    heap s' !! 19%nat = Some (CEntity c) /\
    jump_sensor c = Some 20%nat /\
    next s' = 21%nat.
Proof.
  assert (H1 : heap scene_clear !! 0%nat = Some (CWorld scene_world)) by reflexivity.
  split; [exact scene_clear_reachable|]. split; [exact H1|].
  destruct (entity_collider_create_builds (B := flat_world) scene_clear 0%nat scene_world
              (mkVec 1 2 3) (mkVec 0.5 0.5 1) 0.2 0.8 true scene_clear_reachable H1)
    as (s' & c & Hrun & _ & Hc & _ & _ & _ & Hsensor & _ & _ & Hnext & _).
  exists s', c. split; [exact Hrun|]. split; [exact Hc|]. split; [exact Hsensor|exact Hnext].
Defined.

Lemma entity_collider_get_pos_agrees_witness :
  exists outs' s',
    entity_collider_get (B := flat_world) (Some 0%nat) (Some 14%nat) blank_outputs scene_occluded
    = Ok ((0%Z, outs'), s') /\
    entity_collider_get_pos (Some 14%nat) (out_pos blank_outputs) scene_occluded
    = Ok ((0%Z, out_pos outs'), scene_occluded) /\
    entity_collider_get_pos (Some 14%nat) (out_pos blank_outputs) s'
    = Ok ((0%Z, out_pos outs'), s').
Proof.
  eassert (H : entity_collider_get (B := flat_world) (Some 0%nat) (Some 14%nat) blank_outputs
                 scene_occluded = Ok ((0%Z, _), _)) by (vm_compute; reflexivity).
  eexists _, _. split; [exact H|].
  exact (entity_collider_get_pos_agrees (B := flat_world) _ _ _ _ _ _ _ H).
Defined.

Lemma entity_collider_get_is_a_read_witness :
  reachable (B := flat_world) scene_occluded /\
  heap scene_occluded !! 0%nat = Some (CWorld scene_world) /\
  heap scene_occluded !! 14%nat = Some (CEntity scene_entity) /\
  sensor_live (heap scene_occluded) scene_entity /\
  exists outs' s',
    entity_collider_get (B := flat_world) (Some 0%nat) (Some 14%nat) blank_outputs scene_occluded
    = Ok ((0%Z, outs'), s') /\
    heap s' = heap scene_occluded /\
    out_jump_sensor_occluded outs' = true.
Proof.
  assert (H1 : heap scene_occluded !! 0%nat = Some (CWorld scene_world)) by reflexivity.
  assert (H2 : heap scene_occluded !! 14%nat = Some (CEntity scene_entity)) by reflexivity.
  assert (H3 : sensor_live (heap scene_occluded) scene_entity)
    by (apply scene_entity_sensor_live; right; reflexivity).
  split; [exact scene_occluded_reachable|]. split; [exact H1|]. split; [exact H2|].
  split; [exact H3|].
  destruct (entity_collider_get_is_a_read (B := flat_world) scene_occluded 0%nat 14%nat
              scene_world scene_entity blank_outputs scene_occluded_reachable H1 H2 H3)
    as (outs' & s' & Hrun & Hheap & _ & _ & _ & _ & Hocc & _).
  exists outs', s'. split; [exact Hrun|]. split; [exact Hheap|].
  rewrite Hocc. reflexivity.
Defined.

Lemma entity_collider_create_then_get_witness :
  reachable (B := flat_world) scene_clear /\
  heap scene_clear !! 0%nat = Some (CWorld scene_world) /\
  exists p s1 s2 outs',
    entity_collider_create (B := flat_world) (Some 0%nat) (mkVec 1 2 3) (mkVec 0.5 0.5 1)
                           0.2 0.8 true scene_clear = Ok (p, s1) /\
    entity_collider_get (B := flat_world) (Some 0%nat) p blank_outputs s1
    = Ok ((0%Z, outs'), s2) /\
    out_pos outs' = mkVec 1 2 3.
Proof.
  assert (H1 : heap scene_clear !! 0%nat = Some (CWorld scene_world)) by reflexivity.
  split; [exact scene_clear_reachable|]. split; [exact H1|].
  destruct (entity_collider_create_then_get (B := flat_world) scene_clear 0%nat scene_world
              (mkVec 1 2 3) (mkVec 0.5 0.5 1) 0.2 0.8 true blank_outputs
              scene_clear_reachable H1)
    as (p & s1 & s2 & outs' & Hrun & _ & Hget & Hpos & _).
  exists p, s1, s2, outs'. split; [exact Hrun|]. split; [exact Hget|exact Hpos].
Defined.

Lemma entity_collider_set_position_not_read_back_witness :
  heap scene_clear !! 14%nat = Some (CEntity scene_entity) /\
  sensor_live (heap scene_clear) scene_entity /\
  exists s',
    entity_collider_set (B := flat_world) (Some 14%nat) (mkVec 1 2 3) 0 (mkVec 1 0 0) 5
                        scene_clear = Ok (0%Z, s') /\
    entity_collider_get_pos (Some 14%nat) vzero s' = Ok ((0%Z, mkVec 0 0 10), s').
Proof.
  assert (H1 : heap scene_clear !! 14%nat = Some (CEntity scene_entity)) by reflexivity.
  assert (H2 : sensor_live (heap scene_clear) scene_entity)
    by (apply scene_entity_sensor_live; left; reflexivity).
  split; [exact H1|]. split; [exact H2|].
  destruct (entity_collider_set_position_not_read_back (B := flat_world) scene_clear 14%nat
              scene_entity (mkVec 1 2 3) 0 (mkVec 1 0 0) 5 vzero H1 H2)
    as (s' & c' & Hrun & _ & _ & _ & _ & Hpos & _).
  exists s'. split; [exact Hrun|exact Hpos].
Defined.

Lemma entity_collider_set_twice_witness :
  heap scene_clear !! 14%nat = Some (CEntity scene_entity) /\
  sensor_live (heap scene_clear) scene_entity /\
  exists s1 s2 c2,
    entity_collider_set (B := flat_world) (Some 14%nat) (mkVec 1 2 3) 0 (mkVec 1 0 0) 5
                        scene_clear = Ok (0%Z, s1) /\
    entity_collider_set (B := flat_world) (Some 14%nat) (mkVec 4 5 6) 1 (mkVec 0 1 0) 0
                        s1 = Ok (0%Z, s2) /\
    heap s2 !! 14%nat = Some (CEntity c2) /\
    rb_worldTransform (collider_body c2)
    = mkTransform (axisAngleBasis (Bullet := flat_world) UP 1) (mkVec 4 5 6).
Proof.
  assert (H1 : heap scene_clear !! 14%nat = Some (CEntity scene_entity)) by reflexivity.
  assert (H2 : sensor_live (heap scene_clear) scene_entity)
    by (apply scene_entity_sensor_live; left; reflexivity).
  split; [exact H1|]. split; [exact H2|].
  destruct (entity_collider_set_twice (B := flat_world) scene_clear 14%nat scene_entity
              (mkVec 1 2 3) (mkVec 4 5 6) 0 1 (mkVec 1 0 0) (mkVec 0 1 0) 5 0 H1 H2)
    as (s1 & s2 & c2 & Hrun1 & Hrun2 & Hc2 & Ht & _).
  exists s1, s2, c2. split; [exact Hrun1|]. split; [exact Hrun2|]. split; [exact Hc2|exact Ht].
Defined.

Lemma slab_collider_update_builds_witness :
  reachable (B := flat_world) scene_clear /\
  heap scene_clear !! 0%nat = Some (CWorld scene_world) /\
  mesh_ok quad /\ live_slab scene_clear 0 9 scene_slab_parts /\
  exists s',
    slab_update (Some 0%nat) (Some 9%nat) quad scene_clear
    = Ok (Some 20%nat, s') /\
    heap s' !! 21%nat
    = Some (CMesh [mkIndexedMesh 2 (Some 19%nat) 12 4 (Some 18%nat) 12]) /\
    heap s' !! 14%nat = Some (CEntity scene_entity).
Proof.
  assert (H1 : heap scene_clear !! 0%nat = Some (CWorld scene_world)) by reflexivity.
  assert (H2 : (Z.of_nat (in_vertices_count quad) < 2 ^ 31)%Z) by reflexivity.
  assert (H3 : (Z.of_nat (in_indices_count quad) < 2 ^ 31)%Z) by reflexivity.
  assert (H4 : forall p, Some 9%nat = Some p -> live_slab scene_clear 0 p scene_slab_parts)
    by (intros p [= <-]; exact scene_slab_live).
  split; [exact scene_clear_reachable|]. split; [exact H1|]. split; [exact quad_ok|].
  split; [exact scene_slab_live|].
  destruct (slab_collider_update_builds (B := flat_world) scene_clear 0%nat scene_world quad
              (Some 9%nat) scene_slab_parts scene_clear_reachable H1 quad_ok H2 H3 H4)
    as (s' & Hrun & _ & _ & Hmesh & _ & _ & _ & Hframe).
  exists s'. split; [exact Hrun|]. split; [exact Hmesh|].
  assert (H5 : heap scene_clear !! 14%nat = Some (CEntity scene_entity)) by reflexivity.
  assert (H6 : forall p, Some 9%nat = Some p -> 14%nat ∉ slab_cells p scene_slab_parts).
  { intros p [= <-]. unfold slab_cells. cbn. rewrite !not_elem_of_cons.
    repeat (split; [discriminate|]). apply not_elem_of_nil. }
  assert (H7 : 14%nat <> 0%nat) by discriminate.
  destruct (Hframe 14%nat _ H5 H7 H6) as (c' & Hc' & Hk).
  cbn [kept] in Hk. rewrite <- Hk. exact Hc'.
Defined.

Lemma registered_pair_considered_witness :
  reachable (B := flat_world) scene_clear /\
  heap scene_clear !! 0%nat = Some (CWorld scene_world) /\
  needsCollision (mkReg (RigidBodyAt 12%nat) COL_WORLD COLMASK_WORLD)
                 (mkReg (SensorBodyOf 15%nat) COL_ENTITY_JUMP_SENSOR COLMASK_ENTITY_JUMP_SENSOR)
  = true.
Proof.
  assert (H1 : heap scene_clear !! 0%nat = Some (CWorld scene_world)) by reflexivity.
  assert (H2 : mkReg (RigidBodyAt 12%nat) COL_WORLD COLMASK_WORLD
                 ∈ collisionObjects (dynamicsWorld scene_world)).
  { apply list_elem_of_In. left. reflexivity. }
  assert (H3 : mkReg (SensorBodyOf 15%nat) COL_ENTITY_JUMP_SENSOR COLMASK_ENTITY_JUMP_SENSOR
                 ∈ collisionObjects (dynamicsWorld scene_world)).
  { apply list_elem_of_In. right. right. left. reflexivity. }
  split; [exact scene_clear_reachable|]. split; [exact H1|].
  exact (registered_pair_considered (B := flat_world) scene_clear 0%nat scene_world _ _
           scene_clear_reachable H1 H2 H3).
Defined.

Lemma dynworld_lifecycle_round_trip_witness :
  reachable (B := flat_world) scene_clear /\
  exists s',
    (world ← dynworld_create (single (-9.8));
     dynworld_set_debug_drawer world (Some 7%nat);;
     dynworld_destroy world) scene_clear = Ok (tt, s') /\
    heap s' = heap scene_clear /\ next s' = 26%nat /\
    trace s' = trace scene_clear
               ++ map EvNew [18; 19; 20; 21; 22; 23; 24; 25]%nat
               ++ map EvDelete [23; 22; 21; 20; 19; 24; 25; 18]%nat.
Proof.
  split; [exact scene_clear_reachable|].
  exact (dynworld_lifecycle_round_trip (B := flat_world) scene_clear (single (-9.8)) 7%nat
           scene_clear_reachable).
Defined.

Lemma slab_collider_update_consumes_prev_witness :
  reachable (B := flat_world) scene_clear /\
  heap scene_clear !! 0%nat = Some (CWorld scene_world) /\
  live_slab scene_clear 0 9 scene_slab_parts /\ mesh_ok quad /\
  exists p' s',
    slab_update (Some 0%nat) (Some 9%nat) quad scene_clear
    = Ok (Some p', s') /\
    slab_update (Some 0%nat) (Some 9%nat) quad s' = Fault InvalidPointer /\
    exists p'' s'',
      slab_update (Some 0%nat) (Some p') quad s' = Ok (Some p'', s'').
Proof.
  assert (H1 : heap scene_clear !! 0%nat = Some (CWorld scene_world)) by reflexivity.
  split; [exact scene_clear_reachable|]. split; [exact H1|].
  split; [exact scene_slab_live|]. split; [exact quad_ok|].
  exact (slab_collider_update_consumes_prev (B := flat_world) scene_clear 0%nat 9%nat
           scene_slab_parts scene_world quad quad (Some 0%nat)
           scene_clear_reachable H1 scene_slab_live quad_ok quad_ok).
Defined.

Lemma entity_collider_get_world_use_witness :
  reachable (B := flat_world) scene_occluded /\
  heap scene_occluded !! 14%nat = Some (CEntity scene_entity) /\
  sensor_live (heap scene_occluded) scene_entity /\
  ~ live_world scene_occluded None /\
  exists f,
    entity_collider_get (B := flat_world) None (Some 14%nat) blank_outputs scene_occluded
    = Fault f.
Proof.
  assert (H1 : heap scene_occluded !! 14%nat = Some (CEntity scene_entity)) by reflexivity.
  assert (H2 : sensor_live (heap scene_occluded) scene_entity)
    by (apply scene_entity_sensor_live; right; reflexivity).
  assert (H3 : ~ live_world scene_occluded None)
    by (intros (a & w & Hnone & _); discriminate Hnone).
  assert (H4 : sensor_overlaps (heap scene_occluded) scene_entity <> [])
    by (vm_compute; discriminate).
  split; [exact scene_occluded_reachable|]. split; [exact H1|]. split; [exact H2|].
  split; [exact H3|].
  exact (proj2 (entity_collider_get_world_use (B := flat_world) scene_occluded 14%nat
                  scene_entity blank_outputs None scene_occluded_reachable H1 H2 H3) H4).
Defined.

(** * bulletc.cpp: entities of the first version *)

Lemma legacy_get_live s a b rb pos rot :
  Legacy.live s a b rb ->
  Legacy.entity_collider_get (Some a) pos rot s
  = Ok ((0%Z, origin (rb_interpolationWorldTransform rb),
         Legacy.vec_mat (mkVec 0.0 1.0 0.0) (basis (rb_interpolationWorldTransform rb))), s).
Proof.
  intros [Ha Hb]. unfold Legacy.entity_collider_get. rewrite Ha. cbn [Legacy.body].
  rewrite Hb. destruct (origin _), (Legacy.vec_mat _ _). reflexivity.
Qed.

(** The products by 0 and by 1 and the two sums of a component of the
    heading leave a float of the second row as it is. *)
Lemma legacy_heading_component (a d g : btScalar) :
  finite a -> is_float d -> finite g ->
  feq (fadd (fadd (fmul a 0.0) (fmul d 1.0)) (fmul g 0.0)) d.
Proof.
  intros Ha [_ Hd] Hg. unfold fadd, fmul.
  assert (H00 : (0.0 == 0)%Q) by reflexivity.
  assert (H10 : (1.0 == 1)%Q) by reflexivity.
  rewrite (mul_in_zero_r binary32 0.0 a H00 Ha), (mul_in_zero_r binary32 0.0 g H00 Hg).
  rewrite (mul_in_one_r binary32 1.0 d H10).
  rewrite add_in_0_l, add_in_0_r.
  rewrite !convert_idempotent by apply binary32_precision.
  exact Hd.
Qed.

Lemma legacy_heading (m : btMatrix3x3) :
  float_matrix m -> veq (Legacy.vec_mat (mkVec 0.0 1.0 0.0) m) (row1 m).
Proof.
  destruct m as [[a b c] [d e f] [g h i]].
  intros ((Ha & Hb & Hc) & (Hd & He & Hf) & (Hg & Hh & Hi)).
  cbn [row0 row1 row2 vx vy vz] in *.
  unfold Legacy.vec_mat, veq, vdot, mat_col.
  cbn [vget row0 row1 row2 vx vy vz].
  repeat split; apply legacy_heading_component;
    first [assumption | apply Ha | apply Hb | apply Hc | apply Hg | apply Hh | apply Hi].
Qed.

Lemma float_matrix_identity : float_matrix mat_identity.
Proof. repeat split; vm_compute; reflexivity. Qed.

(** In the first version of the bridge, [entity_collider_get] and
    [entity_collider_set] fail with -1 on a null handle and also on a
    collider whose body pointer is null; they then write nothing and change
    nothing.  They return no other code than 0 and -1, and -1 in these two
    cases only. *)
Theorem legacy_entity_collider_checks_body (s : Legacy.state) (collider : ptr)
    (pos rot vel : btVector3) :
  ((collider = None \/
    exists a, collider = Some a /\
              Legacy.heap s !! a = Some (Legacy.CCollider (Legacy.mkCollider None))) ->
   Legacy.entity_collider_get collider pos rot s = Ok (((-1)%Z, pos, rot), s) /\
   Legacy.entity_collider_set collider pos rot vel s = Ok ((-1)%Z, s)) /\
  (forall r pos' rot' s',
     Legacy.entity_collider_get collider pos rot s = Ok ((r, pos', rot'), s') ->
     (r = 0%Z \/ r = (-1)%Z) /\
     (r <> 0%Z ->
      collider = None \/
      exists a, collider = Some a /\
                Legacy.heap s !! a = Some (Legacy.CCollider (Legacy.mkCollider None)))) /\
  (forall r s',
     Legacy.entity_collider_set collider pos rot vel s = Ok (r, s') ->
     (r = 0%Z \/ r = (-1)%Z) /\
     (r <> 0%Z ->
      collider = None \/
      exists a, collider = Some a /\
                Legacy.heap s !! a = Some (Legacy.CCollider (Legacy.mkCollider None)))).
Proof.
  split; [|split].
  - intros [->|(a & -> & Ha)]; [split; reflexivity|].
    unfold Legacy.entity_collider_get, Legacy.entity_collider_set. rewrite Ha.
    split; reflexivity.
  - intros r pos' rot' s'. unfold Legacy.entity_collider_get.
    destruct collider as [a|]; [|intros [= <- _ _ _]; auto].
    destruct (Legacy.heap s !! a) as [[?|?|?|[[b|]]]|] eqn:Ha; try discriminate;
      cbn [Legacy.body].
    + destruct (Legacy.heap s !! b) as [[?|?|rb|?]|]; try discriminate.
      intros [= <- _ _ _]. split; [auto|congruence].
    + intros [= <- _ _ _]. split; [auto|]. intros _. right. exists a. auto.
  - intros r s'. unfold Legacy.entity_collider_set.
    destruct collider as [a|]; [|intros [= <- _]; auto].
    destruct (Legacy.heap s !! a) as [[?|?|?|[[b|]]]|] eqn:Ha; try discriminate;
      cbn [Legacy.body].
    + destruct (Legacy.heap s !! b) as [[?|?|rb|?]|]; try discriminate.
      intros [= <- _]. split; [auto|congruence].
    + intros [= <- _]. split; [auto|]. intros _. right. exists a. auto.
Qed.

(** In the first version of the bridge a position set is read back at
    once: [entity_collider_set] moves the centre of mass, which moves the
    interpolated transform that [entity_collider_get] reads.  The rotation
    given to [entity_collider_set] has no effect: the heading read
    afterwards is the forward vector times the basis the body had,
    whatever rotation was given, and for a basis of finite floats that is
    its second row.  The force is added to the body's, component by
    component in single precision, and nothing but the body changes. *)
Theorem legacy_set_then_get (s : Legacy.state) (a b : addr) (rb : btRigidBody)
    (pos rot vel buf_pos buf_rot : btVector3) :
  Legacy.live s a b rb ->
  exists s' rb' heading,
    Legacy.entity_collider_set (Some a) pos rot vel s = Ok (0%Z, s') /\
    Legacy.live s' a b rb' /\
    Legacy.entity_collider_get (Some a) buf_pos buf_rot s' = Ok ((0%Z, pos, heading), s') /\
    heading = Legacy.vec_mat (mkVec 0.0 1.0 0.0) (basis (rb_worldTransform rb)) /\
    (float_matrix (basis (rb_worldTransform rb)) ->
     veq heading (row1 (basis (rb_worldTransform rb)))) /\
    rb_totalForce rb'
    = mkVec (fadd (vx (rb_totalForce rb)) (vx vel)) (fadd (vy (rb_totalForce rb)) (vy vel))
            (fadd (vz (rb_totalForce rb)) (vz vel)) /\
    Legacy.next s' = Legacy.next s /\
    (forall c, c <> b -> Legacy.heap s' !! c = Legacy.heap s !! c).
Proof.
  intros [Ha Hb]. assert (a <> b) by congruence.
  pose (rb' := set_rb_totalForce
                 (Legacy.setCenterOfMassTransform rb
                    (setOrigin (rb_worldTransform rb) (mkVec (vx pos) (vy pos) (vz pos))))
                 (vadd (rb_totalForce rb) (mkVec (vx vel) (vy vel) (vz vel)))).
  pose (s' := Legacy.mkState (<[b := Legacy.CRigidBody rb']> (Legacy.heap s)) (Legacy.next s)).
  assert (Hlive : Legacy.live s' a b rb').
  { split; cbn [Legacy.heap s'].
    - rewrite lookup_insert_ne by congruence. exact Ha.
    - apply lookup_insert_eq. }
  exists s', rb'. eexists. split.
  { unfold Legacy.entity_collider_set. rewrite Ha. cbn [Legacy.body]. rewrite Hb.
    reflexivity. }
  split; [exact Hlive|]. split.
  { rewrite (legacy_get_live _ a b _ buf_pos buf_rot Hlive).
    cbn [rb' set_rb_totalForce Legacy.setCenterOfMassTransform rb_interpolationWorldTransform
         setOrigin origin basis].
    destruct pos; reflexivity. }
  split; [reflexivity|].
  split; [apply legacy_heading|].
  split; [reflexivity|].
  split; [reflexivity|].
  intros c Hc. cbn [Legacy.heap s']. rewrite lookup_insert_ne by congruence. reflexivity.
Qed.

(** [entity_collider_create] of the first version, in a live world with
    the allocator ahead of the store: the box, the body and the collider
    are allocated in this order; the body has mass 2, for friction and
    damping the floats that 0.2 and 0.8 are stored as, turns about the z
    axis only, and is registered in group
    [COL_ENTITIES] with mask [COL_WORLD], after the objects already
    registered.  Read back at once, the collider is at the centre it was
    given and heads forward. *)
Theorem legacy_entity_collider_create_then_get (s : Legacy.state) (wa : addr) (w : dynworld)
    (center half_extents buf_pos buf_rot : btVector3) :
  Legacy.heap s !! wa = Some (Legacy.CWorld w) ->
  (forall a c, Legacy.heap s !! a = Some c -> (a < Legacy.next s)%nat) ->
  exists s' heading,
    let n := Legacy.next s in
    Legacy.entity_collider_create (Some wa) center half_extents s
    = Ok (Some (2 + n)%nat, s') /\
    Legacy.heap s' !! n = Some (Legacy.CBoxShape (mkBox half_extents)) /\
    Legacy.live s' (2 + n)%nat (1 + n)%nat
      (mkRigidBody 2.0 (Some n) (single 0.2) (single 0.8)
         (mkTransform mat_identity center) (mkTransform mat_identity center)
         (mkVec 0.0 0.0 1.0) vzero 0) /\
    Legacy.heap s' !! wa
    = Some (Legacy.CWorld (set_collisionObjects w
         (collisionObjects (dynamicsWorld w)
          ++ [mkReg (RigidBodyAt (1 + n)%nat) (Z.shiftl 1 1) (Z.shiftl 1 0)]))) /\
    Legacy.entity_collider_get (Some (2 + n)%nat) buf_pos buf_rot s'
    = Ok ((0%Z, center, heading), s') /\
    veq heading (mkVec 0 1 0).
Proof.
  intros Hw Hbelow. pose proof (Hbelow wa _ Hw) as Hlt.
  destruct s as [h n]. cbn [Legacy.heap Legacy.next] in *.
  destruct center as [cx cy cz], half_extents as [hx hy hz].
  assert (Hrun : Legacy.entity_collider_create (Some wa) (mkVec cx cy cz) (mkVec hx hy hz)
                   (Legacy.mkState h n)
                 = Ok (Some (S (S n)), Legacy.mkState
                     (<[S (S n) := Legacy.CCollider (Legacy.mkCollider (Some (S n)))]>
                        (<[wa := Legacy.CWorld (set_collisionObjects w
                             (collisionObjects (dynamicsWorld w)
                              ++ [mkReg (RigidBodyAt (S n)) Legacy.COL_ENTITIES Legacy.COL_WORLD]))]>
                           (<[S n := Legacy.CRigidBody
                                (mkRigidBody 2.0 (Some n) (single 0.2) (single 0.8)
                                   (mkTransform mat_identity (mkVec cx cy cz))
                                   (mkTransform mat_identity (mkVec cx cy cz))
                                   (mkVec 0.0 0.0 1.0) vzero 0)]>
                              (<[n := Legacy.CBoxShape (mkBox (mkVec hx hy hz))]> h))))
                     (S (S (S n))))).
  { unfold Legacy.entity_collider_create. cbn [Legacy.heap Legacy.next vx vy vz].
    rewrite !lookup_insert_ne by lia. rewrite Hw. reflexivity. }
  assert (Hlive : Legacy.live
            (Legacy.mkState
               (<[S (S n) := Legacy.CCollider (Legacy.mkCollider (Some (S n)))]>
                  (<[wa := Legacy.CWorld (set_collisionObjects w
                       (collisionObjects (dynamicsWorld w)
                        ++ [mkReg (RigidBodyAt (S n)) Legacy.COL_ENTITIES Legacy.COL_WORLD]))]>
                     (<[S n := Legacy.CRigidBody
                          (mkRigidBody 2.0 (Some n) (single 0.2) (single 0.8)
                             (mkTransform mat_identity (mkVec cx cy cz))
                             (mkTransform mat_identity (mkVec cx cy cz))
                             (mkVec 0.0 0.0 1.0) vzero 0)]>
                        (<[n := Legacy.CBoxShape (mkBox (mkVec hx hy hz))]> h))))
               (S (S (S n))))
            (S (S n)) (S n)
            (mkRigidBody 2.0 (Some n) (single 0.2) (single 0.8)
               (mkTransform mat_identity (mkVec cx cy cz))
               (mkTransform mat_identity (mkVec cx cy cz))
               (mkVec 0.0 0.0 1.0) vzero 0)).
  { split; cbn [Legacy.heap].
    - apply lookup_insert_eq.
    - rewrite lookup_insert_ne by lia. rewrite lookup_insert_ne by lia.
      apply lookup_insert_eq. }
  eexists _, _. cbn zeta. cbn [Nat.add].
  split; [exact Hrun|]. split.
  { cbn [Legacy.heap]. rewrite lookup_insert_ne by lia. rewrite lookup_insert_ne by lia.
    rewrite lookup_insert_ne by lia. apply lookup_insert_eq. }
  split; [exact Hlive|]. split.
  { cbn [Legacy.heap]. rewrite lookup_insert_ne by lia. apply lookup_insert_eq. }
  split.
  { exact (legacy_get_live _ _ _ _ buf_pos buf_rot Hlive). }
  cbn [rb_interpolationWorldTransform basis].
  apply (legacy_heading mat_identity), float_matrix_identity.
Qed.

(** ** Closed instances *)

Lemma legacy_scene_live : Legacy.live Legacy.scene 8 7 Legacy.scene_body.
Proof. split; reflexivity. Qed.

Lemma legacy_entity_collider_checks_body_witness :
  Legacy.entity_collider_get None vzero vzero Legacy.scene
  = Ok (((-1)%Z, vzero, vzero), Legacy.scene) /\
  Legacy.entity_collider_set None vzero vzero vzero Legacy.scene = Ok ((-1)%Z, Legacy.scene).
Proof.
  exact (proj1 (legacy_entity_collider_checks_body Legacy.scene None vzero vzero vzero)
               (or_introl eq_refl)).
Defined.

Lemma legacy_set_then_get_witness :
  Legacy.live Legacy.scene 8 7 Legacy.scene_body /\
  float_matrix (basis (rb_worldTransform Legacy.scene_body)) /\
  exists s' rb' heading,
    Legacy.entity_collider_set (Some 8%nat) (mkVec 1 2 3) (mkVec 1 0 0) (mkVec 0 16777216 1)
                               Legacy.scene = Ok (0%Z, s') /\
    Legacy.live s' 8 7 rb' /\
    Legacy.entity_collider_get (Some 8%nat) vzero vzero s'
    = Ok ((0%Z, mkVec 1 2 3, heading), s') /\
    veq heading (row1 (basis (rb_worldTransform Legacy.scene_body))) /\
    rb_totalForce rb'
    = mkVec (fadd (vx (rb_totalForce Legacy.scene_body)) 0)
            (fadd (vy (rb_totalForce Legacy.scene_body)) 16777216)
            (fadd (vz (rb_totalForce Legacy.scene_body)) 1).
Proof.
  assert (H2 : float_matrix (basis (rb_worldTransform Legacy.scene_body)))
    by exact float_matrix_identity.
  split; [exact legacy_scene_live|]. split; [exact H2|].
  destruct (legacy_set_then_get Legacy.scene 8%nat 7%nat Legacy.scene_body
              (mkVec 1 2 3) (mkVec 1 0 0) (mkVec 0 16777216 1) vzero vzero legacy_scene_live)
    as (s' & rb' & heading & Hrun & Hlive & Hget & _ & Hhead & Hforce & _).
  exists s', rb', heading. split; [exact Hrun|]. split; [exact Hlive|].
  split; [exact Hget|]. split; [exact (Hhead H2)|exact Hforce].
Defined.

Lemma legacy_world_only_below a c :
  Legacy.heap Legacy.world_only !! a = Some c -> (a < Legacy.next Legacy.world_only)%nat.
Proof.
  cbn [Legacy.world_only Legacy.heap Legacy.next]. intros H.
  apply lookup_singleton_Some in H as [<- _]. lia.
Qed.

Lemma legacy_entity_collider_create_then_get_witness :
  Legacy.heap Legacy.world_only !! 0%nat = Some (Legacy.CWorld Legacy.new_world) /\
  exists s' heading,
    Legacy.entity_collider_create (Some 0%nat) (mkVec 0 0 10) (mkVec 0.5 0.5 1)
                                  Legacy.world_only = Ok (Some 8%nat, s') /\
    Legacy.entity_collider_get (Some 8%nat) vzero vzero s'
    = Ok ((0%Z, mkVec 0 0 10, heading), s') /\
    veq heading (mkVec 0 1 0).
Proof.
  assert (H1 : Legacy.heap Legacy.world_only !! 0%nat = Some (Legacy.CWorld Legacy.new_world))
    by reflexivity.
  split; [exact H1|].
  destruct (legacy_entity_collider_create_then_get Legacy.world_only 0%nat Legacy.new_world
              (mkVec 0 0 10) (mkVec 0.5 0.5 1) vzero vzero H1 legacy_world_only_below)
    as (s' & heading & Hrun & _ & _ & _ & Hget & Hhead).
  exists s', heading. split; [exact Hrun|]. split; [exact Hget|exact Hhead].
Defined.
